(** * Dream Dictionary: the client-side identity bootstrap of [js/script.js]

    A shallow embedding of the authentication and usage-gating code of
    [src/js/script.js] (the session store [login] / [getCurrentUser] /
    [isLoggedIn] / [logout], the usage throttle [incrementUsageCount] /
    [showLoginPrompt], the redirect parameter extraction at the head of
    [processGoogleLoginData], the orchestration around
    [mockGoogleLogin], the other ways in and out,
    [testLoginFromCurrentUrl], [emergencyLogin], [handleGoogleLogin], the
    click handlers of the interpret button and of the login link and the
    check for an [error] in the address, and the text functions
    [formatParagraphs] and [extractMainDomain]), together with the engine
    built-ins that code calls ([parseInt], [Number.prototype.toString],
    [JSON.parse], [JSON.stringify], [URLSearchParams],
    [encodeURIComponent], [decodeURIComponent], the string methods).

    Conventions.
    - A JavaScript string is the list of its UTF-16 code units.
    - [localStorage] is a finite map from keys to strings, threaded
      through every function that touches it.
    - The clock ([Date.now()], [new Date().getTime()]) and the random
      source are explicit arguments.
    - A JavaScript number is modelled where the code computes with
      integers (the usage counter, millisecond time stamps): [Int z] is
      the integer [z], [NaN] is not-a-number. The engine computes exactly
      on integers of magnitude below 2^53, which covers every time stamp
      a [Date] can hold.
    - DOM updates do not fail (the page [index.html] carries the elements
      the code looks up); what they show is recorded as a [notice].
    - Writing to [localStorage] does not fail. *)

From Stdlib Require Import ZArith NArith List Ascii String Bool Lia.
From stdpp Require Import gmap strings list.

Local Open Scope N_scope.

(** ** JavaScript strings *)

Abbreviation jsstring := (list N).

(** The code units of an ASCII literal of the source. *)
Definition js (s : string) : jsstring :=
  map N_of_ascii (list_ascii_of_string s).

Definition str_eqb (a b : jsstring) : bool :=
  bool_decide (a = b).

Fixpoint startsWith (p s : jsstring) : bool :=
  match p, s with
  | [], _ => true
  | _ :: _, [] => false
  | a :: p', b :: s' => (a =? b) && startsWith p' s'
  end.

(** [indexOf_from needle s i]: the first position of [needle] in [s],
    positions counted from [i]. *)
Fixpoint indexOf_from (needle s : jsstring) (i : nat) : option nat :=
  match s with
  | [] => if startsWith needle [] then Some i else None
  | _ :: s' =>
      if startsWith needle s then Some i else indexOf_from needle s' (S i)
  end.

(** [s.indexOf(needle)]; [None] is the [-1] of JavaScript. *)
Definition indexOf (needle s : jsstring) : option nat :=
  indexOf_from needle s 0.

(** [s.indexOf(needle, start)]. *)
Definition indexOf_at (needle s : jsstring) (start : nat) : option nat :=
  if decide (start ≤ length s)%nat
  then indexOf_from needle (drop start s) start
  else indexOf_from needle [] (length s).

(** [s.includes(needle)]. *)
Definition includes (needle s : jsstring) : bool :=
  match indexOf needle s with Some _ => true | None => false end.

(** [s.substring(i, j)] for [i <= j]. *)
Definition substring (i j : nat) (s : jsstring) : jsstring :=
  take (j - i) (drop i s).

(** [s.split(sep)] for a non-empty separator: cut at every occurrence,
    left to right. The recursion is on the number of pieces, which the
    length of [s] bounds ([split_fuel_enough]). *)
Fixpoint split_fuel (fuel : nat) (sep s : jsstring) : list jsstring :=
  match fuel with
  | O => [s]
  | S fuel' =>
      match indexOf sep s with
      | None => [s]
      | Some i => take i s :: split_fuel fuel' sep (drop (i + length sep) s)
      end
  end.

Definition split (sep s : jsstring) : list jsstring :=
  split_fuel (length s) sep s.

(** White space of the language ([WhiteSpace] and [LineTerminator]): what
    [\s] matches, what [trim] strips and what [parseInt] skips. *)
Definition is_space (c : N) : bool :=
  (c =? 9) || (c =? 10) || (c =? 11) || (c =? 12) || (c =? 13) ||
  (c =? 32) || (c =? 160) || (c =? 5760) ||
  ((8192 <=? c) && (c <=? 8202)) ||
  (c =? 8232) || (c =? 8233) || (c =? 8239) || (c =? 8287) ||
  (c =? 12288) || (c =? 65279).

Definition is_digit (c : N) : bool := (48 <=? c) && (c <=? 57).

Definition is_upper (c : N) : bool := (65 <=? c) && (c <=? 90).

Definition is_lower (c : N) : bool := (97 <=? c) && (c <=? 122).

(** [\w] of a regular expression without the unicode flag. *)
Definition is_word (c : N) : bool :=
  is_digit c || is_upper c || is_lower c || (c =? 95).

Fixpoint trimStart (s : jsstring) : jsstring :=
  match s with
  | c :: s' => if is_space c then trimStart s' else s
  | [] => []
  end.

Definition String_trim (s : jsstring) : jsstring :=
  rev (trimStart (rev (trimStart s))).

(** A value that is a string or [null] ([localStorage.getItem],
    [URLSearchParams.get]); [None] is [null]. *)
Definition truthy_str (v : option jsstring) : bool :=
  match v with
  | Some (_ :: _) => true
  | _ => false
  end.

(** [v || d] for such a value and a string [d]. *)
Definition or_str (v : option jsstring) (d : jsstring) : jsstring :=
  match v with
  | Some (c :: s) => c :: s
  | _ => d
  end.

(** ** Numbers: integers and NaN *)

Inductive number :=
  | NaN
  | Int (z : Z).

Definition hex_value (c : N) : option N :=
  if is_digit c then Some (c - 48)
  else if (65 <=? c) && (c <=? 70) then Some (c - 55)
  else if (97 <=? c) && (c <=? 102) then Some (c - 87)
  else None.

Definition digit_value (radix : N) (c : N) : option N :=
  match hex_value c with
  | Some d => if d <? radix then Some d else None
  | None => None
  end.

(** The value of the longest prefix of [s] made of digits of the radix,
    and whether that prefix is non-empty. *)
Fixpoint digits_prefix (radix : N) (s : jsstring) (acc : N) (seen : bool)
  : N * bool :=
  match s with
  | [] => (acc, seen)
  | c :: s' =>
      match digit_value radix c with
      | Some d => digits_prefix radix s' (acc * radix + d) true
      | None => (acc, seen)
      end
  end.

(** [parseInt(s)] with no radix argument: leading white space skipped,
    an optional sign, the prefix [0x] or [0X] for radix 16, then the
    longest run of digits; NaN when that run is empty. *)
Definition parseInt (s : jsstring) : number :=
  let s := trimStart s in
  let neg := match s with c :: _ => c =? 45 | [] => false end in
  let s :=
    match s with
    | c :: s' => if (c =? 45) || (c =? 43) then s' else s
    | [] => []
    end in
  let hex :=
    match s with
    | a :: b :: _ => (a =? 48) && ((b =? 120) || (b =? 88))
    | _ => false
    end in
  let radix := if hex then 16 else 10 in
  let s := if hex then drop 2 s else s in
  match digits_prefix radix s 0 false with
  | (n, true) => Int (if neg then - Z.of_N n else Z.of_N n)
  | (_, false) => NaN
  end.

Fixpoint dec_digits (fuel : nat) (n : N) (acc : jsstring) : jsstring :=
  match fuel with
  | O => acc
  | S fuel' =>
      let acc' := (48 + n mod 10) :: acc in
      if n <? 10 then acc' else dec_digits fuel' (n / 10) acc'
  end.

Definition N_toString (n : N) : jsstring :=
  dec_digits (S (N.to_nat (N.log2 n))) n [].

Definition NaN_text : jsstring := Eval cbv in js "NaN".

(** [x.toString()] of an integer or NaN. *)
Definition Number_toString (x : number) : jsstring :=
  match x with
  | NaN => NaN_text
  | Int z => if (z <? 0)%Z then 45 :: N_toString (Z.abs_N z)
             else N_toString (Z.abs_N z)
  end.

(** [x++], as far as the new value of [x] goes. *)
Definition increment (x : number) : number :=
  match x with
  | NaN => NaN
  | Int z => Int (z + 1)
  end.

(** [a - b]. *)
Definition number_sub (a b : number) : number :=
  match a, b with
  | Int x, Int y => Int (x - y)
  | _, _ => NaN
  end.

(** [a >= k] and [a > k]: false on NaN. *)
Definition number_ge (a : number) (k : Z) : bool :=
  match a with
  | Int x => (k <=? x)%Z
  | NaN => false
  end.

Definition number_gt (a : number) (k : Z) : bool :=
  match a with
  | Int x => (k <? x)%Z
  | NaN => false
  end.

(** ** JSON *)

#[local] Set Warnings "-register-all".

(** A parsed JSON text. A number is kept as the exact decimal [m * 10^e]
    its token denotes; an object as its members in source order. *)
Inductive json :=
  | JNull
  | JBool (b : bool)
  | JNum (m e : Z)
  | JStr (s : jsstring)
  | JArr (l : list json)
  | JObj (l : list (jsstring * json)).

Fixpoint skip_ws (s : jsstring) : jsstring :=
  match s with
  | c :: s' =>
      if (c =? 9) || (c =? 10) || (c =? 13) || (c =? 32) then skip_ws s' else s
  | [] => []
  end.

Definition hex4 (a b c d : N) : option N :=
  match hex_value a, hex_value b, hex_value c, hex_value d with
  | Some x, Some y, Some z, Some w => Some (((x * 16 + y) * 16 + z) * 16 + w)
  | _, _, _, _ => None
  end.

(** The body of a string token after its opening quote: the decoded
    code units and the text after the closing quote. *)
Fixpoint parse_string_body (s acc : jsstring) : option (jsstring * jsstring) :=
  match s with
  | [] => None
  | c :: r =>
      if c =? 34 then Some (rev acc, r)
      else if c =? 92 then
        match r with
        | [] => None
        | x :: r' =>
            if x =? 34 then parse_string_body r' (34 :: acc)
            else if x =? 92 then parse_string_body r' (92 :: acc)
            else if x =? 47 then parse_string_body r' (47 :: acc)
            else if x =? 98 then parse_string_body r' (8 :: acc)
            else if x =? 102 then parse_string_body r' (12 :: acc)
            else if x =? 110 then parse_string_body r' (10 :: acc)
            else if x =? 114 then parse_string_body r' (13 :: acc)
            else if x =? 116 then parse_string_body r' (9 :: acc)
            else if x =? 117 then
              match r' with
              | h1 :: h2 :: h3 :: h4 :: r'' =>
                  match hex4 h1 h2 h3 h4 with
                  | Some u => parse_string_body r'' (u :: acc)
                  | None => None
                  end
              | _ => None
              end
            else None
        end
      else if c <? 32 then None
      else parse_string_body r (c :: acc)
  end.

(** A run of decimal digits: its value continuing [acc], its length, and
    the text after it. *)
Fixpoint digit_run (s : jsstring) (acc : Z) (len : Z) : Z * Z * jsstring :=
  match s with
  | c :: s' =>
      if is_digit c then digit_run s' (acc * 10 + Z.of_N (c - 48)) (len + 1)
      else (acc, len, s)
  | [] => (acc, len, s)
  end.

(** A number token: an optional minus sign, an integer part without a
    superfluous leading zero, an optional fraction of at least one digit,
    an optional exponent of at least one digit. *)
Definition parse_number (s : jsstring) : option (json * jsstring) :=
  let neg := match s with c :: _ => c =? 45 | [] => false end in
  let s := if neg then drop 1 s else s in
  let int_part :=
    match s with
    | c :: s' =>
        if c =? 48 then Some (0%Z, s')
        else if is_digit c then
          let '(v, _, r) := digit_run s 0 0 in Some (v, r)
        else None
    | [] => None
    end in
  match int_part with
  | None => None
  | Some (i, r) =>
      let frac :=
        match r with
        | c :: r' =>
            if c =? 46 then
              let '(v, n, r'') := digit_run r' i 0 in
              if (n =? 0)%Z then None else Some (v, n, r'')
            else Some (i, 0%Z, r)
        | [] => Some (i, 0%Z, r)
        end in
      match frac with
      | None => None
      | Some (m, n, r) =>
          let m := if neg then (- m)%Z else m in
          match r with
          | c :: r' =>
              if (c =? 101) || (c =? 69) then
                let eneg := match r' with d :: _ => d =? 45 | [] => false end in
                let signed :=
                  match r' with
                  | d :: _ => (d =? 45) || (d =? 43)
                  | [] => false
                  end in
                let '(v, k, t) := digit_run (if signed then drop 1 r' else r') 0 0 in
                if (k =? 0)%Z then None
                else Some (JNum m ((if eneg then - v else v) - n)%Z, t)
              else Some (JNum m (- n)%Z, r)
          | [] => Some (JNum m (- n)%Z, r)
          end
      end
  end.

Definition lit_null : jsstring := Eval cbv in js "null".
Definition lit_true : jsstring := Eval cbv in js "true".
Definition lit_false : jsstring := Eval cbv in js "false".

(** One JSON value at the head of [s], white space before it skipped;
    the members of an object from its first key on; the elements of an
    array after its first. The fuel bounds the number of nested calls;
    each call is on a strictly shorter text, so fuel above the length of
    [s] never runs out ([parse_value_fuel]). *)
Fixpoint parse_value (fuel : nat) (s : jsstring) : option (json * jsstring) :=
  match fuel with
  | O => None
  | S f =>
      match skip_ws s with
      | [] => None
      | c :: r =>
          if c =? 34 then
            match parse_string_body r [] with
            | Some (str, r') => Some (JStr str, r')
            | None => None
            end
          else if c =? 123 then
            match skip_ws r with
            | d :: r' =>
                if d =? 125 then Some (JObj [], r') else parse_members f r []
            | [] => None
            end
          else if c =? 91 then
            match skip_ws r with
            | d :: r' =>
                if d =? 93 then Some (JArr [], r')
                else
                  match parse_value f r with
                  | Some (v, r1) => parse_elements f r1 [v]
                  | None => None
                  end
            | [] => None
            end
          else if startsWith lit_null (c :: r)
          then Some (JNull, drop 4 (c :: r))
          else if startsWith lit_true (c :: r)
          then Some (JBool true, drop 4 (c :: r))
          else if startsWith lit_false (c :: r)
          then Some (JBool false, drop 5 (c :: r))
          else parse_number (c :: r)
      end
  end
with parse_members (fuel : nat) (s : jsstring) (acc : list (jsstring * json))
  : option (json * jsstring) :=
  match fuel with
  | O => None
  | S f =>
      match skip_ws s with
      | q :: r =>
          if q =? 34 then
            match parse_string_body r [] with
            | Some (k, r1) =>
                match skip_ws r1 with
                | colon :: r2 =>
                    if colon =? 58 then
                      match parse_value f r2 with
                      | Some (v, r3) =>
                          match skip_ws r3 with
                          | d :: r4 =>
                              if d =? 44
                              then parse_members f r4 ((k, v) :: acc)
                              else if d =? 125
                              then Some (JObj (rev ((k, v) :: acc)), r4)
                              else None
                          | [] => None
                          end
                      | None => None
                      end
                    else None
                | [] => None
                end
            | None => None
            end
          else None
      | [] => None
      end
  end
with parse_elements (fuel : nat) (s : jsstring) (acc : list json)
  : option (json * jsstring) :=
  match fuel with
  | O => None
  | S f =>
      match skip_ws s with
      | d :: r =>
          if d =? 44 then
            match parse_value f r with
            | Some (v, r') => parse_elements f r' (v :: acc)
            | None => None
            end
          else if d =? 93 then Some (JArr (rev acc), r)
          else None
      | [] => None
      end
  end.

(** [JSON.parse(s)]; [None] when it throws a [SyntaxError]. *)
Definition JSON_parse (s : jsstring) : option json :=
  match parse_value (S (length s)) s with
  | Some (v, r) =>
      match skip_ws r with
      | [] => Some v
      | _ :: _ => None
      end
  | None => None
  end.

Definition is_high_surrogate (c : N) : bool := (55296 <=? c) && (c <=? 56319).

Definition is_low_surrogate (c : N) : bool := (56320 <=? c) && (c <=? 57343).

Definition hex_lower (d : N) : N := if d <? 10 then 48 + d else 87 + d.

(** [\uXXXX] with lower-case digits. *)
Definition unicode_escape (c : N) : jsstring :=
  [92; 117; hex_lower (c / 4096 mod 16); hex_lower (c / 256 mod 16);
   hex_lower (c / 16 mod 16); hex_lower (c mod 16)].

Definition quote_unit (c : N) : jsstring :=
  if c =? 8 then [92; 98]
  else if c =? 9 then [92; 116]
  else if c =? 10 then [92; 110]
  else if c =? 12 then [92; 102]
  else if c =? 13 then [92; 114]
  else if c =? 34 then [92; 34]
  else if c =? 92 then [92; 92]
  else if (c <? 32) || is_low_surrogate c then unicode_escape c
  else [c].

(** [QuoteJSONString] without the surrounding quotes: the string is read
    by code points, a surrogate pair is written as it is, a lone
    surrogate is escaped. *)
Fixpoint quote_body (s : jsstring) : jsstring :=
  match s with
  | [] => []
  | c :: s' =>
      if is_high_surrogate c then
        match s' with
        | d :: s'' =>
            if is_low_surrogate d then c :: d :: quote_body s''
            else unicode_escape c ++ quote_body s'
        | [] => unicode_escape c
        end
      else quote_unit c ++ quote_body s'
  end.

Definition quote (s : jsstring) : jsstring := 34 :: quote_body s ++ [34].

Fixpoint strip_zeros (fuel : nat) (m e : Z) : Z * Z :=
  match fuel with
  | O => (m, e)
  | S f => if (m mod 10 =? 0)%Z then strip_zeros f (m / 10)%Z (e + 1)%Z
           else (m, e)
  end.

(** [Number::toString] of the decimal [m * 10^e]. The digits written are
    those of the decimal itself, which are the digits the engine writes
    for a number of at most 15 significant digits in the range of the
    normal doubles. *)
Definition number_text (m e : Z) : jsstring :=
  if (m =? 0)%Z then [48] else
  let '(m', e') := strip_zeros (Z.to_nat (Z.log2 (Z.abs m))) m e in
  let ds := N_toString (Z.abs_N m') in
  let k := Z.of_nat (length ds) in
  let n := (k + e')%Z in
  let sign := if (m <? 0)%Z then [45] else [] in
  sign ++
  (if (k <=? n)%Z && (n <=? 21)%Z then ds ++ replicate (Z.to_nat (n - k)) 48
   else if (0 <? n)%Z && (n <=? 21)%Z
   then take (Z.to_nat n) ds ++ 46 :: drop (Z.to_nat n) ds
   else if (-6 <? n)%Z && (n <=? 0)%Z
   then 48 :: 46 :: replicate (Z.to_nat (- n)) 48 ++ ds
   else
     let ex := (n - 1)%Z in
     let tail := 101 :: (if (ex <? 0)%Z then 45 else 43)
                   :: N_toString (Z.abs_N ex) in
     match ds with
     | [d] => d :: tail
     | d :: ds' => d :: 46 :: ds' ++ tail
     | [] => tail
     end).

(** The pieces of a list or an object with commas between them. *)
Fixpoint join (sep : N) (l : list jsstring) : jsstring :=
  match l with
  | [] => []
  | [x] => x
  | x :: l' => x ++ sep :: join sep l'
  end.

(** [JSON.stringify(v)] of a value that came out of [JSON.parse] or is
    built of strings and [null]. An object is written with its members
    as listed, which is the order of the engine for the object literals
    of the program and for parsed objects whose keys are distinct and
    not array indices. *)
Fixpoint stringify_json (v : json) : jsstring :=
  match v with
  | JNull => lit_null
  | JBool true => lit_true
  | JBool false => lit_false
  | JNum m e => number_text m e
  | JStr s => quote s
  | JArr l => 91 :: join 44 (map stringify_json l) ++ [93]
  | JObj l =>
      123 :: join 44 (map (fun kv => quote kv.1 ++ 58 :: stringify_json kv.2) l)
        ++ [125]
  end.

(** A property read [v.k] of a parsed value other than [null]:
    [None] is [undefined]. Of a repeated member the last one counts. *)
Definition get_prop (k : jsstring) (v : json) : option json :=
  match v with
  | JObj l =>
      match filter (fun kv => kv.1 = k) (rev l) with
      | kv :: _ => Some kv.2
      | [] => None
      end
  | _ => None
  end.

(** Truthiness. A number token is falsy when the double nearest to it is
    zero: the decimal is zero or rounds to zero, being at most half the
    least positive double [2^-1074]. *)
Definition truthy (v : json) : bool :=
  match v with
  | JNull => false
  | JBool b => b
  | JNum m e =>
      negb ((m =? 0)%Z ||
            ((e <? 0)%Z && (Z.abs m * 2 ^ 1075 <=? 10 ^ (- e))%Z))
  | JStr s => match s with [] => false | _ :: _ => true end
  | JArr _ | JObj _ => true
  end.

(** A value that may be [undefined] ([None]). *)
Definition truthy_opt (v : option json) : bool :=
  match v with
  | Some x => truthy x
  | None => false
  end.

(** ** URL decoding: UTF-8, percent-decoding, [URLSearchParams] *)

(** The code points of a string; [None] stands for a lone surrogate. *)
Fixpoint code_points (s : jsstring) : list (option N) :=
  match s with
  | [] => []
  | c :: s' =>
      if is_high_surrogate c then
        match s' with
        | d :: s'' =>
            if is_low_surrogate d
            then Some (65536 + (c - 55296) * 1024 + (d - 56320)) :: code_points s''
            else None :: code_points s'
        | [] => [None]
        end
      else if is_low_surrogate c then None :: code_points s'
      else Some c :: code_points s'
  end.

Definition utf8_bytes (cp : N) : list N :=
  if cp <? 128 then [cp]
  else if cp <? 2048 then [192 + cp / 64; 128 + cp mod 64]
  else if cp <? 65536
  then [224 + cp / 4096; 128 + cp / 64 mod 64; 128 + cp mod 64]
  else [240 + cp / 262144; 128 + cp / 4096 mod 64; 128 + cp / 64 mod 64;
        128 + cp mod 64].

(** UTF-8 of a string given to a Web API: a lone surrogate is replaced by
    U+FFFD. *)
Definition utf8_encode (s : jsstring) : list N :=
  flat_map (fun cp => utf8_bytes (default 65533 cp)) (code_points s).

(** The state of the UTF-8 decoder: continuation bytes still needed, the
    code point so far, and the bounds of the next byte. *)
Record utf8_state := Utf8State {
  utf8_needed : nat;
  utf8_cp : N;
  utf8_lower : N;
  utf8_upper : N
}.

Definition utf8_init : utf8_state := Utf8State 0 0 128 191.

Definition utf8_lead (b : N) : list N * utf8_state :=
  if b <=? 127 then ([b], utf8_init)
  else if (194 <=? b) && (b <=? 223)
  then ([], Utf8State 1 (b - 192) 128 191)
  else if (224 <=? b) && (b <=? 239)
  then ([], Utf8State 2 (b - 224)
              (if b =? 224 then 160 else 128) (if b =? 237 then 159 else 191))
  else if (240 <=? b) && (b <=? 244)
  then ([], Utf8State 3 (b - 240)
              (if b =? 240 then 144 else 128) (if b =? 244 then 143 else 191))
  else ([65533], utf8_init).

Definition utf8_step (st : utf8_state) (b : N) : list N * utf8_state :=
  match utf8_needed st with
  | O => utf8_lead b
  | S k =>
      if (utf8_lower st <=? b) && (b <=? utf8_upper st) then
        let cp := utf8_cp st * 64 + (b - 128) in
        match k with
        | O => ([cp], utf8_init)
        | S _ => ([], Utf8State k cp 128 191)
        end
      else
        let '(out, st') := utf8_lead b in (65533 :: out, st')
  end.

Fixpoint utf8_decode_from (st : utf8_state) (bytes : list N) : list N :=
  match bytes with
  | [] => match utf8_needed st with O => [] | S _ => [65533] end
  | b :: bytes' =>
      let '(out, st') := utf8_step st b in out ++ utf8_decode_from st' bytes'
  end.

Definition utf16_units (cp : N) : jsstring :=
  if cp <? 65536 then [cp]
  else [55296 + (cp - 65536) / 1024; 56320 + (cp - 65536) mod 1024].

(** UTF-8 decode without BOM, errors replaced by U+FFFD. *)
Definition utf8_decode (bytes : list N) : jsstring :=
  flat_map utf16_units (utf8_decode_from utf8_init bytes).

Fixpoint percent_decode (s : list N) : list N :=
  match s with
  | [] => []
  | c :: t =>
      if c =? 37 then
        match t with
        | a :: b :: r =>
            match hex_value a, hex_value b with
            | Some x, Some y => (x * 16 + y) :: percent_decode r
            | _, _ => 37 :: percent_decode t
            end
        | _ => 37 :: percent_decode t
        end
      else c :: percent_decode t
  end.

(** The pieces of [s] between the occurrences of the unit [c]. *)
Fixpoint split_on (c : N) (s cur : list N) : list (list N) :=
  match s with
  | [] => [rev cur]
  | x :: s' =>
      if x =? c then rev cur :: split_on c s' [] else split_on c s' (x :: cur)
  end.

(** [name=value] cut at the first [=]. *)
Fixpoint cut_at (c : N) (s cur : list N) : list N * list N :=
  match s with
  | [] => (rev cur, [])
  | x :: s' => if x =? c then (rev cur, s') else cut_at c s' (x :: cur)
  end.

Definition form_decode (bytes : list N) : jsstring :=
  utf8_decode
    (percent_decode (map (fun b => if b =? 43 then 32 else b) bytes)).

(** The [application/x-www-form-urlencoded] parser. *)
Definition parse_urlencoded (bytes : list N) : list (jsstring * jsstring) :=
  omap (fun piece =>
          match piece with
          | [] => None
          | _ :: _ =>
              let '(name, value) := cut_at 61 piece [] in
              Some (form_decode name, form_decode value)
          end)
       (split_on 38 bytes []).

(** [new URLSearchParams(init)] for a string: the list of its pairs. *)
Definition URLSearchParams (init : jsstring) : list (jsstring * jsstring) :=
  parse_urlencoded
    (utf8_encode (match init with 63 :: s => s | _ => init end)).

(** [params.get(name)]: the first value under that name, or [null]. *)
Definition params_get (name : jsstring) (params : list (jsstring * jsstring))
  : option jsstring :=
  match filter (fun kv => kv.1 = name) params with
  | kv :: _ => Some kv.2
  | [] => None
  end.

(** [encodeURIComponent(s)]; [None] when it throws a [URIError] on a lone
    surrogate. *)
Definition uri_unreserved (c : N) : bool :=
  is_word c || (c =? 45) || (c =? 46) || (c =? 33) || (c =? 126) ||
  (c =? 42) || (c =? 39) || (c =? 40) || (c =? 41).

Definition hex_upper (d : N) : N := if d <? 10 then 48 + d else 55 + d.

Definition percent_byte (b : N) : jsstring :=
  [37; hex_upper (b / 16); hex_upper (b mod 16)].

Fixpoint encode_points (l : list (option N)) : option jsstring :=
  match l with
  | [] => Some []
  | None :: _ => None
  | Some cp :: l' =>
      match encode_points l' with
      | Some r =>
          Some ((if uri_unreserved cp then [cp]
                 else flat_map percent_byte (utf8_bytes cp)) ++ r)
      | None => None
      end
  end.

Definition encodeURIComponent (s : jsstring) : option jsstring :=
  encode_points (code_points s).

(** [window.location.search] read off [window.location.href]: the query
    with its question mark, up to the fragment; empty when the query is. *)
Definition location_search (href : jsstring) : jsstring :=
  let before_fragment :=
    match indexOf [35] href with
    | Some i => take i href
    | None => href
    end in
  match indexOf [63] before_fragment with
  | Some i =>
      match drop i before_fragment with
      | [_] => []
      | q => q
      end
  | None => []
  end.

(** ** The program: session store *)

(** [localStorage]: keys to strings. *)
Abbreviation storage := (gmap string jsstring).

(** The object literal [{ userId, username, token, googleId, picture,
    email }] the code stores; a field may be [undefined] ([None]). *)
Record UserData := {
  userId : option json;
  username : option json;
  token : option json;
  googleId : option json;
  picture : option json;
  email : option json
}.

Definition k_userId : jsstring := Eval cbv in js "userId".
Definition k_username : jsstring := Eval cbv in js "username".
Definition k_token : jsstring := Eval cbv in js "token".
Definition k_googleId : jsstring := Eval cbv in js "googleId".
Definition k_picture : jsstring := Eval cbv in js "picture".
Definition k_email : jsstring := Eval cbv in js "email".

(** The members [JSON.stringify] writes: those that are not [undefined],
    in the order of the literal. *)
Definition defined_members (u : UserData) : list (jsstring * json) :=
  omap (fun kv : jsstring * option json => pair kv.1 <$> kv.2)
    [(k_userId, userId u); (k_username, username u); (k_token, token u);
     (k_googleId, googleId u); (k_picture, picture u); (k_email, email u)].

Definition JSON_stringify (u : UserData) : jsstring :=
  stringify_json (JObj (defined_members u)).

(** [login(userData)]: the storage afterwards. *)
Definition login (userData : UserData) (ls : storage) : storage :=
  delete "usageCount"%string (<["user"%string := JSON_stringify userData]> ls).

Definition logout (ls : storage) : storage :=
  delete "user"%string ls.

Definition isLoggedIn (ls : storage) : bool :=
  truthy_str (ls !! "user"%string).

(** [getCurrentUser()]: the value returned ([JNull] for [null]) and the
    storage afterwards. *)
Definition getCurrentUser (ls : storage) : json * storage :=
  let userString := ls !! "user"%string in
  if negb (truthy_str userString) then (JNull, ls)
  else
    match JSON_parse (or_str userString []) with
    | Some userData => (userData, ls)
    | None => (JNull, delete "user"%string ls)
    end.

(** ** The program: usage throttle *)

Inductive prompt :=
  | NoPrompt
  | ShowPrompt.

(** [showLoginPrompt()] at time [now] (milliseconds): whether the prompt
    is put on the page, and the storage afterwards. *)
Definition showLoginPrompt (now : Z) (ls : storage) : prompt * storage :=
  let lastPromptTime := ls !! "lastLoginPromptTime"%string in
  if negb (truthy_str lastPromptTime) ||
     number_gt (number_sub (Int now) (parseInt (or_str lastPromptTime [])))
       3600000
  then (ShowPrompt,
        <["lastLoginPromptTime"%string := Number_toString (Int now)]> ls)
  else (NoPrompt, ls).

Definition zero_text : jsstring := Eval cbv in js "0".

(** [incrementUsageCount()] at time [now]. *)
Definition incrementUsageCount (now : Z) (ls : storage) : prompt * storage :=
  if isLoggedIn ls then (NoPrompt, ls)
  else
    let count := parseInt (or_str (ls !! "usageCount"%string) zero_text) in
    let count := increment count in
    let ls := <["usageCount"%string := Number_toString count]> ls in
    if number_ge count 15 then showLoginPrompt now ls else (NoPrompt, ls).

(** A sequence of gated actions at the given times: the decisions in
    order and the final storage. *)
Fixpoint recordUses (times : list Z) (ls : storage) : list prompt * storage :=
  match times with
  | [] => ([], ls)
  | now :: times' =>
      let '(d, ls') := incrementUsageCount now ls in
      let '(ds, ls'') := recordUses times' ls' in
      (d :: ds, ls'')
  end.

(** ** The program: redirect parameter extraction *)

(** How a block of statements ends: normally with a value, or by a throw. *)
Inductive completion (A : Type) :=
  | Normal (a : A)
  | Throw.
Arguments Normal {A} a.
Arguments Throw {A}.

Definition KEY : jsstring := Eval cbv in js "google_id=".
Definition QUERY_KEY : jsstring := Eval cbv in js "?google_id=".
Definition HASH_KEY : jsstring := Eval cbv in js "#google_id=".
Definition SLASH_KEY : jsstring := Eval cbv in js "/google_id=".

(** What [/[^\w\s=&%@.-]/g] leaves in place. *)
Definition allowed (c : N) : bool :=
  is_word c || is_space c || (c =? 61) || (c =? 38) || (c =? 37) ||
  (c =? 64) || (c =? 46) || (c =? 45).

(** [illegalChars]: space, both quotes, angle brackets, backslash, braces. *)
Definition illegalChars : list N := [32; 34; 39; 60; 62; 92; 123; 125].

(** The loop over [illegalChars]: the least index of one of them at or
    after [startIndex], or the length of the URL. *)
Definition scan_end (url : jsstring) (startIndex : nat) : nat :=
  fold_left
    (fun endIndex char =>
       match indexOf_at [char] url startIndex with
       | Some charIndex =>
           if (charIndex <? endIndex)%nat then charIndex else endIndex
       | None => endIndex
       end)
    illegalChars (length url).

(** The branch of the [if] chain that builds [params]. *)
Inductive strategy :=
  | QueryString
  | HashFragment
  | SlashEmbedded
  | KeyScan.

Definition chosen_strategy (url : jsstring) : option strategy :=
  if includes QUERY_KEY url then Some QueryString
  else if includes HASH_KEY url then Some HashFragment
  else if includes SLASH_KEY url then Some SlashEmbedded
  else if includes KEY url then Some KeyScan
  else None.

(** The fields read off the redirect: [google_id], [name], [email],
    [picture], each a string or [null]. *)
Record Identity := {
  id_googleId : option jsstring;
  id_name : option jsstring;
  id_email : option jsstring;
  id_picture : option jsstring
}.

Definition k_google_id : jsstring := Eval cbv in js "google_id".
Definition k_name : jsstring := Eval cbv in js "name".

Definition read_identity (params : list (jsstring * jsstring)) : Identity :=
  {| id_googleId := params_get k_google_id params;
     id_name := params_get k_name params;
     id_email := params_get k_email params;
     id_picture := params_get k_picture params |}.

(** The head of [processGoogleLoginData], down to the test
    [if (googleId)]: [Normal None] when the function returns before it
    (no key in the URL), [Normal (Some i)] with the fields read otherwise.
    An element of [split] that does not exist is [undefined]:
    [new URLSearchParams(undefined)] is empty, a method call on it
    throws. [indexOf] giving [-1] makes [indexOf(char, -1)] and
    [substring(-1, _)] start at 0. *)
Definition extract_fields (url : jsstring) : completion (option Identity) :=
  if includes KEY url then
    let params :=
      if includes QUERY_KEY url then
        Normal (Some (URLSearchParams (location_search url)))
      else if includes HASH_KEY url then
        match split [35] url !! 1%nat with
        | Some hashParams => Normal (Some (URLSearchParams hashParams))
        | None => Normal (Some [])
        end
      else if includes SLASH_KEY url then
        match split SLASH_KEY url !! 1%nat with
        | Some fullPath =>
            let paramString := KEY ++ filter (fun c => allowed c) fullPath in
            Normal (Some (URLSearchParams paramString))
        | None => Throw
        end
      else if includes KEY url then
        let startIndex := default 0%nat (indexOf KEY url) in
        let endIndex := scan_end url startIndex in
        let paramString := substring startIndex endIndex url in
        Normal (Some (URLSearchParams paramString))
      else Normal None in
    match params with
    | Normal (Some params) => Normal (Some (read_identity params))
    | Normal None => Normal None
    | Throw => Throw
    end
  else Normal None.

(** [params] as one branch computes it, for comparing the branches. *)
Definition params_by (st : strategy) (url : jsstring)
  : completion (list (jsstring * jsstring)) :=
  match st with
  | QueryString => Normal (URLSearchParams (location_search url))
  | HashFragment =>
      match split [35] url !! 1%nat with
      | Some hashParams => Normal (URLSearchParams hashParams)
      | None => Normal []
      end
  | SlashEmbedded =>
      match split SLASH_KEY url !! 1%nat with
      | Some fullPath =>
          Normal (URLSearchParams (KEY ++ filter (fun c => allowed c) fullPath))
      | None => Throw
      end
  | KeyScan =>
      let startIndex := default 0%nat (indexOf KEY url) in
      Normal (URLSearchParams
                (substring startIndex (scan_end url startIndex) url))
  end.

(** The extractor: the identity the page goes on with, that is the
    fields read when [googleId] is truthy; a throw is caught by the
    handler around the whole function. *)
Definition extract (url : jsstring) : option Identity :=
  match extract_fields url with
  | Normal (Some i) => if truthy_str (id_googleId i) then Some i else None
  | Normal None => None
  | Throw => None
  end.

(** ** The program: orchestration *)

Definition host_localhost : jsstring := Eval cbv in js "localhost".
Definition host_loopback : jsstring := Eval cbv in js "127.0.0.1".
Definition host_site : jsstring := Eval cbv in js "qhdsalsm.com".
Definition host_www_site : jsstring := Eval cbv in js "www.qhdsalsm.com".

(** [isAllowedDomain] of [mockGoogleLogin]. *)
Definition isAllowedDomain (hostname : jsstring) : bool :=
  str_eqb hostname host_localhost || str_eqb hostname host_loopback ||
  str_eqb hostname host_site || str_eqb hostname host_www_site.

Definition avatar_prefix : jsstring :=
  Eval cbv in js "https://ui-avatars.com/api/?name=".
Definition avatar_suffix : jsstring := Eval cbv in js "&background=random".
Definition label_User : jsstring := Eval cbv in js "User".
Definition label_Local_User : jsstring := Eval cbv in js "Local User".
Definition mock_prefix : jsstring := Eval cbv in js "mock-".
Definition mock_token_prefix : jsstring := Eval cbv in js "mock-token-".

(** The avatar address generated for a name. *)
Definition generated_avatar (name : jsstring) : completion jsstring :=
  match encodeURIComponent name with
  | Some n => Normal (avatar_prefix ++ n ++ avatar_suffix)
  | None => Throw
  end.

(** The object literal [userData] of [mockGoogleLogin]. [now] is
    [Date.now()], [rnd] is [Math.random().toString(36).substring(2)]. *)
Definition mock_userData (gid : jsstring) (name email pic : option jsstring)
    (now : Z) (rnd : jsstring) : completion UserData :=
  let build (p : jsstring) :=
    {| userId := Some (JStr (mock_prefix ++ Number_toString (Int now)));
       username := Some (JStr (or_str name (or_str email label_Local_User)));
       token := Some (JStr (mock_token_prefix ++ rnd));
       googleId := Some (JStr gid);
       picture := Some (JStr p);
       email := Some (JStr (or_str email [])) |} in
  if truthy_str pic then Normal (build (or_str pic []))
  else
    match generated_avatar (or_str name label_User) with
    | Normal p => Normal (build p)
    | Throw => Throw
    end.

(** Why the promise chain of the exchange rejects: the request itself
    fails, the status is not a success, the body is empty or not JSON,
    the body is [null], the response carries no token. *)
Inductive exchange_error :=
  | FetchFailed
  | BadStatus (status : Z)
  | InvalidJSON
  | NullResponse
  | NoToken (error : option json).

(** What the page shows at the end: nothing, the welcome message, the
    "missing required information" message, or the failure of the
    exchange. *)
Inductive notice :=
  | Silent
  | Welcome (userData : UserData)
  | MissingInformation
  | ExchangeFailed (e : exchange_error).

(** [mockGoogleLogin(googleId, name, email, picture)] on the host
    [hostname]: the boolean returned, the storage afterwards and what is
    shown. *)
Definition mockGoogleLogin (hostname : jsstring)
    (gid name email pic : option jsstring) (now : Z) (rnd : jsstring)
    (ls : storage) : bool * storage * notice :=
  if negb (isAllowedDomain hostname) then (false, ls, Silent)
  else if negb (truthy_str gid) then (false, ls, Silent)
  else
    match mock_userData (or_str gid []) name email pic now rnd with
    | Normal userData =>
        (true,
         delete "usageCount"%string
           (<["user"%string := JSON_stringify userData]> ls),
         Welcome userData)
    | Throw => (false, ls, Silent)
    end.

(** How the request [fetch('/api/google-login', ...)] ends: the promise
    rejects, or a response arrives with a status and a body. *)
Inductive exchange :=
  | NetworkError
  | Response (status : Z) (text : jsstring).

Inductive promise (A : Type) :=
  | Fulfilled (a : A)
  | Rejected (e : exchange_error).
Arguments Fulfilled {A} a.
Arguments Rejected {A} e.

(** The first [then]: status check, then the body parsed. *)
Definition response_data (x : exchange) : promise json :=
  match x with
  | NetworkError => Rejected FetchFailed
  | Response status text =>
      if negb ((200 <=? status)%Z && (status <=? 299)%Z)
      then Rejected (BadStatus status)
      else
        match String_trim text with
        | [] => Rejected InvalidJSON
        | _ :: _ =>
            match JSON_parse text with
            | Some data => Fulfilled data
            | None => Rejected InvalidJSON
            end
        end
  end.

Definition k_user_id : jsstring := Eval cbv in js "user_id".
Definition k_error : jsstring := Eval cbv in js "error".

Definition json_of_str (v : option jsstring) : json :=
  match v with
  | Some s => JStr s
  | None => JNull
  end.

(** The second [then], down to the object literal [userData]. *)
Definition response_userData (i : Identity) (data : json) : promise UserData :=
  match data with
  | JNull => Rejected NullResponse
  | _ =>
      if truthy_opt (get_prop k_token data) then
        Fulfilled
          {| userId := get_prop k_user_id data;
             username :=
               if truthy_opt (get_prop k_username data)
               then get_prop k_username data
               else Some (JStr (or_str (id_name i)
                                  (or_str (id_email i) label_User)));
             token := get_prop k_token data;
             googleId := Some (json_of_str (id_googleId i));
             picture := Some (json_of_str (id_picture i));
             email := Some (JStr (or_str (id_email i) [])) |}
      else Rejected (NoToken (get_prop k_error data))
  end.

(** The two [then] handlers in a row: the session built from the
    response, or the error the chain hands to [catch]. *)
Definition exchange_chain (i : Identity) (x : exchange) : promise UserData :=
  match response_data x with
  | Fulfilled data => response_userData i data
  | Rejected e => Rejected e
  end.

(** The promise chain after [fetch]: on success the session is stored by
    [login]; the [catch] handler tries [mockGoogleLogin] and, when that
    returns [false], shows the failure. *)
Definition after_exchange (hostname : jsstring) (i : Identity) (x : exchange)
    (now : Z) (rnd : jsstring) (ls : storage) : storage * notice :=
  match exchange_chain i x with
  | Fulfilled userData => (login userData ls, Welcome userData)
  | Rejected e =>
      match mockGoogleLogin hostname (id_googleId i) (id_name i) (id_email i)
              (id_picture i) now rnd ls with
      | (true, ls', shown) => (ls', shown)
      | (false, _, _) => (ls, ExchangeFailed e)
      end
  end.

Record Location := {
  href : jsstring;
  hostname : jsstring
}.

(** [processGoogleLoginData()] on the page at [loc]; [x] is how the
    request ends if one is sent. *)
Definition processGoogleLoginData (loc : Location) (x : exchange) (now : Z)
    (rnd : jsstring) (ls : storage) : storage * notice :=
  match extract_fields (href loc) with
  | Normal (Some i) =>
      if truthy_str (id_googleId i) then
        if str_eqb (hostname loc) host_localhost ||
           str_eqb (hostname loc) host_loopback
        then
          let '(_, ls', shown) :=
            mockGoogleLogin (hostname loc) (id_googleId i) (id_name i)
              (id_email i) (id_picture i) now rnd ls in
          (ls', shown)
        else if str_eqb (hostname loc) host_site ||
                str_eqb (hostname loc) host_www_site
        then
          let '(_, ls', shown) :=
            mockGoogleLogin (hostname loc) (id_googleId i) (id_name i)
              (id_email i) (id_picture i) now rnd ls in
          (ls', shown)
        else after_exchange (hostname loc) i x now rnd ls
      else (ls, MissingInformation)
  | Normal None => (ls, Silent)
  | Throw => (ls, Silent)
  end.

(** ** The program: the interpret button *)




(** ** The program: paragraphs *)

(** [text.split(/\n{2,}/)]: the text cut at every run of two or more
    line feeds, the whole run left out. [in_run] says that such a run is
    being passed over; [cur] is the piece read so far, reversed. *)
Fixpoint split_blank_lines (in_run : bool) (s cur : jsstring) : list jsstring :=
  match s with
  | [] => [rev cur]
  | c :: s' =>
      if in_run then
        if c =? 10 then split_blank_lines true s' cur
        else split_blank_lines false s' (c :: cur)
      else if c =? 10 then
        match s' with
        | d :: _ =>
            if d =? 10 then rev cur :: split_blank_lines true s' []
            else split_blank_lines false s' (c :: cur)
        | [] => split_blank_lines false s' (c :: cur)
        end
      else split_blank_lines false s' (c :: cur)
  end.

Definition tag_br : jsstring := Eval cbv in js "<br>".
Definition tag_p : jsstring := Eval cbv in js "<p>".
Definition tag_p_end : jsstring := Eval cbv in js "</p>".

(** [paragraph.replace(/\n/g, '<br>')]. *)
Definition line_breaks (paragraph : jsstring) : jsstring :=
  flat_map (fun c => if c =? 10 then tag_br else [c]) paragraph.

(** [formatParagraphs(text)]. *)
Definition formatParagraphs (text : jsstring) : jsstring :=
  concat (map (fun paragraph => tag_p ++ line_breaks paragraph ++ tag_p_end)
              (split_blank_lines false text [])).

(** ** The program: the main domain of an address *)

Definition lower_unit (c : N) : N := if is_upper c then c + 32 else c.

(** Whether [s] begins with [lit], a literal without capitals, under the
    flag [i] of a regular expression: the letters of ASCII are compared
    without regard to case, every other unit as it is. *)
Definition startsWith_nocase (lit s : jsstring) : bool :=
  str_eqb (map lower_unit (take (length lit) s)) lit.

Definition scheme_https : jsstring := Eval cbv in js "https://".
Definition scheme_http : jsstring := Eval cbv in js "http://".
Definition www_dot : jsstring := Eval cbv in js "www.".

(** [url.replace(/^(https?:\/\/)?(www\.)?/i, '')]. *)
Definition strip_scheme_www (url : jsstring) : jsstring :=
  let rest :=
    if startsWith_nocase scheme_https url then drop 8 url
    else if startsWith_nocase scheme_http url then drop 7 url
    else url in
  if startsWith_nocase www_dot rest then drop 4 rest else rest.

(** [extractMainDomain(url)] for a string; the [catch] branch is for
    other arguments. *)
Definition extractMainDomain (url : jsstring) : jsstring :=
  let hostname := default [] (split [47] (strip_scheme_www url) !! 0%nat) in
  let parts := split [46] hostname in
  if (2 <=? length parts)%nat
  then join 46 (drop (length parts - 2) parts)
  else hostname.

(** ** [decodeURIComponent] and matching a parameter *)

(** A string with its escapes read: a unit as written, or the octet of
    [%XX]. *)
Inductive uri_item :=
  | UriUnit (c : N)
  | UriOctet (b : N).

(** [None] when a [%] is not followed by two hexadecimal digits. *)
Fixpoint uri_items (s : jsstring) : option (list uri_item) :=
  match s with
  | [] => Some []
  | c :: t =>
      if c =? 37 then
        match t with
        | a :: b :: r =>
            match hex_value a, hex_value b with
            | Some x, Some y => cons (UriOctet (x * 16 + y)) <$> uri_items r
            | _, _ => None
            end
        | _ => None
        end
      else cons (UriUnit c) <$> uri_items t
  end.

(** The octets taken as UTF-8, strictly: [None] when an octet cannot
    begin or continue a sequence, or when a sequence is cut short by a
    unit or by the end. *)
Fixpoint decode_items (st : utf8_state) (l : list uri_item) : option jsstring :=
  match l with
  | [] => match utf8_needed st with O => Some [] | S _ => None end
  | UriUnit c :: l' =>
      match utf8_needed st with
      | O => cons c <$> decode_items st l'
      | S _ => None
      end
  | UriOctet b :: l' =>
      match utf8_needed st with
      | O =>
          if b <=? 127 then cons b <$> decode_items utf8_init l'
          else
            match utf8_lead b with
            | ([], st') => decode_items st' l'
            | _ => None
            end
      | S k =>
          if (utf8_lower st <=? b) && (b <=? utf8_upper st) then
            let cp := utf8_cp st * 64 + (b - 128) in
            match k with
            | O => app (utf16_units cp) <$> decode_items utf8_init l'
            | S _ => decode_items (Utf8State k cp 128 191) l'
            end
          else None
      end
  end.

(** [decodeURIComponent(s)]; [Throw] is the [URIError]. *)
Definition decodeURIComponent (s : jsstring) : completion jsstring :=
  match uri_items s with
  | Some l =>
      match decode_items utf8_init l with
      | Some r => Normal r
      | None => Throw
      end
  | None => Throw
  end.

(** The units of the class of the regular expressions: every unit but
    an ampersand, a double quote, white space and the angle brackets. *)
Definition param_unit (c : N) : bool :=
  negb ((c =? 38) || (c =? 34) || is_space c || (c =? 60) || (c =? 62)).

Fixpoint run_of (p : N -> bool) (s : jsstring) : jsstring :=
  match s with
  | [] => []
  | c :: s' => if p c then c :: run_of p s' else []
  end.

(** [s.match(re)] for the literal [key] followed by a group of one or
    more units of the class: the group of the first match, if there is a
    match, the longest it can be. *)
Fixpoint match_param (key s : jsstring) : option jsstring :=
  match s with
  | [] => None
  | _ :: s' =>
      if startsWith key s then
        match run_of param_unit (drop (length key) s) with
        | [] => match_param key s'
        | v => Some v
        end
      else match_param key s'
  end.

(** ** The program: login from the address, emergency login *)

Definition NAME_KEY : jsstring := Eval cbv in js "name=".
Definition EMAIL_KEY : jsstring := Eval cbv in js "email=".
Definition PICTURE_KEY : jsstring := Eval cbv in js "picture=".

(** [m ? decodeURIComponent(m[1]) : null] for the match of [key]. *)
Definition decoded_match (key url : jsstring) : completion (option jsstring) :=
  match match_param key url with
  | Some m =>
      match decodeURIComponent m with
      | Normal v => Normal (Some v)
      | Throw => Throw
      end
  | None => Normal None
  end.

(** The fields [testLoginFromCurrentUrl] reads off an address that holds
    the key: by [URLSearchParams] from the query or the fragment, else by
    the four regular expressions, the [google_id] as matched and the
    others decoded. *)
Definition testLogin_fields (url : jsstring) : completion Identity :=
  if includes QUERY_KEY url then
    Normal (read_identity (URLSearchParams (location_search url)))
  else if includes HASH_KEY url then
    Normal (read_identity
              match split [35] url !! 1%nat with
              | Some hashPart => URLSearchParams hashPart
              | None => []
              end)
  else
    let googleId := match_param KEY url in
    match decoded_match NAME_KEY url with
    | Throw => Throw
    | Normal name =>
        match decoded_match EMAIL_KEY url with
        | Throw => Throw
        | Normal email =>
            match decoded_match PICTURE_KEY url with
            | Throw => Throw
            | Normal picture =>
                Normal {| id_googleId := googleId; id_name := name;
                          id_email := email; id_picture := picture |}
            end
        end
    end.

(** [testLoginFromCurrentUrl()] on the page at [loc]: the boolean
    returned, the storage afterwards and what [mockGoogleLogin] showed. *)
Definition testLoginFromCurrentUrl (loc : Location) (now : Z) (rnd : jsstring)
    (ls : storage) : bool * storage * notice :=
  if includes KEY (href loc) then
    match testLogin_fields (href loc) with
    | Normal i =>
        if truthy_str (id_googleId i) then
          mockGoogleLogin (hostname loc) (id_googleId i) (id_name i)
            (id_email i) (id_picture i) now rnd ls
        else (false, ls, Silent)
    | Throw => (false, ls, Silent)
    end
  else (false, ls, Silent).

Definition emergency_prefix : jsstring := Eval cbv in js "emergency-".
Definition emergency_token_prefix : jsstring := Eval cbv in js "emergency-token-".
Definition label_Emergency_User : jsstring := Eval cbv in js "Emergency User".

(** The object literal [userData] of [emergencyLogin(name, email)] for
    arguments that are strings or left out. [now] and [now'] are the two
    readings of [Date.now()], for [googleId] and for [userId]; [rnd] is
    [Math.random().toString(36).substring(2)]. The literal has no
    [email]. *)
Definition emergency_userData (name mail : option jsstring) (now now' : Z)
    (rnd : jsstring) : completion UserData :=
  let name_shown := or_str name (or_str mail label_Emergency_User) in
  match generated_avatar name_shown with
  | Normal p =>
      Normal {| userId := Some (JStr (emergency_prefix ++ Number_toString (Int now')));
                username := Some (JStr name_shown);
                token := Some (JStr (emergency_token_prefix ++ rnd));
                googleId := Some (JStr (emergency_prefix ++ Number_toString (Int now)));
                picture := Some (JStr p);
                email := None |}
  | Throw => Throw
  end.

(** [emergencyLogin(name, email)]: the storage after [login], or the
    [URIError] of [encodeURIComponent], thrown before anything is
    stored. *)
Definition emergencyLogin (name mail : option jsstring) (now now' : Z)
    (rnd : jsstring) (ls : storage) : completion storage :=
  match emergency_userData name mail now now' rnd with
  | Normal userData => Normal (login userData ls)
  | Throw => Throw
  end.

(** ** The program: leaving for the login page *)

Definition login_page : jsstring :=
  Eval cbv in js "https://aa.jstang.cn/google_login.php?url=".
Definition redirect_uri_param : jsstring := Eval cbv in js "&redirect_uri=".
Definition k_timestamp : jsstring := Eval cbv in js "timestamp".
Definition k_domain : jsstring := Eval cbv in js "domain".
Definition k_callback : jsstring := Eval cbv in js "callback".
Definition k_redirectUrl : jsstring := Eval cbv in js "redirectUrl".

(** The page the code runs on: [window.location.hostname], [.origin]
    and [.pathname]. *)
Record Page := {
  page_hostname : jsstring;
  page_origin : jsstring;
  page_pathname : jsstring
}.

Definition redirectDomain (page : Page) : jsstring :=
  if str_eqb (page_hostname page) host_localhost ||
     str_eqb (page_hostname page) host_loopback
  then host_site
  else page_hostname page.

(** [handleGoogleLogin()]: the address the browser is sent to and the
    storage afterwards; [Throw] when [encodeURIComponent] throws, before
    anything is stored. [iso] is [new Date().toISOString()]. *)
Definition handleGoogleLogin (page : Page) (iso : jsstring) (ls : storage)
  : completion (jsstring * storage) :=
  let fullUrl := page_origin page ++ page_pathname page in
  match encodeURIComponent fullUrl with
  | None => Throw
  | Some callback =>
      let redirectUrl :=
        login_page ++ redirectDomain page ++ redirect_uri_param ++ callback in
      Normal
        (redirectUrl,
         <["lastGoogleRedirect"%string :=
             stringify_json
               (JObj [(k_timestamp, JStr iso);
                      (k_domain, JStr (redirectDomain page));
                      (k_callback, JStr fullUrl);
                      (k_redirectUrl, JStr redirectUrl)])]> ls)
  end.

(** The click handler of the login/logout link: where the browser is
    sent, if anywhere, and the storage afterwards. *)
Definition navLoginClick (page : Page) (iso : jsstring) (ls : storage)
  : completion (option jsstring * storage) :=
  if isLoggedIn ls then Normal (None, logout ls)
  else
    match handleGoogleLogin page iso ls with
    | Normal (redirectUrl, ls') => Normal (Some redirectUrl, ls')
    | Throw => Throw
    end.

(** ** The program: an error in the address *)

Definition ERROR_KEY : jsstring := Eval cbv in js "error=".
Definition failed_prefix : jsstring := Eval cbv in js "Google login failed: ".
Definition label_Authentication_failed : jsstring :=
  Eval cbv in js "Authentication failed".

(** The first handler run when the page is loaded: the text put in the
    login message, if any, and the address of the page afterwards
    ([history.replaceState]). *)
Definition authErrorCheck (page : Page) (url : jsstring)
  : option jsstring * jsstring :=
  if includes ERROR_KEY url then
    let urlParams := URLSearchParams (location_search url) in
    let errorMessage :=
      match params_get k_error urlParams with
      | Some m => m
      | None => label_Authentication_failed
      end in
    (Some (failed_prefix ++ errorMessage), page_origin page ++ page_pathname page)
  else (None, url).

(** ** Vocabulary of the properties *)

(** The cooldown allows a prompt at [now]: no time stamp is stored (or an
    empty one), or the stored one lies more than 3600 seconds back. *)
Definition cooldown_over (ls : storage) (now : Z) : Prop :=
  match ls !! "lastLoginPromptTime"%string with
  | None => True
  | Some s => s = [] \/ exists t, parseInt s = Int t /\ (3600000 < now - t)%Z
  end.

(** A store where a time stamp of the prompt is already kept. *)
Definition prompted_store : storage :=
  <["lastLoginPromptTime"%string := js "1000"]> ∅.

(** A store whose counter is the empty string. *)
Definition empty_counter_store : storage := <["usageCount"%string := []]> ∅.

(** A value that is a string or [null]. *)
Definition is_plain (v : json) : bool :=
  match v with
  | JNull | JStr _ => true
  | _ => false
  end.

Definition member_text (kv : jsstring * json) : jsstring :=
  quote kv.1 ++ 58 :: stringify_json kv.2.

(** A field of a session: a string, [null], or not there. *)
Definition field_ok (v : option json) : Prop :=
  match v with
  | None => True
  | Some x => is_plain x = true
  end.

Definition session_shaped (u : UserData) : Prop :=
  field_ok (userId u) /\ field_ok (username u) /\ field_ok (token u) /\
  field_ok (googleId u) /\ field_ok (picture u) /\ field_ok (email u).

(** A session as [mockGoogleLogin] builds it, with a name outside ASCII,
    a quote and a line feed in the token, and no picture. *)
Definition sample_session : UserData :=
  {| userId := Some (JStr (js "mock-1700000000000"));
     username := Some (JStr [24352; 19977]);
     token := Some (JStr [109; 34; 10; 92; 55357]);
     googleId := Some (JStr (js "abc"));
     picture := Some JNull;
     email := None |}.

(** A store whose session record is the empty string. *)
Definition empty_record_store : storage := <["user"%string := []]> ∅.

Definition corrupt_record_store : storage := <["user"%string := js "{bad"]> ∅.

(** The selection rule as the specification words it, for comparison
    with [chosen_strategy]: the strategy named by the delimiter that
    stands before the first occurrence of the key. *)
Definition strategy_by_first_delimiter (url : jsstring) : option strategy :=
  match indexOf KEY url with
  | None => None
  | Some O => Some KeyScan
  | Some (S i) =>
      match url !! i with
      | Some c =>
          if c =? 63 then Some QueryString
          else if c =? 35 then Some HashFragment
          else if c =? 47 then Some SlashEmbedded
          else Some KeyScan
      | None => Some KeyScan
      end
  end.

(** A redirect whose fragment carries the parameters and, further on, a
    question mark before the key. *)
Definition fragment_first_url : jsstring :=
  Eval cbv in js "https://h/p#google_id=a&next=?google_id=b".

Definition query_then_fragment_url : jsstring :=
  Eval cbv in js "https://h/p?google_id=a&name=Bo#google_id=b".

(** A unit of parameter content that every branch passes on unchanged:
    kept by the allow-list of the slash branch and not a space. *)
Definition safe (c : N) : bool := allowed c && negb (c =? 32).

(** The delimiters, and the units that end the scan for the key. *)
Definition excluded : list N := 63 :: 35 :: 47 :: illegalChars.

(** The identity a parameter string holds: its fields, provided the
    [google_id] among them is not empty. *)
Definition content_identity (content : jsstring) : option Identity :=
  let i := read_identity (URLSearchParams content) in
  if truthy_str (id_googleId i) then Some i else None.

(** A redirect with a name written with [+] and a picture address. *)
Definition plus_content : jsstring :=
  Eval cbv in js "google_id=abc&name=Bo+Li&picture=https://x.y/a.png".

Definition base_url : jsstring := Eval cbv in js "https://h/p".

Definition plain_rest : jsstring := Eval cbv in js "abc&name=Bo".

(** A redirect landing on a host that is none of the designated ones. *)
Definition exchange_failed_url : Location :=
  {| href := js "https://example.com/page?google_id=abc&name=Bo";
     hostname := js "example.com" |}.


(** The name [emergencyLogin] shows: the name given, else the e-mail
    address, else a label. *)
Definition emergency_name (name mail : option jsstring) : jsstring :=
  if truthy_str name then or_str name []
  else if truthy_str mail then or_str mail []
  else label_Emergency_User.

(** A page of the development server. *)
Definition local_page : Page :=
  {| page_hostname := js "localhost";
     page_origin := js "http://localhost:8000";
     page_pathname := js "/index.html" |}.

(** A redirect to a designated host with the parameters in the query. *)
Definition local_query_url : Location :=
  {| href := js "http://localhost/page?google_id=abc&name=Bo";
     hostname := js "localhost" |}.

(** A text of ASCII. *)
Definition ascii_text (s : jsstring) : Prop := Forall (fun c => c < 128) s.

(** A text of units that [encodeURIComponent] leaves as they are: the
    letters and digits of ASCII and [- _ . ! ~ * ' ( )]. *)
Definition unreserved_text (s : jsstring) : Prop :=
  Forall (fun c => uri_unreserved c = true) s.

(** What [encodeURIComponent] writes for a unit of ASCII. *)
Definition escape_unit (c : N) : jsstring :=
  if uri_unreserved c then [c] else percent_byte c.

Definition k_url : jsstring := Eval cbv in js "url".
Definition k_redirect_uri : jsstring := Eval cbv in js "redirect_uri".

(** The login page up to its question mark. *)
Definition login_page_path : jsstring :=
  Eval cbv in js "https://aa.jstang.cn/google_login.php".

(** The note [handleGoogleLogin] keeps of a redirect. *)
Definition redirect_note (page : Page) (iso redirectUrl : jsstring) : json :=
  JObj [(k_timestamp, JStr iso);
        (k_domain, JStr (redirectDomain page));
        (k_callback, JStr (page_origin page ++ page_pathname page));
        (k_redirectUrl, JStr redirectUrl)].

Definition ERROR_QUERY : jsstring := Eval cbv in js "?error=".

(** The page of a site that is none of the designated hosts. *)
Definition site_page : Page :=
  {| page_hostname := js "example.com";
     page_origin := js "https://example.com";
     page_pathname := js "/page" |}.

(** A redirect that holds the key but no value for it. *)
Definition missing_id_url : Location :=
  {| href := js "https://example.com/page?google_id=&name=Bo";
     hostname := js "example.com" |}.

(** The built-ins on some inputs. *)
Example builtin_examples :
  parseInt (js "14") = Int 14 /\ parseInt (js "  -7px") = Int (-7) /\
  parseInt (js "0x1f") = Int 31 /\ parseInt (js "abc") = NaN /\
  parseInt (js "") = NaN /\ parseInt (js "NaN") = NaN /\
  Number_toString (Int 1700000000000) = js "1700000000000" /\
  Number_toString (Int (-12)) = js "-12" /\ Number_toString (Int 0) = js "0" /\
  split (js "#") (js "a#b#c") = [js "a"; js "b"; js "c"] /\
  split (js "/google_id=") (js "h/p/google_id=1&n=2") = [js "h/p"; js "1&n=2"] /\
  String_trim (js "  a b ") = js "a b".
Proof. vm_compute. repeat split. Qed.

(** * Properties *)

(** Linear arithmetic with quotients and remainders taken as atoms. *)
Ltac nlia :=
  repeat match goal with
  | |- context [N.modulo ?a ?b] => generalize dependent (N.modulo a b); intros
  | |- context [N.div ?a ?b] => generalize dependent (N.div a b); intros
  | H : context [N.modulo ?a ?b] |- _ =>
      generalize dependent (N.modulo a b); intros
  | H : context [N.div ?a ?b] |- _ => generalize dependent (N.div a b); intros
  end; lia.

(** ** Numbers and their decimal text *)

Lemma digit_value_dec (d : N) : d < 10 -> digit_value 10 (48 + d) = Some d.
Proof.
  intros Hd. unfold digit_value, hex_value, is_digit.
  replace (48 <=? 48 + d) with true by (symmetry; apply N.leb_le; lia).
  replace (48 + d <=? 57) with true by (symmetry; apply N.leb_le; lia).
  simpl. replace (48 + d - 48) with d by lia.
  apply N.ltb_lt in Hd. now rewrite Hd.
Qed.

Lemma dec_digits_S (f : nat) (n : N) (acc : jsstring) :
  dec_digits (S f) n acc =
  if n <? 10 then (48 + n mod 10) :: acc
  else dec_digits f (n / 10) ((48 + n mod 10) :: acc).
Proof. reflexivity. Qed.

Lemma digits_prefix_dec (f : nat) : forall (n : N) (acc : jsstring) (seen : bool),
  n < 2 ^ N.of_nat (S f) ->
  digits_prefix 10 (dec_digits (S f) n acc) 0 seen = digits_prefix 10 acc n true.
Proof.
  induction f as [|f IH]; intros n acc seen Hn.
  - assert (n < 10) by (change (2 ^ N.of_nat 1) with 2 in Hn; lia).
    simpl. apply N.ltb_lt in H as Hlt. rewrite Hlt.
    simpl. rewrite digit_value_dec by (apply N.mod_lt; lia).
    rewrite N.mod_small by assumption. reflexivity.
  - rewrite dec_digits_S. destruct (N.ltb_spec n 10) as [Hlt|Hge].
    + cbn [digits_prefix]. rewrite digit_value_dec by (apply N.mod_lt; lia).
      rewrite N.mod_small by assumption. reflexivity.
    + rewrite IH.
      * cbn [digits_prefix]. rewrite digit_value_dec by (apply N.mod_lt; lia).
        f_equal. pose proof (N.div_mod n 10 ltac:(lia)). nlia.
      * rewrite Nat2N.inj_succ, N.pow_succ_r' in Hn.
        apply N.Div0.div_lt_upper_bound. lia.
Qed.

Lemma dec_digits_head (f : nat) : forall (n : N) (acc : jsstring),
  exists c rest, dec_digits (S f) n acc = c :: rest /\ is_digit c = true /\
    (rest = [] \/ exists c' rest', rest = c' :: rest' /\
        (is_digit c' = true \/ c' :: rest' = acc)).
Proof.
  assert (Hd : forall n, is_digit (48 + n mod 10) = true).
  { intros n. pose proof (N.mod_lt n 10 ltac:(lia)). unfold is_digit.
    apply andb_true_iff. split; apply N.leb_le; nlia. }
  induction f as [|f IH]; intros n acc.
  - exists (48 + n mod 10), acc. simpl. destruct (n <? 10); (split; [reflexivity|]);
      (split; [apply Hd|]); destruct acc; eauto 6.
  - rewrite dec_digits_S. destruct (n <? 10).
    + exists (48 + n mod 10), acc. split; [reflexivity|]. split; [apply Hd|].
      destruct acc; eauto 6.
    + destruct (IH (n / 10) ((48 + n mod 10) :: acc)) as (c & rest & -> & Hc & Hrest).
      exists c, rest. split; [reflexivity|]. split; [assumption|].
      destruct Hrest as [->|(c' & rest' & -> & [H|H])]; [now left|right..].
      * exists c', rest'. auto.
      * exists c', rest'. split; [reflexivity|]. left. injection H as -> _. apply Hd.
Qed.

(** The text of a natural number starts with a digit and, when longer,
    goes on with one. *)
Lemma N_toString_head (n : N) :
  exists c rest, N_toString n = c :: rest /\ is_digit c = true /\
    (rest = [] \/ exists c' rest', rest = c' :: rest' /\ is_digit c' = true).
Proof.
  unfold N_toString.
  destruct (dec_digits_head (N.to_nat (N.log2 n)) n []) as (c & rest & E & Hc & Hr).
  exists c, rest. split; [assumption|]. split; [assumption|].
  destruct Hr as [->|(c' & rest' & -> & [H|H])]; [now left|right|discriminate].
  exists c', rest'. auto.
Qed.

Lemma N_toString_value (n : N) (seen : bool) :
  digits_prefix 10 (N_toString n) 0 seen = (n, true).
Proof.
  unfold N_toString. rewrite digits_prefix_dec; [reflexivity|].
  rewrite Nat2N.inj_succ, N2Nat.id. destruct n as [|p]; [reflexivity|].
  pose proof (N.log2_spec (N.pos p) ltac:(lia)). lia.
Qed.

Lemma is_digit_facts (c : N) :
  is_digit c = true ->
  is_space c = false /\ (c =? 45) = false /\ (c =? 43) = false /\
  (c =? 120) = false /\ (c =? 88) = false.
Proof.
  unfold is_digit, is_space. intros H. apply andb_true_iff in H as [H1 H2].
  apply N.leb_le in H1. apply N.leb_le in H2.
  repeat split;
    repeat match goal with
    | |- orb _ _ = false => apply orb_false_iff; split
    | |- andb _ _ = false => apply andb_false_iff; left
    | |- (_ =? _) = false => apply N.eqb_neq; lia
    | |- (_ <=? _) = false => apply N.leb_gt; lia
    end.
Qed.

Lemma parseInt_N_toString (n : N) : parseInt (N_toString n) = Int (Z.of_N n).
Proof.
  destruct (N_toString_head n) as (c & rest & E & Hc & Hr).
  pose proof (N_toString_value n false) as Hv. rewrite E in Hv.
  unfold parseInt. rewrite E.
  destruct (is_digit_facts c Hc) as (Hs & H45 & H43 & _).
  cbn [trimStart]. rewrite Hs, H45, H43. cbn [orb].
  destruct Hr as [->|(c' & rest' & -> & Hc')].
  - cbn beta iota. rewrite Hv. reflexivity.
  - destruct (is_digit_facts c' Hc') as (_ & _ & _ & H120 & H88).
    rewrite H120, H88. cbn [orb]. rewrite andb_false_r.
    cbn beta iota. rewrite Hv. reflexivity.
Qed.

(** Reading back the text of an integer gives the integer. *)
Lemma parseInt_toString (z : Z) : parseInt (Number_toString (Int z)) = Int z.
Proof.
  unfold Number_toString. destruct (Z.ltb_spec z 0) as [Hneg|Hpos].
  - destruct (N_toString_head (Z.abs_N z)) as (c & rest & E & Hc & Hr).
    pose proof (N_toString_value (Z.abs_N z) false) as Hv. rewrite E in Hv.
    unfold parseInt. rewrite E. cbn [trimStart is_space N.eqb Pos.eqb orb].
    change (is_space 45) with false. cbn beta iota.
    change (45 =? 45) with true. cbn [orb].
    destruct Hr as [->|(c' & rest' & -> & Hc')].
    + cbn beta iota. rewrite Hv. f_equal. lia.
    + destruct (is_digit_facts c' Hc') as (_ & _ & _ & H120 & H88).
      rewrite H120, H88. cbn [orb]. rewrite andb_false_r.
      cbn beta iota. rewrite Hv. f_equal. lia.
  - rewrite parseInt_N_toString. f_equal. lia.
Qed.

Lemma Number_toString_nonempty (x : number) : exists c s, Number_toString x = c :: s.
Proof.
  destruct x as [|z]; [now eexists _, _|]. unfold Number_toString.
  destruct (z <? 0)%Z; [now eexists _, _|].
  destruct (N_toString_head (Z.abs_N z)) as (c & rest & E & _). eauto.
Qed.

(** ** Usage throttle *)

Lemma or_str_toString (x : number) (d : jsstring) :
  or_str (Some (Number_toString x)) d = Number_toString x.
Proof. destruct (Number_toString_nonempty x) as (c & s & ->). reflexivity. Qed.

Lemma truthy_toString (x : number) : truthy_str (Some (Number_toString x)) = true.
Proof. destruct (Number_toString_nonempty x) as (c & s & ->). reflexivity. Qed.

Lemma isLoggedIn_insert (k : string) (v : jsstring) (ls : storage) :
  k <> "user"%string -> isLoggedIn (<[k := v]> ls) = isLoggedIn ls.
Proof. intros Hk. unfold isLoggedIn. now rewrite lookup_insert_ne. Qed.

Lemma showLoginPrompt_open (now : Z) (ls : storage) :
  cooldown_over ls now ->
  showLoginPrompt now ls =
  (ShowPrompt, <["lastLoginPromptTime"%string := Number_toString (Int now)]> ls).
Proof.
  unfold cooldown_over, showLoginPrompt.
  destruct (ls !! "lastLoginPromptTime"%string) as [s|]; [|reflexivity].
  intros [->|(t & Ht & Hlt)]; [reflexivity|].
  destruct s as [|c s]; [reflexivity|]. cbn [truthy_str negb orb or_str].
  rewrite Ht. cbn [number_sub number_gt].
  apply Z.ltb_lt in Hlt. now rewrite Hlt.
Qed.

Lemma showLoginPrompt_closed (now t : Z) (ls : storage) :
  ls !! "lastLoginPromptTime"%string = Some (Number_toString (Int t)) ->
  (now - t <= 3600000)%Z ->
  showLoginPrompt now ls = (NoPrompt, ls).
Proof.
  intros Hl Hle. unfold showLoginPrompt. rewrite Hl, truthy_toString, or_str_toString.
  rewrite parseInt_toString. cbn [negb orb number_sub number_gt].
  apply Z.ltb_ge in Hle. now rewrite Hle.
Qed.

(** One anonymous use with the counter reading [n]. *)
Lemma incrementUsageCount_anonymous (now n : Z) (ls : storage) :
  isLoggedIn ls = false ->
  parseInt (or_str (ls !! "usageCount"%string) zero_text) = Int n ->
  incrementUsageCount now ls =
  let ls' := <["usageCount"%string := Number_toString (Int (n + 1))]> ls in
  if (15 <=? n + 1)%Z then showLoginPrompt now ls' else (NoPrompt, ls').
Proof.
  intros Hanon Hread. unfold incrementUsageCount. rewrite Hanon, Hread. reflexivity.
Qed.

Lemma counter_after_insert (n : Z) (ls : storage) :
  parseInt (or_str (<["usageCount"%string := Number_toString (Int n)]> ls
                      !! "usageCount"%string) zero_text) = Int n.
Proof. rewrite lookup_insert_eq, or_str_toString. apply parseInt_toString. Qed.

(** Uses below the threshold: no prompt, the counter goes up by one each. *)
Lemma recordUses_below (times : list Z) : forall (now n : Z) (ls : storage),
  isLoggedIn ls = false ->
  parseInt (or_str (ls !! "usageCount"%string) zero_text) = Int n ->
  (n + 1 + Z.of_nat (length times) < 15)%Z ->
  recordUses (now :: times) ls =
  (replicate (S (length times)) NoPrompt,
   <["usageCount"%string :=
       Number_toString (Int (n + 1 + Z.of_nat (length times)))]> ls).
Proof.
  induction times as [|t times IH]; intros now n ls Hanon Hread Hlt.
  - cbn [recordUses]. rewrite (incrementUsageCount_anonymous now n) by assumption.
    cbn zeta. cbn [length Z.of_nat] in *.
    destruct (Z.leb_spec 15 (n + 1)); [lia|]. now rewrite Z.add_0_r.
  - cbn [length] in Hlt. rewrite Nat2Z.inj_succ in Hlt.
    change (recordUses (now :: t :: times) ls) with
      (let '(d, ls') := incrementUsageCount now ls in
       let '(ds, ls'') := recordUses (t :: times) ls' in (d :: ds, ls'')).
    rewrite (incrementUsageCount_anonymous now n) by assumption. cbn zeta.
    destruct (Z.leb_spec 15 (n + 1)); [lia|].
    rewrite (IH t (n + 1)%Z).
    + rewrite insert_insert_eq. cbn [length replicate]. rewrite Nat2Z.inj_succ.
      do 2 f_equal. f_equal. f_equal. lia.
    + now rewrite isLoggedIn_insert.
    + apply counter_after_insert.
    + lia.
Qed.

Lemma recordUses_app (a b : list Z) : forall ls : storage,
  recordUses (a ++ b) ls =
  let '(d1, l1) := recordUses a ls in
  let '(d2, l2) := recordUses b l1 in (d1 ++ d2, l2).
Proof.
  induction a as [|t a IH]; intros ls.
  - cbn [app recordUses]. now destruct (recordUses b ls).
  - cbn [app recordUses]. destruct (incrementUsageCount t ls) as [d l].
    rewrite IH. destruct (recordUses a l) as [d1 l1].
    now destruct (recordUses b l1).
Qed.

(** Uses at or above the threshold while the cooldown runs: no prompt,
    the counter still goes up, the time stamp stays. *)
Lemma recordUses_cooling (times : list Z) : forall (n t0 : Z) (ls : storage),
  isLoggedIn ls = false ->
  ls !! "usageCount"%string = Some (Number_toString (Int n)) ->
  (14 <= n)%Z ->
  ls !! "lastLoginPromptTime"%string = Some (Number_toString (Int t0)) ->
  Forall (fun t => t - t0 <= 3600000)%Z times ->
  exists ls',
    recordUses times ls = (replicate (length times) NoPrompt, ls') /\
    isLoggedIn ls' = false /\
    ls' !! "usageCount"%string =
      Some (Number_toString (Int (n + Z.of_nat (length times)))) /\
    ls' !! "lastLoginPromptTime"%string = Some (Number_toString (Int t0)).
Proof.
  induction times as [|t times IH]; intros n t0 ls Hanon Hc Hn Hl Hall.
  - exists ls. cbn [length Z.of_nat]. rewrite Z.add_0_r. auto.
  - apply Forall_cons in Hall as [Ht Hall]. cbn [recordUses].
    rewrite (incrementUsageCount_anonymous t n); [|assumption|].
    2:{ rewrite Hc, or_str_toString. apply parseInt_toString. }
    cbn zeta. destruct (Z.leb_spec 15 (n + 1)); [|lia].
    rewrite (showLoginPrompt_closed t t0); [|now rewrite lookup_insert_ne|assumption].
    destruct (IH (n + 1)%Z t0
                (<["usageCount"%string := Number_toString (Int (n + 1))]> ls))
      as (ls' & -> & Ha & Hc' & Hl'); try assumption.
    + now rewrite isLoggedIn_insert.
    + apply lookup_insert_eq.
    + lia.
    + now rewrite lookup_insert_ne.
    + exists ls'. cbn [length replicate]. rewrite Nat2Z.inj_succ.
      repeat split; try assumption. rewrite Hc'. do 3 f_equal. lia.
Qed.

(** C2, as stated, fails: with no session and no counter stored, but the
    prompt shown one second before, the fifteenth use in a row returns
    "no prompt". *)
Lemma fifteenth_use_silent_in_cooldown :
  isLoggedIn prompted_store = false /\
  prompted_store !! "usageCount"%string = None /\
  (recordUses (replicate 15 2000%Z) prompted_store).1 = replicate 15 NoPrompt.
Proof. vm_compute. auto. Qed.

(** C2, amended: with no session, no counter stored, and the cooldown
    over at the fifteenth use (no time stamp stored, or one more than
    3600 seconds old), fourteen uses return "no prompt"; the fifteenth
    returns "show prompt" and stores its time as the time stamp; every
    further use within 3600 seconds of that time returns "no prompt"; a
    use more than 3600 seconds after it returns "show prompt" again and
    renews the time stamp. The counter goes on counting throughout. *)
Theorem recordUse_threshold_and_cooldown
    (ls : storage) (early within : list Z) (t15 late : Z) :
  isLoggedIn ls = false ->
  ls !! "usageCount"%string = None ->
  cooldown_over ls t15 ->
  length early = 14%nat ->
  Forall (fun t => t - t15 <= 3600000)%Z within ->
  (3600000 < late - t15)%Z ->
  exists ls15 ls16 ls17 : storage,
    recordUses (early ++ [t15]) ls = (replicate 14 NoPrompt ++ [ShowPrompt], ls15) /\
    ls15 !! "lastLoginPromptTime"%string = Some (Number_toString (Int t15)) /\
    ls15 !! "usageCount"%string = Some (js "15") /\
    recordUses within ls15 = (replicate (length within) NoPrompt, ls16) /\
    ls16 !! "usageCount"%string =
      Some (Number_toString (Int (15 + Z.of_nat (length within)))) /\
    incrementUsageCount late ls16 = (ShowPrompt, ls17) /\
    ls17 !! "lastLoginPromptTime"%string = Some (Number_toString (Int late)) /\
    ls17 !! "usageCount"%string =
      Some (Number_toString (Int (16 + Z.of_nat (length within)))).
Proof.
  intros Hanon Hnone Hcool Hlen Hwithin Hlate.
  destruct early as [|t1 rest]; [discriminate|].
  assert (Hrest : length rest = 13%nat) by (cbn in Hlen; lia).
  set (ls14 := <["usageCount"%string := Number_toString (Int 14)]> ls).
  set (ls15 := <["lastLoginPromptTime"%string := Number_toString (Int t15)]>
                 (<["usageCount"%string := Number_toString (Int 15)]> ls14)).
  assert (H14 : recordUses (t1 :: rest) ls = (replicate 14 NoPrompt, ls14)).
  { rewrite (recordUses_below rest t1 0).
    - now rewrite Hrest.
    - assumption.
    - now rewrite Hnone.
    - rewrite Hrest. lia. }
  assert (H15 : incrementUsageCount t15 ls14 = (ShowPrompt, ls15)).
  { rewrite (incrementUsageCount_anonymous t15 14).
    - cbn zeta. change (15 <=? 14 + 1)%Z with true. cbn iota.
      apply showLoginPrompt_open. unfold cooldown_over, ls14.
      now rewrite !lookup_insert_ne.
    - unfold ls14. now rewrite isLoggedIn_insert.
    - apply counter_after_insert. }
  destruct (recordUses_cooling within 15 t15 ls15) as (ls16 & H16 & Ha16 & Hc16 & Hl16);
    try assumption; try lia.
  { unfold ls15, ls14. now rewrite !isLoggedIn_insert. }
  { unfold ls15. rewrite lookup_insert_ne by done. apply lookup_insert_eq. }
  { apply lookup_insert_eq. }
  exists ls15, ls16,
    (<["lastLoginPromptTime"%string := Number_toString (Int late)]>
       (<["usageCount"%string :=
            Number_toString (Int (15 + Z.of_nat (length within) + 1))]> ls16)).
  split.
  { change ((t1 :: rest) ++ [t15]) with (t1 :: (rest ++ [t15])).
    change (t1 :: (rest ++ [t15])) with ((t1 :: rest) ++ [t15]).
    rewrite recordUses_app, H14. cbn [recordUses]. now rewrite H15. }
  split; [apply lookup_insert_eq|].
  split; [unfold ls15; rewrite lookup_insert_ne by done; apply lookup_insert_eq|].
  split; [assumption|]. split; [assumption|].
  split.
  { rewrite (incrementUsageCount_anonymous late (15 + Z.of_nat (length within)));
      [|assumption|].
    2:{ rewrite Hc16, or_str_toString. apply parseInt_toString. }
    cbn zeta. destruct (Z.leb_spec 15 (15 + Z.of_nat (length within) + 1)); [|lia].
    apply showLoginPrompt_open. unfold cooldown_over.
    rewrite lookup_insert_ne by done. rewrite Hl16. right. exists t15.
    split; [apply parseInt_toString | assumption]. }
  split; [apply lookup_insert_eq|].
  rewrite lookup_insert_ne by done. rewrite lookup_insert_eq.
  do 3 f_equal. lia.
Qed.

Lemma recordUse_threshold_and_cooldown_witness :
  exists ls15 ls16 ls17 : storage,
    recordUses (replicate 14 1000%Z ++ [2000%Z]) ∅ =
      (replicate 14 NoPrompt ++ [ShowPrompt], ls15) /\
    ls15 !! "lastLoginPromptTime"%string = Some (Number_toString (Int 2000)) /\
    ls15 !! "usageCount"%string = Some (js "15") /\
    recordUses [3000%Z] ls15 = (replicate 1 NoPrompt, ls16) /\
    ls16 !! "usageCount"%string = Some (Number_toString (Int (15 + 1))) /\
    incrementUsageCount 3602001 ls16 = (ShowPrompt, ls17) /\
    ls17 !! "lastLoginPromptTime"%string = Some (Number_toString (Int 3602001)) /\
    ls17 !! "usageCount"%string = Some (Number_toString (Int (16 + 1))).
Proof.
  apply (recordUse_threshold_and_cooldown ∅ (replicate 14 1000%Z) [3000%Z]
           2000 3602001).
  - reflexivity.
  - reflexivity.
  - exact I.
  - reflexivity.
  - repeat constructor. lia.
  - lia.
Defined.

(** C10, as stated, fails on the empty string: its integer parse fails,
    yet the use is counted from zero and ["1"] is stored. *)
Lemma empty_counter_counts_from_zero :
  isLoggedIn empty_counter_store = false /\
  empty_counter_store !! "usageCount"%string = Some [] /\
  parseInt [] = NaN /\
  incrementUsageCount 0 empty_counter_store =
    (NoPrompt, <["usageCount"%string := js "1"]> ∅).
Proof. vm_compute. auto. Qed.

Lemma incrementUsageCount_corrupt (now : Z) (s : jsstring) (ls : storage) :
  isLoggedIn ls = false ->
  ls !! "usageCount"%string = Some s -> s <> [] -> parseInt s = NaN ->
  incrementUsageCount now ls = (NoPrompt, <["usageCount"%string := NaN_text]> ls).
Proof.
  intros Hanon Hs Hne Hnan. unfold incrementUsageCount. rewrite Hanon, Hs.
  destruct s as [|c s]; [congruence|]. cbn [or_str]. now rewrite Hnan.
Qed.

(** C10, amended: with no session and a stored counter that is a
    non-empty string whose integer parse fails, a use stores the text
    ["NaN"] as the counter and returns "no prompt"; every later anonymous
    use leaves the counter at ["NaN"] and returns "no prompt". The
    corrupt counter is neither deleted nor repaired. *)
Theorem corrupt_counter_stays_NaN
    (ls : storage) (s : jsstring) (now : Z) (later : list Z) :
  isLoggedIn ls = false ->
  ls !! "usageCount"%string = Some s -> s <> [] -> parseInt s = NaN ->
  incrementUsageCount now ls = (NoPrompt, <["usageCount"%string := NaN_text]> ls) /\
  recordUses later (<["usageCount"%string := NaN_text]> ls) =
    (replicate (length later) NoPrompt, <["usageCount"%string := NaN_text]> ls) /\
  <["usageCount"%string := NaN_text]> ls !! "usageCount"%string = Some (js "NaN").
Proof.
  intros Hanon Hs Hne Hnan.
  split; [now apply (incrementUsageCount_corrupt now s)|].
  split; [|apply lookup_insert_eq].
  induction later as [|t later IH]; [reflexivity|].
  cbn [recordUses length replicate].
  rewrite (incrementUsageCount_corrupt t NaN_text).
  - rewrite insert_insert_eq, IH. reflexivity.
  - now rewrite isLoggedIn_insert.
  - apply lookup_insert_eq.
  - discriminate.
  - reflexivity.
Qed.

Lemma corrupt_counter_stays_NaN_witness :
  let ls : storage := <["usageCount"%string := js "abc"]> ∅ in
  incrementUsageCount 5 ls = (NoPrompt, <["usageCount"%string := NaN_text]> ls) /\
  recordUses [6; 7; 8]%Z (<["usageCount"%string := NaN_text]> ls) =
    (replicate 3 NoPrompt, <["usageCount"%string := NaN_text]> ls) /\
  <["usageCount"%string := NaN_text]> ls !! "usageCount"%string = Some (js "NaN").
Proof.
  apply (corrupt_counter_stays_NaN (<["usageCount"%string := js "abc"]> ∅)
           (js "abc") 5 [6; 7; 8]%Z).
  - reflexivity.
  - reflexivity.
  - discriminate.
  - reflexivity.
Defined.

(** ** JSON: writing a string and reading it back *)

Ltac cmp :=
  repeat (match goal with
          | |- context [N.leb ?a ?b] => destruct (N.leb_spec a b)
          | |- context [N.ltb ?a ?b] => destruct (N.ltb_spec a b)
          | |- context [N.eqb ?a ?b] => destruct (N.eqb_spec a b)
          end; cbn [andb orb negb]);
  try reflexivity; try nlia; try (f_equal; nlia).

Lemma hex_value_lower (d : N) : d < 16 -> hex_value (hex_lower d) = Some d.
Proof.
  intros Hd. unfold hex_value, hex_lower, is_digit.
  destruct (N.ltb_spec d 10); cmp.
Qed.

Lemma hex4_unicode_escape (c : N) :
  c < 65536 ->
  hex4 (hex_lower (c / 4096 mod 16)) (hex_lower (c / 256 mod 16))
       (hex_lower (c / 16 mod 16)) (hex_lower (c mod 16)) = Some c.
Proof.
  intros Hc. unfold hex4.
  rewrite !hex_value_lower by (apply N.mod_lt; lia). f_equal.
  pose proof (N.div_mod c 16 ltac:(lia)) as H1.
  pose proof (N.div_mod (c / 16) 16 ltac:(lia)) as H2.
  pose proof (N.div_mod (c / 256) 16 ltac:(lia)) as H3.
  rewrite (N.Div0.div_div c 16 16) in H2. rewrite (N.Div0.div_div c 256 16) in H3.
  change (16 * 16) with 256 in *. change (256 * 16) with 4096 in *.
  assert (c / 4096 < 16) by (apply N.Div0.div_lt_upper_bound; lia).
  rewrite (N.mod_small (c / 4096) 16) by assumption. nlia.
Qed.

Lemma parse_string_body_plain (c : N) (r acc : jsstring) :
  c <> 34 -> c <> 92 -> 32 <= c ->
  parse_string_body (c :: r) acc = parse_string_body r (c :: acc).
Proof. intros H1 H2 H3. cbn [parse_string_body]. cmp. Qed.

Lemma parse_string_body_unicode (u h1 h2 h3 h4 : N) (r acc : jsstring) :
  hex4 h1 h2 h3 h4 = Some u ->
  parse_string_body (92 :: 117 :: h1 :: h2 :: h3 :: h4 :: r) acc =
  parse_string_body r (u :: acc).
Proof. intros H. cbn [parse_string_body N.eqb Pos.eqb]. now rewrite H. Qed.

Lemma parse_unicode_escape (c : N) (r acc : jsstring) :
  c < 65536 ->
  parse_string_body (unicode_escape c ++ r) acc = parse_string_body r (c :: acc).
Proof.
  intros Hc. unfold unicode_escape. cbn [app].
  apply parse_string_body_unicode, hex4_unicode_escape, Hc.
Qed.

Lemma parse_quote_unit (c : N) (r acc : jsstring) :
  is_high_surrogate c = false ->
  parse_string_body (quote_unit c ++ r) acc = parse_string_body r (c :: acc).
Proof.
  intros Hh. unfold quote_unit.
  destruct (N.eqb_spec c 8) as [->|]; [reflexivity|].
  destruct (N.eqb_spec c 9) as [->|]; [reflexivity|].
  destruct (N.eqb_spec c 10) as [->|]; [reflexivity|].
  destruct (N.eqb_spec c 12) as [->|]; [reflexivity|].
  destruct (N.eqb_spec c 13) as [->|]; [reflexivity|].
  destruct (N.eqb_spec c 34) as [->|]; [reflexivity|].
  destruct (N.eqb_spec c 92) as [->|]; [reflexivity|].
  destruct ((c <? 32) || is_low_surrogate c) eqn:E.
  - apply parse_unicode_escape. apply orb_true_iff in E as [E|E].
    + apply N.ltb_lt in E. lia.
    + unfold is_low_surrogate in E. apply andb_true_iff in E as [_ E].
      apply N.leb_le in E. lia.
  - apply orb_false_iff in E as [E _]. apply N.ltb_ge in E.
    now apply parse_string_body_plain.
Qed.

Lemma surrogate_plain (c : N) :
  is_high_surrogate c = true \/ is_low_surrogate c = true ->
  c <> 34 /\ c <> 92 /\ 32 <= c /\ c < 65536.
Proof.
  unfold is_high_surrogate, is_low_surrogate.
  intros [H|H]; apply andb_true_iff in H as [H1 H2];
    apply N.leb_le in H1; apply N.leb_le in H2; lia.
Qed.

Lemma parse_quote_body_bounded (n : nat) : forall s acc rest : jsstring,
  (length s <= n)%nat ->
  parse_string_body (quote_body s ++ 34 :: rest) acc = Some (rev acc ++ s, rest).
Proof.
  induction n as [|n IH]; intros s acc rest Hlen.
  - destruct s; [|cbn in Hlen; lia]. cbn. now rewrite app_nil_r.
  - destruct s as [|c s]; [cbn; now rewrite app_nil_r|].
    cbn [length] in Hlen. cbn [quote_body].
    assert (Hstep : forall t : jsstring, rev (c :: acc) ++ t = rev acc ++ c :: t)
      by (intros t; cbn [rev]; now rewrite <- app_assoc).
    destruct (is_high_surrogate c) eqn:Hh.
    + destruct (surrogate_plain c (or_introl Hh)) as (c1 & c2 & c3 & c4).
      destruct s as [|d s].
      * rewrite parse_unicode_escape by assumption. reflexivity.
      * destruct (is_low_surrogate d) eqn:Hl.
        -- destruct (surrogate_plain d (or_intror Hl)) as (d1 & d2 & d3 & _).
           cbn [app]. rewrite !parse_string_body_plain by assumption.
           rewrite IH by (cbn [length] in Hlen; lia).
           cbn [rev]. now rewrite <- !app_assoc.
        -- rewrite <- app_assoc, parse_unicode_escape by assumption.
           rewrite IH by lia. now rewrite Hstep.
    + rewrite <- app_assoc, parse_quote_unit by assumption.
      rewrite IH by lia. now rewrite Hstep.
Qed.

(** Reading a written string gives the string, whatever its code units. *)
Lemma parse_quote (s rest : jsstring) :
  parse_string_body (quote_body s ++ 34 :: rest) [] = Some (s, rest).
Proof. apply (parse_quote_body_bounded (length s)). lia. Qed.

(** ** JSON: writing an object of strings and reading it back *)

Lemma parse_value_plain (f : nat) (v : json) (rest : jsstring) :
  is_plain v = true ->
  parse_value (S f) (stringify_json v ++ rest) = Some (v, rest).
Proof.
  destruct v as [| | |s| |]; try discriminate; intros _.
  - reflexivity.
  - cbn [stringify_json quote app]. rewrite <- app_assoc. cbn [app].
    cbn [parse_value skip_ws N.eqb Pos.eqb orb]. now rewrite parse_quote.
Qed.

Lemma parse_members_more (f : nat) (k r r2 r4 : jsstring) (v : json)
    (acc : list (jsstring * json)) :
  parse_string_body r [] = Some (k, 58 :: r2) ->
  parse_value f r2 = Some (v, 44 :: r4) ->
  parse_members (S f) (34 :: r) acc = parse_members f r4 ((k, v) :: acc).
Proof.
  intros H1 H2. cbn [parse_members skip_ws N.eqb Pos.eqb orb].
  rewrite H1. cbn [skip_ws N.eqb Pos.eqb orb]. now rewrite H2.
Qed.

Lemma parse_members_last (f : nat) (k r r2 r4 : jsstring) (v : json)
    (acc : list (jsstring * json)) :
  parse_string_body r [] = Some (k, 58 :: r2) ->
  parse_value f r2 = Some (v, 125 :: r4) ->
  parse_members (S f) (34 :: r) acc = Some (JObj (rev ((k, v) :: acc)), r4).
Proof.
  intros H1 H2. cbn [parse_members skip_ws N.eqb Pos.eqb orb].
  rewrite H1. cbn [skip_ws N.eqb Pos.eqb orb]. now rewrite H2.
Qed.

Lemma member_text_shape (kv : jsstring * json) (tail : jsstring) :
  member_text kv ++ tail =
  34 :: (quote_body kv.1 ++ 34 :: 58 :: (stringify_json kv.2 ++ tail)).
Proof.
  unfold member_text, quote. cbn [app]. rewrite <- !app_assoc. reflexivity.
Qed.

Lemma parse_members_plain (l : list (jsstring * json)) :
  forall (kv : jsstring * json) (f : nat) (acc : list (jsstring * json))
         (rest : jsstring),
  Forall (fun kv => is_plain kv.2 = true) (kv :: l) ->
  (length l < f)%nat ->
  parse_members (S f) (join 44 (map member_text (kv :: l)) ++ 125 :: rest) acc =
  Some (JObj (rev acc ++ kv :: l), rest).
Proof.
  induction l as [|kv' l IH]; intros [k v] f acc rest Hplain Hf;
    apply Forall_cons in Hplain as [Hv Hplain]; cbn [snd] in Hv;
    (destruct f as [|f]; [cbn [length] in Hf; lia|]).
  - cbn [map join]. rewrite member_text_shape. cbn [fst snd].
    erewrite parse_members_last; cycle 1.
    { apply parse_quote. }
    { now apply parse_value_plain. }
    reflexivity.
  - change (join 44 (map member_text ((k, v) :: kv' :: l)))
      with (member_text (k, v) ++ 44 :: join 44 (map member_text (kv' :: l))).
    rewrite <- app_assoc, member_text_shape. cbn [fst snd app].
    erewrite parse_members_more; cycle 1.
    { apply parse_quote. }
    { now apply parse_value_plain. }
    rewrite IH by (try assumption; cbn [length] in Hf; lia).
    cbn [rev]. now rewrite <- app_assoc.
Qed.

Lemma join_length (sep : N) (l : list jsstring) :
  Forall (fun x => (1 <= length x)%nat) l -> (length l <= length (join sep l))%nat.
Proof.
  induction l as [|x l IH]; intros H; [cbn; lia|].
  apply Forall_cons in H as [Hx Hl]. specialize (IH Hl).
  destruct l as [|y l]; [cbn [join length]; lia|].
  change (join sep (x :: y :: l)) with (x ++ sep :: join sep (y :: l)).
  rewrite length_app. cbn [length] in *. lia.
Qed.

(** [JSON.parse] undoes [JSON.stringify] on an object whose members are
    strings or [null]. *)
Lemma JSON_parse_stringify_object (l : list (jsstring * json)) :
  Forall (fun kv => is_plain kv.2 = true) l ->
  JSON_parse (stringify_json (JObj l)) = Some (JObj l).
Proof.
  intros Hplain. destruct l as [|kv l]; [reflexivity|].
  unfold JSON_parse. cbn [stringify_json].
  assert (Hlen : (length (kv :: l) <=
                  length (join 44 (map member_text (kv :: l))))%nat).
  { rewrite <- (length_map member_text (kv :: l)).
    apply join_length, Forall_map, Forall_forall. intros x _.
    unfold member_text, quote. cbn [app length]. lia. }
  fold member_text.
  change (map (fun kv0 => quote kv0.1 ++ 58 :: stringify_json kv0.2) (kv :: l))
    with (map member_text (kv :: l)).
  set (body := join 44 (map member_text (kv :: l))) in *.
  assert (Hb : exists b, body = 34 :: b).
  { unfold body. destruct l; cbn [map join]; unfold member_text, quote;
      cbn [app]; eauto. }
  destruct Hb as [b Hb].
  assert (Hfuel : exists f, length (body ++ [125]) = S f /\ (length l < f)%nat).
  { exists (length body). rewrite length_app. cbn [length] in *. split; lia. }
  destruct Hfuel as (f & Hf1 & Hf2).
  cbn [length]. rewrite Hf1.
  assert (Hstart : parse_value (S (S (S f))) (123 :: body ++ [125]) =
                   parse_members (S (S f)) (body ++ [125]) []).
  { rewrite Hb. reflexivity. }
  rewrite Hstart. unfold body.
  rewrite (parse_members_plain l kv (S f) [] []) by (try assumption; lia).
  reflexivity.
Qed.

(** ** JSON: the fuel of the parser never runs out *)

Lemma skip_ws_length (s : jsstring) : (length (skip_ws s) <= length s)%nat.
Proof.
  induction s as [|c s IH]; [reflexivity|]. cbn [skip_ws].
  destruct ((c =? 9) || (c =? 10) || (c =? 13) || (c =? 32)); cbn [length]; lia.
Qed.

Lemma skip_ws_cons (s r : jsstring) (c : N) :
  skip_ws s = c :: r -> (length r < length s)%nat.
Proof.
  intros H. pose proof (skip_ws_length s) as L. rewrite H in L.
  cbn [length] in L. lia.
Qed.

Lemma parse_string_body_shorter (n : nat) :
  forall (s acc x r : jsstring),
  (length s <= n)%nat -> parse_string_body s acc = Some (x, r) ->
  (length r < length s)%nat.
Proof.
  induction n as [|n IH]; intros s acc x r Hn H;
    (destruct s as [|c s]; [discriminate|]); cbn [length] in Hn; [lia|].
  cbn [parse_string_body] in H.
  destruct (c =? 34); [injection H as _ <-; cbn [length]; lia|].
  destruct (c =? 92).
  - destruct s as [|e s]; [discriminate|]. cbn [length] in *.
    repeat (match type of H with
            | (if ?b then _ else _) = _ =>
                destruct b; [apply IH in H; [lia|lia]|]
            end).
    destruct (e =? 117); [|discriminate].
    destruct s as [|h1 [|h2 [|h3 [|h4 s]]]]; try discriminate.
    destruct (hex4 h1 h2 h3 h4); [|discriminate].
    apply IH in H; cbn [length] in *; lia.
  - destruct (c <? 32); [discriminate|]. apply IH in H; cbn [length]; lia.
Qed.

Lemma digit_run_length (s : jsstring) : forall (a k v n : Z) (r : jsstring),
  digit_run s a k = (v, n, r) -> (length r <= length s)%nat.
Proof.
  induction s as [|c s IH]; intros a k v n r H; cbn [digit_run] in H.
  - injection H as _ _ <-. lia.
  - destruct (is_digit c).
    + apply IH in H. cbn [length]. lia.
    + injection H as _ _ <-. lia.
Qed.

Lemma parse_number_shorter (s : jsstring) (v : json) (r : jsstring) :
  parse_number s = Some (v, r) -> (length r < length s)%nat.
Proof.
  unfold parse_number.
  set (neg := match s with c :: _ => c =? 45 | [] => false end).
  set (s1 := if neg then drop 1 s else s).
  assert (H1 : (length s1 <= length s)%nat).
  { unfold s1. destruct neg; [|lia]. rewrite length_drop. lia. }
  clearbody s1. clearbody neg.
  destruct s1 as [|c s1]; [discriminate|].
  set (int_part := if c =? 48 then Some (0%Z, s1)
                   else if is_digit c
                        then let '(v0, _, r0) := digit_run (c :: s1) 0 0 in Some (v0, r0)
                        else None).
  assert (H2 : forall i r2, int_part = Some (i, r2) -> (length r2 <= length s1)%nat).
  { unfold int_part. intros i r2. destruct (c =? 48); [intros [= _ <-]; lia|].
    destruct (is_digit c) eqn:Hd; [|discriminate].
    cbn [digit_run]. rewrite Hd.
    destruct (digit_run s1 _ _) as [[v0 n0] r0] eqn:E. intros [= _ <-].
    now apply digit_run_length in E. }
  destruct int_part as [[i r2]|]; [|discriminate]. specialize (H2 i r2 eq_refl).
  set (frac := match r2 with
               | c0 :: r' =>
                   if c0 =? 46
                   then let '(v0, n, r'') := digit_run r' i 0 in
                        if (n =? 0)%Z then None else Some (v0, n, r'')
                   else Some (i, 0%Z, r2)
               | [] => Some (i, 0%Z, r2)
               end).
  assert (H3 : forall m n r3, frac = Some (m, n, r3) -> (length r3 <= length r2)%nat).
  { unfold frac. intros m n r3. destruct r2 as [|c0 r']; [intros [= _ _ <-]; lia|].
    destruct (c0 =? 46); [|intros [= _ _ <-]; lia].
    destruct (digit_run r' i 0) as [[v0 n0] r0] eqn:E.
    destruct (n0 =? 0)%Z; [discriminate|]. intros [= _ _ <-].
    apply digit_run_length in E. cbn [length]. lia. }
  destruct frac as [[[m n] r3]|]; [|discriminate]. specialize (H3 m n r3 eq_refl).
  cbn [length] in *.
  destruct r3 as [|c1 r']; [intros [= _ <-]; cbn [length]; lia|].
  destruct ((c1 =? 101) || (c1 =? 69)); [|intros [= _ <-]; cbn [length] in *; lia].
  set (t := if match r' with d :: _ => (d =? 45) || (d =? 43) | [] => false end
            then drop 1 r' else r').
  assert (H4 : (length t <= length r')%nat).
  { unfold t. destruct (match r' with d :: _ => _ | [] => false end); [|lia].
    rewrite length_drop. lia. }
  clearbody t. destruct (digit_run t 0 0) as [[v0 k] t'] eqn:E.
  destruct (k =? 0)%Z; [discriminate|]. intros [= _ <-].
  apply digit_run_length in E. cbn [length] in *. lia.
Qed.

(** What a parser leaves is shorter than what it was given. *)
Lemma parse_shorter (f : nat) :
  (forall s v r, parse_value f s = Some (v, r) -> (length r < length s)%nat) /\
  (forall s acc v r,
     parse_members f s acc = Some (v, r) -> (length r < length s)%nat) /\
  (forall s acc v r,
     parse_elements f s acc = Some (v, r) -> (length r < length s)%nat).
Proof.
  induction f as [|f (IHv & IHm & IHe)]; [repeat split; intros; discriminate|].
  split; [|split].
  - intros s v r H. cbn [parse_value] in H.
    destruct (skip_ws s) as [|c r0] eqn:E0; [discriminate|]. apply skip_ws_cons in E0.
    destruct (c =? 34).
    { destruct (parse_string_body r0 []) as [[x r1]|] eqn:E; [|discriminate].
      injection H as _ <-.
      apply (parse_string_body_shorter (length r0)) in E; lia. }
    destruct (c =? 123).
    { destruct (skip_ws r0) as [|d r1] eqn:E1; [discriminate|].
      apply skip_ws_cons in E1.
      destruct (d =? 125); [injection H as _ <-; lia|]. apply IHm in H. lia. }
    destruct (c =? 91).
    { destruct (skip_ws r0) as [|d r1] eqn:E1; [discriminate|].
      apply skip_ws_cons in E1.
      destruct (d =? 93); [injection H as _ <-; lia|].
      destruct (parse_value f r0) as [[v1 r2]|] eqn:E2; [|discriminate].
      apply IHv in E2. apply IHe in H. lia. }
    destruct (startsWith lit_null (c :: r0));
      [injection H as _ <-; rewrite length_drop; cbn [length]; lia|].
    destruct (startsWith lit_true (c :: r0));
      [injection H as _ <-; rewrite length_drop; cbn [length]; lia|].
    destruct (startsWith lit_false (c :: r0));
      [injection H as _ <-; rewrite length_drop; cbn [length]; lia|].
    apply parse_number_shorter in H. cbn [length] in H. lia.
  - intros s acc v r H. cbn [parse_members] in H.
    destruct (skip_ws s) as [|q r0] eqn:E0; [discriminate|]. apply skip_ws_cons in E0.
    destruct (q =? 34); [|discriminate].
    destruct (parse_string_body r0 []) as [[k r1]|] eqn:E1; [|discriminate].
    apply (parse_string_body_shorter (length r0)) in E1; [|lia].
    destruct (skip_ws r1) as [|colon r2] eqn:E2; [discriminate|].
    apply skip_ws_cons in E2. destruct (colon =? 58); [|discriminate].
    destruct (parse_value f r2) as [[v1 r3]|] eqn:E3; [|discriminate].
    apply IHv in E3.
    destruct (skip_ws r3) as [|d r4] eqn:E4; [discriminate|]. apply skip_ws_cons in E4.
    destruct (d =? 44); [apply IHm in H; lia|].
    destruct (d =? 125); [injection H as _ <-; lia|discriminate].
  - intros s acc v r H. cbn [parse_elements] in H.
    destruct (skip_ws s) as [|d r0] eqn:E0; [discriminate|]. apply skip_ws_cons in E0.
    destruct (d =? 44).
    { destruct (parse_value f r0) as [[v1 r1]|] eqn:E1; [|discriminate].
      apply IHv in E1. apply IHe in H. lia. }
    destruct (d =? 93); [injection H as _ <-; lia|discriminate].
Qed.

(** Two amounts of fuel, both above the length of the text, give the
    same result. *)
Lemma parse_fuel (f1 : nat) : forall f2 : nat,
  (forall s, (length s < f1)%nat -> (length s < f2)%nat ->
             parse_value f1 s = parse_value f2 s) /\
  (forall s acc, (length s < f1)%nat -> (length s < f2)%nat ->
                 parse_members f1 s acc = parse_members f2 s acc) /\
  (forall s acc, (length s < f1)%nat -> (length s < f2)%nat ->
                 parse_elements f1 s acc = parse_elements f2 s acc).
Proof.
  induction f1 as [|f1 IH]; intros f2; [repeat split; intros; lia|].
  destruct f2 as [|f2]; [repeat split; intros; lia|].
  destruct (IH f2) as (IHv & IHm & IHe).
  destruct (parse_shorter f2) as (Sv & _ & _).
  split; [|split].
  - intros s L1 L2. cbn [parse_value].
    destruct (skip_ws s) as [|c r0] eqn:E0; [reflexivity|]. apply skip_ws_cons in E0.
    destruct (c =? 34); [reflexivity|].
    destruct (c =? 123).
    { destruct (skip_ws r0) as [|d r1]; [reflexivity|].
      destruct (d =? 125); [reflexivity|]. apply IHm; lia. }
    destruct (c =? 91); [|reflexivity].
    destruct (skip_ws r0) as [|d r1]; [reflexivity|].
    destruct (d =? 93); [reflexivity|].
    rewrite (IHv r0) by lia.
    destruct (parse_value f2 r0) as [[v1 r2]|] eqn:E2; [|reflexivity].
    apply Sv in E2. apply IHe; lia.
  - intros s acc L1 L2. cbn [parse_members].
    destruct (skip_ws s) as [|q r0] eqn:E0; [reflexivity|]. apply skip_ws_cons in E0.
    destruct (q =? 34); [|reflexivity].
    destruct (parse_string_body r0 []) as [[k r1]|] eqn:E1; [|reflexivity].
    apply (parse_string_body_shorter (length r0)) in E1; [|lia].
    destruct (skip_ws r1) as [|colon r2] eqn:E2; [reflexivity|].
    apply skip_ws_cons in E2. destruct (colon =? 58); [|reflexivity].
    rewrite (IHv r2) by lia.
    destruct (parse_value f2 r2) as [[v1 r3]|] eqn:E3; [|reflexivity].
    apply Sv in E3.
    destruct (skip_ws r3) as [|d r4] eqn:E4; [reflexivity|]. apply skip_ws_cons in E4.
    destruct (d =? 44); [apply IHm; lia|reflexivity].
  - intros s acc L1 L2. cbn [parse_elements].
    destruct (skip_ws s) as [|d r0] eqn:E0; [reflexivity|]. apply skip_ws_cons in E0.
    destruct (d =? 44); [|reflexivity].
    rewrite (IHv r0) by lia.
    destruct (parse_value f2 r0) as [[v1 r1]|] eqn:E1; [|reflexivity].
    apply Sv in E1. apply IHe; lia.
Qed.

(** More fuel than [JSON_parse] takes changes nothing: a failure of
    [JSON_parse] is a syntax error of the text, never a lack of fuel. *)
Lemma parse_value_fuel (s : jsstring) (f : nat) :
  (length s < f)%nat -> parse_value f s = parse_value (S (length s)) s.
Proof. intros H. apply (parse_fuel f (S (length s))); lia. Qed.

(** ** Session store *)

Lemma defined_members_plain (u : UserData) :
  session_shaped u ->
  Forall (fun kv => is_plain kv.2 = true) (defined_members u).
Proof.
  intros (H1 & H2 & H3 & H4 & H5 & H6). unfold defined_members.
  assert (Hcons : forall (k : jsstring) (v : option json)
                    (rest : list (jsstring * option json)),
             field_ok v ->
             Forall (fun kv : jsstring * json => is_plain kv.2 = true)
               (omap (fun kv : jsstring * option json => pair kv.1 <$> kv.2) rest) ->
             Forall (fun kv : jsstring * json => is_plain kv.2 = true)
               (omap (fun kv : jsstring * option json => pair kv.1 <$> kv.2)
                  ((k, v) :: rest))).
  { intros k [x|] rest Hv Hrest; cbn; [constructor|]; assumption. }
  repeat (apply Hcons; [assumption|]). constructor.
Qed.

Lemma get_prop_defined_members (u : UserData) :
  get_prop k_userId (JObj (defined_members u)) = userId u /\
  get_prop k_username (JObj (defined_members u)) = username u /\
  get_prop k_token (JObj (defined_members u)) = token u /\
  get_prop k_googleId (JObj (defined_members u)) = googleId u /\
  get_prop k_picture (JObj (defined_members u)) = picture u /\
  get_prop k_email (JObj (defined_members u)) = email u.
Proof.
  destruct u as [[a|] [b|] [c|] [d|] [e|] [f|]]; vm_compute; repeat split.
Qed.

Lemma stored_session_text (u : UserData) :
  exists t, JSON_stringify u = 123 :: t.
Proof. unfold JSON_stringify. cbn [stringify_json]. eauto. Qed.

(** C5: for every session whose fields are strings ([null] or missing
    where optional), whatever code units the strings hold, [login] (save)
    followed by [getCurrentUser] (load) returns an object with the same
    value in every field, and leaves the storage as [login] made it. *)
Theorem save_then_load_round_trip (u : UserData) (ls : storage) :
  session_shaped u ->
  getCurrentUser (login u ls) = (JObj (defined_members u), login u ls) /\
  let loaded := (getCurrentUser (login u ls)).1 in
  get_prop k_userId loaded = userId u /\
  get_prop k_username loaded = username u /\
  get_prop k_token loaded = token u /\
  get_prop k_googleId loaded = googleId u /\
  get_prop k_picture loaded = picture u /\
  get_prop k_email loaded = email u.
Proof.
  intros Hu.
  assert (E : getCurrentUser (login u ls) = (JObj (defined_members u), login u ls)).
  { unfold getCurrentUser.
    assert (Hl : login u ls !! "user"%string = Some (JSON_stringify u)).
    { unfold login. rewrite lookup_delete_ne by done. apply lookup_insert_eq. }
    rewrite Hl. destruct (stored_session_text u) as [t Ht]. rewrite Ht.
    cbn [truthy_str negb or_str]. rewrite <- Ht. unfold JSON_stringify.
    now rewrite JSON_parse_stringify_object by now apply defined_members_plain. }
  split; [exact E|]. rewrite E. cbn [fst]. apply get_prop_defined_members.
Qed.

Lemma save_then_load_round_trip_witness :
  getCurrentUser (login sample_session ∅) =
    (JObj (defined_members sample_session), login sample_session ∅) /\
  let loaded := (getCurrentUser (login sample_session ∅)).1 in
  get_prop k_userId loaded = userId sample_session /\
  get_prop k_username loaded = username sample_session /\
  get_prop k_token loaded = token sample_session /\
  get_prop k_googleId loaded = googleId sample_session /\
  get_prop k_picture loaded = picture sample_session /\
  get_prop k_email loaded = email sample_session.
Proof.
  apply (save_then_load_round_trip sample_session ∅).
  repeat split; reflexivity.
Defined.

(** C6, as stated, fails on the empty record: it does not deserialize,
    [getCurrentUser] returns [null], and the record stays in the store. *)
Lemma empty_record_left_in_place :
  empty_record_store !! "user"%string = Some [] /\
  JSON_parse [] = None /\
  getCurrentUser empty_record_store = (JNull, empty_record_store) /\
  (getCurrentUser empty_record_store).2 !! "user"%string = Some [].
Proof. vm_compute. auto. Qed.

(** C6, amended: for every stored session record that is a non-empty
    string and fails to deserialize, [getCurrentUser] deletes the record
    and returns [null]; a second [getCurrentUser] finds no record and
    returns [null] as well. *)
Theorem load_deletes_corrupt_record (ls : storage) (s : jsstring) :
  ls !! "user"%string = Some s -> s <> [] -> JSON_parse s = None ->
  getCurrentUser ls = (JNull, delete "user"%string ls) /\
  delete "user"%string ls !! "user"%string = None /\
  getCurrentUser (delete "user"%string ls) = (JNull, delete "user"%string ls).
Proof.
  intros Hs Hne Hbad. split; [|split].
  - unfold getCurrentUser. rewrite Hs. destruct s as [|c s]; [congruence|].
    cbn [truthy_str negb or_str]. now rewrite Hbad.
  - apply lookup_delete_eq.
  - unfold getCurrentUser. now rewrite lookup_delete_eq.
Qed.

Lemma load_deletes_corrupt_record_witness :
  getCurrentUser corrupt_record_store =
    (JNull, delete "user"%string corrupt_record_store) /\
  delete "user"%string corrupt_record_store !! "user"%string = None /\
  getCurrentUser (delete "user"%string corrupt_record_store) =
    (JNull, delete "user"%string corrupt_record_store).
Proof.
  apply (load_deletes_corrupt_record corrupt_record_store (js "{bad")).
  - reflexivity.
  - discriminate.
  - reflexivity.
Defined.

(** C9, as stated, fails on a corrupt record: [isLoggedIn] is true while
    [getCurrentUser] returns [null]. *)
Lemma logged_in_with_corrupt_record :
  isLoggedIn corrupt_record_store = true /\
  (getCurrentUser corrupt_record_store).1 = JNull.
Proof. vm_compute. auto. Qed.

(** C9, amended: [isLoggedIn] is true exactly when a non-empty session
    record is stored. Whenever [getCurrentUser] returns a present
    (truthy) session, [isLoggedIn] is true; and when [isLoggedIn] is
    true, [getCurrentUser] returns a present session exactly when the
    stored record deserializes to a truthy value. *)
Theorem isLoggedIn_is_existence_check (ls : storage) :
  (isLoggedIn ls = true <-> exists c s, ls !! "user"%string = Some (c :: s)) /\
  (truthy (getCurrentUser ls).1 = true -> isLoggedIn ls = true) /\
  (isLoggedIn ls = true ->
   (truthy (getCurrentUser ls).1 = true <->
    exists s v, ls !! "user"%string = Some s /\ JSON_parse s = Some v /\
                truthy v = true)).
Proof.
  unfold isLoggedIn, getCurrentUser.
  destruct (ls !! "user"%string) as [[|c s]|] eqn:E; cbn [truthy_str negb or_str fst].
  - split; [|split]; try discriminate.
    split; [discriminate|]. intros (c & s & H). discriminate.
  - split; [|split].
    + split; eauto.
    + reflexivity.
    + intros _. destruct (JSON_parse (c :: s)) as [v|] eqn:P; cbn [fst].
      * split; [intros Hv; exists (c :: s), v; auto|].
        intros (s' & v' & Hs & Hp & Hv). injection Hs as <-.
        rewrite P in Hp. now injection Hp as <-.
      * split; [discriminate|]. intros (s' & v' & Hs & Hp & _).
        injection Hs as <-. congruence.
  - split; [|split]; try discriminate.
    split; [discriminate|]. intros (c & s & H). discriminate.
Qed.

(** ** Redirect parameter extraction: the branches *)

(** The branch taken is the one [chosen_strategy] names. *)
Lemma extract_fields_by_strategy (url : jsstring) :
  extract_fields url =
  if includes KEY url then
    match chosen_strategy url with
    | Some st =>
        match params_by st url with
        | Normal params => Normal (Some (read_identity params))
        | Throw => Throw
        end
    | None => Normal None
    end
  else Normal None.
Proof.
  unfold extract_fields, chosen_strategy.
  destruct (includes KEY url); [|reflexivity].
  destruct (includes QUERY_KEY url); [reflexivity|].
  destruct (includes HASH_KEY url).
  { cbn [params_by]. now destruct (split [35] url !! 1%nat). }
  destruct (includes SLASH_KEY url).
  { cbn [params_by]. now destruct (split SLASH_KEY url !! 1%nat). }
  reflexivity.
Qed.

(** C8, as stated, fails: in this URL the key first occurs after [#], and
    a later [?] before the key makes the code take the query-string
    branch, which reads the empty query of the URL and finds nothing;
    the fragment branch would have read the identity. *)
Lemma later_question_mark_takes_over :
  strategy_by_first_delimiter fragment_first_url = Some HashFragment /\
  chosen_strategy fragment_first_url = Some QueryString /\
  extract fragment_first_url = None /\
  (match params_by HashFragment fragment_first_url with
   | Normal params => params_get k_google_id params
   | Throw => None
   end) = Some (js "a").
Proof. vm_compute. auto. Qed.

(** C8, amended: for every URL containing the key exactly one strategy
    is chosen, by a fixed precedence that does not look at positions: the
    query-string branch when [?google_id=] occurs anywhere in the URL,
    else the fragment branch when [#google_id=] occurs anywhere, else the
    slash branch when [/google_id=] occurs anywhere, else the scan for
    the key; the fields are those of the chosen branch. In particular a
    URL with [?google_id=] and a later [#google_id=] is read by the
    query-string branch. *)
Theorem strategy_by_fixed_precedence (url : jsstring) :
  includes KEY url = true ->
  exists st : strategy,
    chosen_strategy url = Some st /\
    (st = QueryString <-> includes QUERY_KEY url = true) /\
    (st = HashFragment <->
       includes QUERY_KEY url = false /\ includes HASH_KEY url = true) /\
    (st = SlashEmbedded <->
       includes QUERY_KEY url = false /\ includes HASH_KEY url = false /\
       includes SLASH_KEY url = true) /\
    (st = KeyScan <->
       includes QUERY_KEY url = false /\ includes HASH_KEY url = false /\
       includes SLASH_KEY url = false) /\
    extract_fields url =
      match params_by st url with
      | Normal params => Normal (Some (read_identity params))
      | Throw => Throw
      end.
Proof.
  intros Hkey. rewrite extract_fields_by_strategy, Hkey.
  unfold chosen_strategy. rewrite Hkey.
  destruct (includes QUERY_KEY url);
    [|destruct (includes HASH_KEY url); [|destruct (includes SLASH_KEY url)]];
    eexists; (split; [reflexivity|]); repeat split;
    try discriminate; try tauto; intros; intuition discriminate.
Qed.

Lemma strategy_by_fixed_precedence_witness :
  exists st : strategy,
    chosen_strategy query_then_fragment_url = Some st /\
    (st = QueryString <-> includes QUERY_KEY query_then_fragment_url = true) /\
    (st = HashFragment <->
       includes QUERY_KEY query_then_fragment_url = false /\
       includes HASH_KEY query_then_fragment_url = true) /\
    (st = SlashEmbedded <->
       includes QUERY_KEY query_then_fragment_url = false /\
       includes HASH_KEY query_then_fragment_url = false /\
       includes SLASH_KEY query_then_fragment_url = true) /\
    (st = KeyScan <->
       includes QUERY_KEY query_then_fragment_url = false /\
       includes HASH_KEY query_then_fragment_url = false /\
       includes SLASH_KEY query_then_fragment_url = false) /\
    extract_fields query_then_fragment_url =
      match params_by st query_then_fragment_url with
      | Normal params => Normal (Some (read_identity params))
      | Throw => Throw
      end.
Proof.
  apply (strategy_by_fixed_precedence query_then_fragment_url). reflexivity.
Defined.

(** The URL with both delimiters is read by the query-string branch. *)
Example query_then_fragment_reads_query :
  includes QUERY_KEY query_then_fragment_url = true /\
  includes HASH_KEY query_then_fragment_url = true /\
  chosen_strategy query_then_fragment_url = Some QueryString /\
  extract query_then_fragment_url =
    Some {| id_googleId := Some (js "a"); id_name := Some (js "Bo");
            id_email := None; id_picture := None |}.
Proof. vm_compute. auto. Qed.

(** ** Searching in strings *)

Lemma indexOf_from_eq (n s : jsstring) (i : nat) :
  indexOf_from n s i =
  if startsWith n s then Some i
  else match s with
       | [] => None
       | _ :: s' => indexOf_from n s' (S i)
       end.
Proof. destruct s; cbn [indexOf_from]; now destruct (startsWith n _). Qed.

Lemma startsWith_app (n r : jsstring) : startsWith n (n ++ r) = true.
Proof.
  induction n as [|c n IH]; [reflexivity|].
  cbn [app startsWith]. now rewrite N.eqb_refl, IH.
Qed.

Lemma startsWith_prefix (n : jsstring) : forall s : jsstring,
  startsWith n s = true -> exists r, s = n ++ r.
Proof.
  induction n as [|c n IH]; intros s H; [now exists s|].
  destruct s as [|x s]; [discriminate|]. cbn [startsWith] in H.
  apply andb_true_iff in H as [Hc Hs]. apply N.eqb_eq in Hc as ->.
  destruct (IH s Hs) as [r ->]. now exists r.
Qed.

(** The first occurrence of [n] in [pre ++ t] is at the head of [t] when
    [t] starts with [n] and no earlier position does. *)
Lemma indexOf_from_app_first (n t : jsstring) (pre : jsstring) : forall i : nat,
  (forall a q, pre = a ++ q -> q <> [] -> startsWith n (q ++ t) = false) ->
  startsWith n t = true ->
  indexOf_from n (pre ++ t) i = Some (i + length pre)%nat.
Proof.
  induction pre as [|x pre IH]; intros i Hpre Ht.
  - cbn [app length]. rewrite indexOf_from_eq, Ht. f_equal. lia.
  - rewrite indexOf_from_eq. rewrite (Hpre [] (x :: pre)) by (reflexivity || discriminate).
    cbn [app]. rewrite IH; [cbn [length]; f_equal; lia| |assumption].
    intros a q -> Hq. apply (Hpre (x :: a) q); [reflexivity|assumption].
Qed.

Lemma indexOf_from_None_shift (n s : jsstring) : forall i j : nat,
  indexOf_from n s i = None -> indexOf_from n s j = None.
Proof.
  induction s as [|x s IH]; intros i j.
  - cbn [indexOf_from]. now destruct (startsWith n []).
  - rewrite (indexOf_from_eq n (x :: s) i), (indexOf_from_eq n (x :: s) j).
    destruct (startsWith n (x :: s)); [discriminate|]. apply IH.
Qed.

Lemma indexOf_from_app_none (n t : jsstring) (pre : jsstring) : forall i : nat,
  (forall a q, pre = a ++ q -> q <> [] -> startsWith n (q ++ t) = false) ->
  indexOf n t = None ->
  indexOf_from n (pre ++ t) i = None.
Proof.
  induction pre as [|x pre IH]; intros i Hpre Ht.
  - apply (indexOf_from_None_shift n t 0%nat), Ht.
  - rewrite indexOf_from_eq. rewrite (Hpre [] (x :: pre)) by (reflexivity || discriminate).
    cbn [app]. apply IH; [|assumption].
    intros a q -> Hq. apply (Hpre (x :: a) q); [reflexivity|assumption].
Qed.

(** A needle whose first unit does not occur in [s] does not occur. *)
Lemma indexOf_from_absent_unit (c : N) (n s : jsstring) : forall i : nat,
  Forall (fun x => x <> c) s -> indexOf_from (c :: n) s i = None.
Proof.
  induction s as [|x s IH]; intros i Hs; [reflexivity|].
  apply Forall_cons in Hs as [Hx Hs]. rewrite indexOf_from_eq.
  cbn [startsWith]. apply not_eq_sym, N.eqb_neq in Hx. rewrite Hx. cbn [andb].
  now apply IH.
Qed.

Lemma includes_absent_unit (c : N) (n s : jsstring) :
  Forall (fun x => x <> c) s -> includes (c :: n) s = false.
Proof.
  intros Hs. unfold includes, indexOf. now rewrite indexOf_from_absent_unit.
Qed.

Lemma indexOf_from_found (n b : jsstring) (a : jsstring) : forall i : nat,
  exists j, indexOf_from n (a ++ n ++ b) i = Some j.
Proof.
  induction a as [|x a IH]; intros i; rewrite indexOf_from_eq.
  - cbn [app]. rewrite startsWith_app. eauto.
  - destruct (startsWith n _); [eauto|]. cbn [app]. apply IH.
Qed.

Lemma includes_app (n a b : jsstring) : includes n (a ++ n ++ b) = true.
Proof.
  unfold includes, indexOf. now destruct (indexOf_from_found n b a 0) as [j ->].
Qed.

Lemma split_fuel_nonempty (f : nat) (sep s : jsstring) :
  exists x l, split_fuel f sep s = x :: l.
Proof.
  destruct f as [|f]; cbn [split_fuel]; [eauto|].
  destruct (indexOf sep s); eauto.
Qed.

(** When the separator occurs, [split] has a second element. *)
Lemma split_second_exists (sep s : jsstring) :
  sep <> [] -> includes sep s = true -> exists x, split sep s !! 1%nat = Some x.
Proof.
  intros Hsep Hinc. unfold includes in Hinc. unfold split.
  destruct (indexOf sep s) as [i|] eqn:E; [|discriminate].
  destruct s as [|c s].
  - unfold indexOf in E. cbn [indexOf_from] in E.
    destruct sep; [congruence|discriminate].
  - cbn [length split_fuel]. rewrite E.
    destruct (split_fuel_nonempty (length s) sep (drop (i + length sep) (c :: s)))
      as (x & l & ->). now exists x.
Qed.

(** Cut at the only occurrence of the separator. *)
Lemma split_second (sep pre rest : jsstring) :
  sep <> [] ->
  indexOf sep (pre ++ sep ++ rest) = Some (length pre) ->
  indexOf sep rest = None ->
  split sep (pre ++ sep ++ rest) !! 1%nat = Some rest.
Proof.
  intros Hsep Hfirst Hnone. unfold split.
  destruct (length (pre ++ sep ++ rest)) as [|f] eqn:Hlen.
  { rewrite !length_app in Hlen. destruct sep; [congruence|cbn in Hlen; lia]. }
  cbn [split_fuel]. rewrite Hfirst.
  replace (drop (length pre + length sep) (pre ++ sep ++ rest)) with rest.
  - destruct f; cbn [split_fuel]; [reflexivity|]. now rewrite Hnone.
  - rewrite app_assoc, <- length_app. now rewrite drop_app_length.
Qed.

Lemma indexOf_from_bound (n s : jsstring) : forall i j : nat,
  indexOf_from n s i = Some j ->
  (i <= j)%nat /\ (j - i + length n <= length s)%nat.
Proof.
  induction s as [|x s IH]; intros i j; rewrite indexOf_from_eq;
    destruct (startsWith n _) eqn:E.
  - intros [= <-]. apply startsWith_prefix in E as [r E].
    apply (f_equal length) in E. rewrite length_app in E. lia.
  - discriminate.
  - intros [= <-]. apply startsWith_prefix in E as [r E].
    apply (f_equal length) in E. rewrite length_app in E. lia.
  - intros H. apply IH in H. cbn [length]. lia.
Qed.

Lemma split_fuel_empty (sep : jsstring) (f : nat) :
  sep <> [] -> split_fuel f sep [] = [[]].
Proof.
  intros Hsep. destruct f; [reflexivity|]. cbn [split_fuel]. unfold indexOf.
  cbn [indexOf_from]. now destruct sep.
Qed.

(** [split] never runs out of fuel: two amounts of it, both at least the
    length of the string, give the same pieces. *)
Lemma split_fuel_enough (sep : jsstring) (f1 : nat) : forall (f2 : nat) (s : jsstring),
  sep <> [] -> (length s <= f1)%nat -> (length s <= f2)%nat ->
  split_fuel f1 sep s = split_fuel f2 sep s.
Proof.
  induction f1 as [|f1 IH]; intros f2 s Hsep L1 L2.
  - destruct s; [|cbn [length] in L1; lia]. now rewrite !split_fuel_empty.
  - destruct f2 as [|f2].
    { destruct s; [|cbn [length] in L2; lia]. now rewrite !split_fuel_empty. }
    cbn [split_fuel]. destruct (indexOf sep s) as [i|] eqn:E; [|reflexivity].
    apply indexOf_from_bound in E as [_ E]. f_equal.
    assert (length sep <> 0)%nat by (destruct sep; [congruence|discriminate]).
    apply IH; [assumption| |]; rewrite length_drop; lia.
Qed.

(** ** Redirect parameter extraction: no throw, no identity without an id *)

Lemma extract_fields_normal (url : jsstring) :
  exists r, extract_fields url = Normal r.
Proof.
  unfold extract_fields. destruct (includes KEY url); [|eauto].
  destruct (includes QUERY_KEY url); [eauto|].
  destruct (includes HASH_KEY url).
  { destruct (split [35] url !! 1%nat); eauto. }
  destruct (includes SLASH_KEY url) eqn:Hs; [|eauto].
  destruct (split_second_exists SLASH_KEY url) as [x ->];
    [discriminate|assumption|eauto].
Qed.

(** C4: for every URL the extraction ends normally, never by a throw;
    without the key in the URL the result is "not found"; and whenever
    the fields read hold no [google_id], or an empty one, the result is
    "not found" whatever the other fields hold, so that an identity that
    is returned always carries a non-empty [google_id]. *)
Theorem extract_never_throws (url : jsstring) :
  (exists r, extract_fields url = Normal r) /\
  (includes KEY url = false -> extract url = None) /\
  (forall i, extract_fields url = Normal (Some i) ->
             truthy_str (id_googleId i) = false -> extract url = None) /\
  (forall i, extract url = Some i -> exists c s, id_googleId i = Some (c :: s)).
Proof.
  split; [apply extract_fields_normal|]. split; [|split].
  - intros H. unfold extract, extract_fields. now rewrite H.
  - intros i E H. unfold extract. now rewrite E, H.
  - intros i. unfold extract.
    destruct (extract_fields url) as [[j|]|]; try discriminate.
    destruct (id_googleId j) as [[|c s]|] eqn:G; cbn [truthy_str]; try discriminate.
    intros [= <-]. eauto.
Qed.

(** Other fields present, the id missing or empty: "not found". *)
Example extract_without_id :
  extract_fields (js "https://h/p?google_id=&name=Bo&email=a%40b.c") =
    Normal (Some {| id_googleId := Some []; id_name := Some (js "Bo");
                    id_email := Some (js "a@b.c"); id_picture := None |}) /\
  extract (js "https://h/p?google_id=&name=Bo&email=a%40b.c") = None /\
  extract_fields (js "https://h/p?name=Bo#?google_id=abc") =
    Normal (Some {| id_googleId := None; id_name := Some (js "Bo");
                    id_email := None; id_picture := None |}) /\
  extract (js "https://h/p?name=Bo#?google_id=abc") = None /\
  extract (js "https://h/p?name=Bo") = None /\
  extract (js "https://h/p?google_id=%ZZ%&&=&name") =
    Some {| id_googleId := Some (js "%ZZ%"); id_name := Some [];
            id_email := None; id_picture := None |}.
Proof. vm_compute. repeat split. Qed.

(** ** Redirect parameter extraction: the four shapes *)

Lemma safe_excluded (c x : N) : safe x = true -> In c excluded -> x <> c.
Proof.
  intros Hs Hin ->. cbn in Hin.
  repeat (destruct Hin as [<-|Hin]; [vm_compute in Hs; discriminate|]).
  exact Hin.
Qed.

Lemma content_excluded (rest : jsstring) (c : N) :
  Forall (fun x => safe x = true) rest -> In c excluded ->
  Forall (fun x => x <> c) (KEY ++ rest).
Proof.
  intros Hrest Hin. apply Forall_app. split.
  - cbn in Hin.
    repeat (destruct Hin as [<-|Hin]; [repeat constructor; discriminate|]).
    destruct Hin.
  - eapply Forall_impl; [exact Hrest|]. intros x Hx. now apply safe_excluded.
Qed.

Lemma safe_allowed (rest : jsstring) :
  Forall (fun x => safe x = true) rest -> filter (fun c => allowed c) rest = rest.
Proof.
  induction rest as [|x rest IH]; intros H; [reflexivity|].
  apply Forall_cons in H as [Hx Hrest]. unfold safe in Hx.
  apply andb_true_iff in Hx as [Hx _]. rewrite filter_cons.
  destruct (decide (allowed x)) as [|Hn]; [now rewrite IH|].
  rewrite Hx in Hn. now destruct Hn.
Qed.

(** The key overlaps itself nowhere. *)
Lemma KEY_border (q l t r : jsstring) :
  KEY = q ++ l -> KEY ++ t = l ++ r -> q = [] \/ l = [].
Proof.
  unfold KEY. intros H1 H2.
  destruct q as [|? q]; [now left|].
  do 10 (destruct q as [|? q];
         [cbn [app] in H1; injection H1; intros; subst; cbn [app] in H2;
          first [now right | discriminate H2]|]).
  cbn [app] in H1. discriminate H1.
Qed.

Lemma includes_false_app (n s a b : jsstring) :
  includes n s = false -> s <> a ++ n ++ b.
Proof. intros H ->. now rewrite includes_app in H. Qed.

(** A URL without the key before the content: the key does not start
    inside it. *)
Lemma KEY_not_before (pre t : jsstring) :
  includes KEY pre = false ->
  forall a q, pre = a ++ q -> q <> [] -> startsWith KEY (q ++ KEY ++ t) = false.
Proof.
  intros Hpre a q -> Hq. destruct (startsWith KEY _) eqn:E; [exfalso|reflexivity].
  apply startsWith_prefix in E as [r E].
  apply app_eq_app in E as [l [[-> _]|[Hk Ht]]].
  - now apply (includes_false_app KEY (a ++ KEY ++ l) a l).
  - destruct (KEY_border q l t r Hk Ht) as [->| ->]; [congruence|].
    rewrite app_nil_r in Hk. subst q.
    now apply (includes_false_app KEY (a ++ KEY) a []); rewrite ?app_nil_r.
Qed.

Lemma SLASH_KEY_not_before (pre t : jsstring) :
  includes KEY pre = false ->
  forall a q, pre = a ++ q -> q <> [] ->
              startsWith SLASH_KEY (q ++ SLASH_KEY ++ t) = false.
Proof.
  intros Hpre a q -> Hq. destruct q as [|x q]; [congruence|].
  change SLASH_KEY with (47 :: KEY). cbn [app startsWith].
  apply andb_false_iff. right.
  destruct (startsWith KEY _) eqn:E; [exfalso|reflexivity].
  apply startsWith_prefix in E as [r E].
  apply app_eq_app in E as [l [[-> _]|[Hk Ht]]].
  - apply (includes_false_app KEY (a ++ x :: KEY ++ l) (a ++ [x]) l); [assumption|].
    now rewrite <- app_assoc.
  - destruct l as [|y l].
    + rewrite app_nil_r in Hk. subst q.
      apply (includes_false_app KEY (a ++ x :: KEY) (a ++ [x]) []); [assumption|].
      now rewrite <- app_assoc, app_nil_r.
    + injection Ht as <- _.
      assert (H47 : In 47 KEY) by (rewrite Hk; apply in_or_app; right; now left).
      cbn in H47. intuition discriminate.
Qed.

Lemma SLASH_KEY_not_in_scan (pre t : jsstring) :
  includes KEY pre = false -> last pre <> Some 47 ->
  forall a q, pre = a ++ q -> q <> [] ->
              startsWith SLASH_KEY (q ++ KEY ++ t) = false.
Proof.
  intros Hpre Hlast a q -> Hq. destruct q as [|x q]; [congruence|].
  change SLASH_KEY with (47 :: KEY). cbn [app startsWith].
  destruct (N.eqb_spec 47 x) as [<-|]; [|reflexivity]. cbn [andb].
  destruct q as [|y q].
  - now rewrite last_snoc in Hlast.
  - apply (KEY_not_before (a ++ 47 :: y :: q) t Hpre (a ++ [47]) (y :: q));
      [now rewrite <- app_assoc|discriminate].
Qed.

Lemma unit_not_before (c : N) (n pre t : jsstring) :
  Forall (fun x => x <> c) pre ->
  forall a q, pre = a ++ q -> q <> [] -> startsWith (c :: n) (q ++ t) = false.
Proof.
  intros Hpre a q -> Hq. destruct q as [|x q]; [congruence|].
  apply Forall_app in Hpre as [_ Hq']. apply Forall_cons in Hq' as [Hx _].
  cbn [app startsWith]. apply not_eq_sym, N.eqb_neq in Hx. now rewrite Hx.
Qed.

Lemma indexOf_at_absent (ch : N) (u : jsstring) (start : nat) :
  (start <= length u)%nat -> Forall (fun x => x <> ch) (drop start u) ->
  indexOf_at [ch] u start = None.
Proof.
  intros Hle Hd. unfold indexOf_at. destruct (decide (start ≤ length u)%nat); [|lia].
  now apply indexOf_from_absent_unit.
Qed.

Lemma scan_end_clean (u : jsstring) (start : nat) :
  (start <= length u)%nat ->
  (forall ch, In ch illegalChars -> Forall (fun x => x <> ch) (drop start u)) ->
  scan_end u start = length u.
Proof.
  intros Hle Hclean. unfold scan_end. generalize (length u) as e.
  revert Hclean. generalize illegalChars as chars.
  induction chars as [|ch chars IH]; intros Hclean e; [reflexivity|].
  cbn [fold_left]. rewrite indexOf_at_absent by (auto; apply Hclean; now left).
  apply IH. intros ch' Hin. apply Hclean. now right.
Qed.

Section Shapes.

(** [pre] is what stands before the parameters, [rest] what follows the
    key in them. *)
Variables pre rest : jsstring.

Hypothesis pre_no_delimiter : Forall (fun c => c <> 63 /\ c <> 35) pre.
Hypothesis pre_no_key : includes KEY pre = false.
Hypothesis rest_safe : Forall (fun c => safe c = true) rest.

Local Abbreviation content := (KEY ++ rest).

Lemma pre_no_unit (c : N) : c = 63 \/ c = 35 -> Forall (fun x => x <> c) pre.
Proof using pre_no_delimiter.
  intros Hc. eapply Forall_impl; [exact pre_no_delimiter|].
  intros x [H1 H2]. now destruct Hc as [-> | ->].
Qed.

Lemma content_no_unit (c : N) : In c excluded -> Forall (fun x => x <> c) content.
Proof using rest_safe. intros Hin. now apply content_excluded. Qed.

(** Neither [?] nor [#] anywhere when the delimiter [d] is neither. *)
Lemma shape_no_unit (c : N) (mid : jsstring) :
  c = 63 \/ c = 35 -> Forall (fun x => x <> c) mid ->
  Forall (fun x => x <> c) (pre ++ mid ++ content).
Proof using pre_no_delimiter rest_safe.
  intros Hc Hmid. apply Forall_app. split; [now apply pre_no_unit|].
  apply Forall_app. split; [assumption|]. apply content_no_unit.
  destruct Hc as [-> | ->]; cbn; auto.
Qed.

Lemma key_found (mid : jsstring) : includes KEY (pre ++ mid ++ content) = true.
Proof.
  rewrite (app_assoc pre mid). apply includes_app.
Qed.

Lemma query_shape :
  extract (pre ++ 63 :: content) = content_identity content.
Proof using pre_no_delimiter rest_safe.
  change (pre ++ 63 :: content) with (pre ++ [63] ++ content).
  unfold extract, extract_fields.
  rewrite (key_found [63]).
  assert (Hq : includes QUERY_KEY (pre ++ [63] ++ content) = true).
  { change ([63] ++ content) with (QUERY_KEY ++ rest). apply includes_app. }
  rewrite Hq.
  assert (Hs : location_search (pre ++ [63] ++ content) = 63 :: content).
  { unfold location_search.
    assert (H35 : indexOf [35] (pre ++ [63] ++ content) = None).
    { apply indexOf_from_absent_unit, Forall_app. split; [apply pre_no_unit; auto|].
      constructor; [discriminate|]. apply content_no_unit. cbn. auto. }
    rewrite H35. unfold indexOf.
    rewrite (indexOf_from_app_first [63] ([63] ++ content) pre 0);
      [|apply unit_not_before, pre_no_unit; auto|reflexivity].
    cbn [Nat.add]. now rewrite drop_app_length. }
  rewrite Hs. reflexivity.
Qed.

Lemma hash_shape :
  extract (pre ++ 35 :: content) = content_identity content.
Proof using pre_no_delimiter rest_safe.
  change (pre ++ 35 :: content) with (pre ++ [35] ++ content).
  unfold extract, extract_fields.
  rewrite (key_found [35]).
  assert (Hq : includes QUERY_KEY (pre ++ [35] ++ content) = false).
  { apply includes_absent_unit, shape_no_unit; [auto|]. repeat constructor. discriminate. }
  rewrite Hq.
  assert (Hh : includes HASH_KEY (pre ++ [35] ++ content) = true).
  { change ([35] ++ content) with (HASH_KEY ++ rest). apply includes_app. }
  rewrite Hh.
  rewrite (split_second [35] pre content).
  - reflexivity.
  - discriminate.
  - unfold indexOf.
    rewrite (indexOf_from_app_first [35] ([35] ++ content) pre 0);
      [reflexivity|apply unit_not_before, pre_no_unit; auto|reflexivity].
  - apply indexOf_from_absent_unit, content_no_unit. cbn. auto.
Qed.

Lemma slash_shape :
  extract (pre ++ 47 :: content) = content_identity content.
Proof using pre_no_delimiter pre_no_key rest_safe.
  change (pre ++ 47 :: content) with (pre ++ [47] ++ content).
  unfold extract, extract_fields.
  rewrite (key_found [47]).
  assert (Hq : includes QUERY_KEY (pre ++ [47] ++ content) = false).
  { apply includes_absent_unit, shape_no_unit; [auto|]. repeat constructor. discriminate. }
  assert (Hh : includes HASH_KEY (pre ++ [47] ++ content) = false).
  { apply includes_absent_unit, shape_no_unit; [auto|]. repeat constructor. discriminate. }
  rewrite Hq, Hh.
  assert (Hs : includes SLASH_KEY (pre ++ [47] ++ content) = true).
  { change ([47] ++ content) with (SLASH_KEY ++ rest). apply includes_app. }
  rewrite Hs.
  change ([47] ++ content) with (SLASH_KEY ++ rest).
  rewrite (split_second SLASH_KEY pre rest).
  - now rewrite safe_allowed.
  - discriminate.
  - unfold indexOf.
    rewrite (indexOf_from_app_first SLASH_KEY (SLASH_KEY ++ rest) pre 0);
      [reflexivity| |apply startsWith_app].
    now apply SLASH_KEY_not_before.
  - apply indexOf_from_absent_unit.
    eapply Forall_impl; [exact rest_safe|]. intros x Hx.
    apply safe_excluded; [assumption|]. cbn. auto.
Qed.

Lemma scan_shape :
  last pre <> Some 47 ->
  extract (pre ++ content) = content_identity content.
Proof using pre_no_delimiter pre_no_key rest_safe.
  intros Hlast. unfold extract, extract_fields.
  pose proof (key_found []) as Hk. cbn [app] in Hk. rewrite Hk.
  assert (Hq : includes QUERY_KEY (pre ++ content) = false).
  { apply includes_absent_unit. apply (shape_no_unit 63 []); [auto|constructor]. }
  assert (Hh : includes HASH_KEY (pre ++ content) = false).
  { apply includes_absent_unit. apply (shape_no_unit 35 []); [auto|constructor]. }
  assert (Hs : includes SLASH_KEY (pre ++ content) = false).
  { unfold includes, indexOf.
    rewrite (indexOf_from_app_none SLASH_KEY content pre 0); [reflexivity| |].
    - now apply SLASH_KEY_not_in_scan.
    - apply indexOf_from_absent_unit, content_no_unit. cbn. auto. }
  rewrite Hq, Hh, Hs.
  assert (Hi : indexOf KEY (pre ++ content) = Some (length pre)).
  { unfold indexOf.
    rewrite (indexOf_from_app_first KEY content pre 0);
      [reflexivity| |apply startsWith_app].
    now apply KEY_not_before. }
  rewrite Hi. change (default 0%nat (Some (length pre))) with (length pre).
  rewrite scan_end_clean.
  - unfold substring. rewrite drop_app_length, length_app.
    rewrite take_ge by lia. reflexivity.
  - rewrite length_app. lia.
  - intros ch Hin. rewrite drop_app_length. apply content_no_unit.
    cbn. cbn in Hin. tauto.
Qed.

End Shapes.

(** C1, as stated, fails: the same parameters give other fields after a
    slash than after a question mark, the slash branch having removed
    the [+] of the name and the [:] and [/] of the picture. *)
Lemma slash_branch_alters_values :
  extract (js "https://h/p?" ++ plus_content) =
    Some {| id_googleId := Some (js "abc"); id_name := Some (js "Bo Li");
            id_email := None; id_picture := Some (js "https://x.y/a.png") |} /\
  extract (js "https://h/p/" ++ plus_content) =
    Some {| id_googleId := Some (js "abc"); id_name := Some (js "BoLi");
            id_email := None; id_picture := Some (js "httpsx.ya.png") |}.
Proof. vm_compute. auto. Qed.

(** C1, amended: let the parameters start with the key and go on with
    units that the allow-list of the slash branch keeps and that are not
    a space (word characters and [= & % @ . -]), and let them follow a
    URL that holds no [?], no [#] and no occurrence of the key. Then the
    extractor returns the same identity, that of the parameter string,
    whether the parameters follow a [?], a [#] or a [/], or follow the
    URL directly when it does not end in [/]. *)
Theorem extract_same_in_all_shapes (pre rest : jsstring) :
  Forall (fun c => c <> 63 /\ c <> 35) pre ->
  includes KEY pre = false ->
  Forall (fun c => safe c = true) rest ->
  extract (pre ++ 63 :: KEY ++ rest) = content_identity (KEY ++ rest) /\
  extract (pre ++ 35 :: KEY ++ rest) = content_identity (KEY ++ rest) /\
  extract (pre ++ 47 :: KEY ++ rest) = content_identity (KEY ++ rest) /\
  (last pre <> Some 47 ->
   extract (pre ++ KEY ++ rest) = content_identity (KEY ++ rest)).
Proof.
  intros Hpre Hkey Hrest. repeat split.
  - now apply query_shape.
  - now apply hash_shape.
  - now apply slash_shape.
  - intros Hlast. now apply scan_shape.
Qed.

Lemma extract_same_in_all_shapes_witness :
  extract (base_url ++ 63 :: KEY ++ plain_rest) =
    content_identity (KEY ++ plain_rest) /\
  extract (base_url ++ 35 :: KEY ++ plain_rest) =
    content_identity (KEY ++ plain_rest) /\
  extract (base_url ++ 47 :: KEY ++ plain_rest) =
    content_identity (KEY ++ plain_rest) /\
  extract (base_url ++ KEY ++ plain_rest) = content_identity (KEY ++ plain_rest).
Proof.
  destruct (extract_same_in_all_shapes base_url plain_rest) as (H1 & H2 & H3 & H4).
  - repeat constructor; discriminate.
  - reflexivity.
  - repeat constructor.
  - split; [exact H1|]. split; [exact H2|]. split; [exact H3|].
    apply H4. discriminate.
Defined.

(** The example of the specification, in its four shapes. *)
Example extract_abc_Bo :
  let found := Some {| id_googleId := Some (js "abc"); id_name := Some (js "Bo");
                       id_email := None; id_picture := None |} in
  content_identity (js "google_id=abc&name=Bo") = found /\
  extract (js "https://h/p?google_id=abc&name=Bo") = found /\
  extract (js "https://h/p#google_id=abc&name=Bo") = found /\
  extract (js "https://h/p/google_id=abc&name=Bo") = found /\
  extract (js "https://h/pgoogle_id=abc&name=Bo") = found.
Proof. vm_compute. repeat split. Qed.

(** ** Fallback synthesis *)

Lemma Number_toString_inj (a b : Z) :
  Number_toString (Int a) = Number_toString (Int b) -> a = b.
Proof.
  intros H. apply (f_equal parseInt) in H. rewrite !parseInt_toString in H.
  now injection H.
Qed.

(** C7: at this input the code departs from the claim. With no name and
    no picture given, the session [mockGoogleLogin] builds has the e-mail
    address as user name, and as picture the avatar address generated
    for the label ["User"]; keyed by the user name, as the claim says and
    as [emergencyLogin] and [updateAuthUI] generate it, the address
    would be the one of the last line. *)
Lemma avatar_not_keyed_by_username :
  exists u,
    mock_userData (js "abc") None (Some (js "a@b.c")) None 1700000000000
      (js "k3j9x") = Normal u /\
    username u = Some (JStr (js "a@b.c")) /\
    picture u =
      Some (JStr (js "https://ui-avatars.com/api/?name=User&background=random")) /\
    generated_avatar (js "a@b.c") =
      Normal (js "https://ui-avatars.com/api/?name=a%40b.c&background=random").
Proof. eexists. vm_compute. auto. Qed.

(** X1: the fields of the session [mockGoogleLogin] builds: the user name
    is the name given if there is one, else the e-mail address if there
    is one, else the label ["Local User"]; the user id is ["mock-"]
    followed by the clock in decimal and the token ["mock-token-"]
    followed by the random text, so that other clock values and other
    random texts give other ids and tokens; the picture is the one given
    if there is one, else the avatar address generated for the name
    given if there is one, else for the label ["User"]. No session is
    built only when that address cannot be generated. *)
Theorem fallback_session_fields
    (gid rnd : jsstring) (name mail pic : option jsstring) (now : Z) :
  match mock_userData gid name mail pic now rnd with
  | Normal u =>
      username u =
        Some (JStr (if truthy_str name then or_str name []
                    else if truthy_str mail then or_str mail []
                    else label_Local_User)) /\
      userId u = Some (JStr (mock_prefix ++ Number_toString (Int now))) /\
      token u = Some (JStr (mock_token_prefix ++ rnd)) /\
      googleId u = Some (JStr gid) /\
      (forall (now' : Z) (rnd' : jsstring) (u' : UserData),
         mock_userData gid name mail pic now' rnd' = Normal u' ->
         (now <> now' -> userId u <> userId u') /\
         (rnd <> rnd' -> token u <> token u')) /\
      (if truthy_str pic then picture u = Some (JStr (or_str pic []))
       else exists p,
           generated_avatar (if truthy_str name then or_str name []
                             else label_User) = Normal p /\
           picture u = Some (JStr p))
  | Throw =>
      truthy_str pic = false /\
      generated_avatar (if truthy_str name then or_str name [] else label_User)
        = Throw
  end.
Proof.
  assert (Hname : forall d, or_str name d =
                            if truthy_str name then or_str name [] else d).
  { intros d. destruct name as [[|c s]|]; reflexivity. }
  assert (Hmail : or_str mail label_Local_User =
                  if truthy_str mail then or_str mail [] else label_Local_User).
  { destruct mail as [[|c s]|]; reflexivity. }
  assert (Hfresh : forall u now' rnd' u',
             userId u = Some (JStr (mock_prefix ++ Number_toString (Int now))) ->
             token u = Some (JStr (mock_token_prefix ++ rnd)) ->
             mock_userData gid name mail pic now' rnd' = Normal u' ->
             (now <> now' -> userId u <> userId u') /\
             (rnd <> rnd' -> token u <> token u')).
  { intros u now' rnd' u' Hid Htok Hu'. unfold mock_userData in Hu'.
    assert (userId u' = Some (JStr (mock_prefix ++ Number_toString (Int now'))) /\
            token u' = Some (JStr (mock_token_prefix ++ rnd'))) as [Hid' Htok'].
    { destruct (truthy_str pic); [injection Hu' as <-; auto|].
      destruct (generated_avatar _); [injection Hu' as <-; auto|discriminate]. }
    rewrite Hid, Htok, Hid', Htok'. split; intros Hne [= E]; apply Hne.
    - now apply Number_toString_inj.
    - exact E. }
  destruct (mock_userData gid name mail pic now rnd) as [u|] eqn:E;
    unfold mock_userData in E; rewrite (Hname label_User) in E;
    destruct (truthy_str pic) eqn:Hpic; try discriminate.
  - injection E as E.
    assert (F1 : username u = Some (JStr (if truthy_str name then or_str name []
                                          else if truthy_str mail then or_str mail []
                                          else label_Local_User)))
      by (rewrite <- E; cbn [username]; now rewrite Hname, Hmail).
    assert (F2 : userId u = Some (JStr (mock_prefix ++ Number_toString (Int now))))
      by now rewrite <- E.
    assert (F3 : token u = Some (JStr (mock_token_prefix ++ rnd))) by now rewrite <- E.
    assert (F4 : googleId u = Some (JStr gid)) by now rewrite <- E.
    assert (F5 : picture u = Some (JStr (or_str pic []))) by now rewrite <- E.
    repeat (split; [assumption|]). split; [|assumption].
    intros now' rnd' u' Hu'. now apply (Hfresh u now' rnd' u').
  - destruct (generated_avatar (if truthy_str name then or_str name [] else label_User))
      as [p|] eqn:Hp; [|discriminate].
    injection E as E.
    assert (F1 : username u = Some (JStr (if truthy_str name then or_str name []
                                          else if truthy_str mail then or_str mail []
                                          else label_Local_User)))
      by (rewrite <- E; cbn [username]; now rewrite Hname, Hmail).
    assert (F2 : userId u = Some (JStr (mock_prefix ++ Number_toString (Int now))))
      by now rewrite <- E.
    assert (F3 : token u = Some (JStr (mock_token_prefix ++ rnd))) by now rewrite <- E.
    assert (F4 : googleId u = Some (JStr gid)) by now rewrite <- E.
    assert (F5 : picture u = Some (JStr p)) by now rewrite <- E.
    repeat (split; [assumption|]). split; [|now exists p].
    intros now' rnd' u' Hu'. now apply (Hfresh u now' rnd' u').
  - destruct (generated_avatar (if truthy_str name then or_str name [] else label_User));
      [discriminate|auto].
Qed.

(** With a name given the avatar is keyed by the user name. *)
Example avatar_keyed_by_name :
  exists u,
    mock_userData (js "abc") (Some (js "Bo Li")) (Some (js "a@b.c")) None
      1700000000000 (js "k3j9x") = Normal u /\
    username u = Some (JStr (js "Bo Li")) /\
    picture u =
      Some (JStr (js "https://ui-avatars.com/api/?name=Bo%20Li&background=random")).
Proof. eexists. vm_compute. auto. Qed.

(** ** Orchestration: a failed exchange *)

(** The ways an exchange fails, as the chain sees them. *)
Lemma exchange_failures (i : Identity) :
  exchange_chain i NetworkError = Rejected FetchFailed /\
  (forall status text,
     (status < 200 \/ 299 < status)%Z ->
     exchange_chain i (Response status text) = Rejected (BadStatus status)) /\
  (forall status text,
     (200 <= status <= 299)%Z -> String_trim text = [] ->
     exchange_chain i (Response status text) = Rejected InvalidJSON) /\
  (forall status text,
     (200 <= status <= 299)%Z -> JSON_parse text = None ->
     exchange_chain i (Response status text) = Rejected InvalidJSON) /\
  (forall status text data,
     (200 <= status <= 299)%Z -> String_trim text <> [] ->
     JSON_parse text = Some data -> truthy_opt (get_prop k_token data) = false ->
     exists e, exchange_chain i (Response status text) = Rejected e /\
               (e = NullResponse \/ e = NoToken (get_prop k_error data))).
Proof.
  assert (Hok : forall status, (200 <= status <= 299)%Z ->
                  negb ((200 <=? status)%Z && (status <=? 299)%Z) = false).
  { intros status [H1 H2]. apply Z.leb_le in H1. apply Z.leb_le in H2.
    now rewrite H1, H2. }
  split; [reflexivity|]. unfold exchange_chain, response_data.
  split; [|split; [|split]].
  - intros status text H.
    assert (E : negb ((200 <=? status)%Z && (status <=? 299)%Z) = true).
    { destruct (Z.leb_spec 200 status), (Z.leb_spec status 299);
        try reflexivity; lia. }
    now rewrite E.
  - intros status text H E. now rewrite (Hok status H), E.
  - intros status text H E. rewrite (Hok status H), E.
    now destruct (String_trim text).
  - intros status text data H Hne E Htok. rewrite (Hok status H), E.
    destruct (String_trim text); [congruence|].
    unfold response_userData. rewrite Htok.
    destruct data; eauto.
Qed.

(** C3, as stated, fails: on a host other than the designated ones, a
    failed exchange leaves the storage without a session and shows the
    failure. *)
Lemma failed_exchange_leaves_no_session :
  extract (href exchange_failed_url) =
    Some {| id_googleId := Some (js "abc"); id_name := Some (js "Bo");
            id_email := None; id_picture := None |} /\
  processGoogleLoginData exchange_failed_url NetworkError 1700000000000
    (js "k3j9x") ∅ = (∅, ExchangeFailed FetchFailed) /\
  processGoogleLoginData exchange_failed_url (Response 500 (js "oops"))
    1700000000000 (js "k3j9x") ∅ = (∅, ExchangeFailed (BadStatus 500)) /\
  isLoggedIn
    (processGoogleLoginData exchange_failed_url NetworkError 1700000000000
       (js "k3j9x") ∅).1 = false.
Proof. vm_compute. auto. Qed.

Lemma mockGoogleLogin_refused (host : jsstring) (gid name mail pic : option jsstring)
    (now : Z) (rnd : jsstring) (ls : storage) :
  isAllowedDomain host = false ->
  mockGoogleLogin host gid name mail pic now rnd ls = (false, ls, Silent).
Proof. intros H. unfold mockGoogleLogin. now rewrite H. Qed.

Lemma isAllowedDomain_false (host : jsstring) :
  isAllowedDomain host = false ->
  str_eqb host host_localhost || str_eqb host host_loopback = false /\
  str_eqb host host_site || str_eqb host host_www_site = false.
Proof.
  unfold isAllowedDomain. intros H.
  destruct (str_eqb host host_localhost), (str_eqb host host_loopback),
    (str_eqb host host_site), (str_eqb host host_www_site);
    try discriminate; auto.
Qed.

(** X2: on a designated host no exchange is made: how the request would end
    plays no part. *)
Lemma designated_host_makes_no_exchange
    (loc : Location) (x x' : exchange) (now : Z) (rnd : jsstring) (ls : storage) :
  isAllowedDomain (hostname loc) = true ->
  processGoogleLoginData loc x' now rnd ls = processGoogleLoginData loc x now rnd ls.
Proof.
  intros Hhost. unfold processGoogleLoginData.
  destruct (extract_fields (href loc)) as [[i|]|]; try reflexivity.
  destruct (truthy_str (id_googleId i)); [|reflexivity].
  unfold isAllowedDomain in Hhost.
  destruct (str_eqb (hostname loc) host_localhost || str_eqb (hostname loc) host_loopback)
    eqn:H1; [reflexivity|].
  destruct (str_eqb (hostname loc) host_site || str_eqb (hostname loc) host_www_site)
    eqn:H2; [reflexivity|].
  apply orb_false_iff in H2 as [E3 E4]. rewrite E3, E4 in Hhost. discriminate.
Qed.

(** X3: on a designated host the session is synthesized and stored. *)
Lemma designated_host_synthesizes
    (loc : Location) (i : Identity) (u : UserData) (x : exchange) (now : Z)
    (rnd : jsstring) (ls : storage) :
  isAllowedDomain (hostname loc) = true ->
  extract (href loc) = Some i ->
  mock_userData (or_str (id_googleId i) []) (id_name i) (id_email i)
    (id_picture i) now rnd = Normal u ->
  processGoogleLoginData loc x now rnd ls =
    (delete "usageCount"%string (<["user"%string := JSON_stringify u]> ls),
     Welcome u).
Proof.
  intros Hhost Hi Hu. unfold extract in Hi.
  destruct (extract_fields (href loc)) as [[j|]|] eqn:Ef; try discriminate.
  destruct (truthy_str (id_googleId j)) eqn:Hg; [|discriminate].
  injection Hi as ->. unfold processGoogleLoginData. rewrite Ef, Hg.
  assert (Hm : mockGoogleLogin (hostname loc) (id_googleId i) (id_name i)
                 (id_email i) (id_picture i) now rnd ls =
               (true, delete "usageCount"%string
                        (<["user"%string := JSON_stringify u]> ls), Welcome u)).
  { unfold mockGoogleLogin. now rewrite Hhost, Hg, Hu. }
  rewrite Hm. unfold isAllowedDomain in Hhost.
  destruct (str_eqb (hostname loc) host_localhost || str_eqb (hostname loc) host_loopback)
    eqn:H1; [reflexivity|].
  destruct (str_eqb (hostname loc) host_site || str_eqb (hostname loc) host_www_site)
    eqn:H2; [reflexivity|].
  apply orb_false_iff in H2 as [E3 E4]. rewrite E3, E4 in Hhost. discriminate.
Qed.

(** C3, amended: for every identity read off the URL with a [google_id],
    on every host outside the four designated ones (the hosts on which
    the exchange is attempted), when the exchange fails (the request
    rejected, a status outside 2xx, an empty or unparsable body, a
    response without a token), the [catch] handler calls
    [mockGoogleLogin], which refuses the host: no session is stored, the
    storage is left as it was, and the failure is shown. *)
Theorem failed_exchange_is_surfaced
    (loc : Location) (i : Identity) (x : exchange) (e : exchange_error)
    (now : Z) (rnd : jsstring) (ls : storage) :
  extract (href loc) = Some i ->
  isAllowedDomain (hostname loc) = false ->
  exchange_chain i x = Rejected e ->
  processGoogleLoginData loc x now rnd ls = (ls, ExchangeFailed e).
Proof.
  intros Hi Hhost He. unfold extract in Hi.
  destruct (extract_fields (href loc)) as [[j|]|] eqn:Ef; try discriminate.
  destruct (truthy_str (id_googleId j)) eqn:Hg; [|discriminate].
  injection Hi as ->. unfold processGoogleLoginData. rewrite Ef, Hg.
  destruct (isAllowedDomain_false _ Hhost) as [-> ->].
  unfold after_exchange. rewrite He.
  now rewrite mockGoogleLogin_refused.
Qed.

Lemma failed_exchange_is_surfaced_witness :
  processGoogleLoginData exchange_failed_url (Response 200 (js "{}")) 5 (js "r") ∅
  = (∅, ExchangeFailed (NoToken None)).
Proof.
  apply (failed_exchange_is_surfaced exchange_failed_url
           {| id_googleId := Some (js "abc"); id_name := Some (js "Bo");
              id_email := None; id_picture := None |}
           (Response 200 (js "{}")) (NoToken None) 5 (js "r") ∅).
  - reflexivity.
  - reflexivity.
  - reflexivity.
Defined.

(** On a designated host the session is synthesized without an exchange,
    whatever the network would have answered. *)
Example local_host_synthesizes :
  let loc := {| href := js "http://localhost/page#google_id=x";
                hostname := js "localhost" |} in
  forall x : exchange,
    isLoggedIn (processGoogleLoginData loc x 1700000000000 (js "k3j9x") ∅).1 = true.
Proof. intros loc x. vm_compute. reflexivity. Qed.

(** * Further properties of the session store and the throttle *)

Lemma isLoggedIn_login (u : UserData) (ls : storage) : isLoggedIn (login u ls) = true.
Proof.
  unfold isLoggedIn, login. rewrite lookup_delete_ne by done.
  rewrite lookup_insert_eq. now destruct (stored_session_text u) as [t ->].
Qed.

Lemma incrementUsageCount_logged_in (now : Z) (ls : storage) :
  isLoggedIn ls = true -> incrementUsageCount now ls = (NoPrompt, ls).
Proof. intros H. unfold incrementUsageCount. now rewrite H. Qed.

(** X4: after [login], whatever the session, the visitor counts as logged
    in, no usage counter is stored, and gated actions neither prompt nor
    write anything. *)
Theorem login_makes_uses_free (u : UserData) (ls : storage) (times : list Z) :
  isLoggedIn (login u ls) = true /\
  login u ls !! "usageCount"%string = None /\
  recordUses times (login u ls) = (replicate (length times) NoPrompt, login u ls).
Proof.
  split; [apply isLoggedIn_login|]. split; [apply lookup_delete_eq|].
  induction times as [|t times IH]; [reflexivity|].
  cbn [recordUses length replicate].
  rewrite incrementUsageCount_logged_in by apply isLoggedIn_login.
  now rewrite IH.
Qed.

(** X5: a login followed by a logout forgets the counter: whatever it was
    before, the next uses, up to fourteen, return "no prompt" and the
    counter restarts from one. *)
Theorem login_logout_restarts_counter
    (u : UserData) (ls : storage) (now : Z) (times : list Z) :
  (length times < 14)%nat ->
  recordUses (now :: times) (logout (login u ls)) =
  (replicate (S (length times)) NoPrompt,
   <["usageCount"%string :=
       Number_toString (Int (1 + Z.of_nat (length times)))]>
     (logout (login u ls))).
Proof.
  intros Hlen. rewrite (recordUses_below times now 0); [reflexivity| | |lia].
  - unfold isLoggedIn, logout. now rewrite lookup_delete_eq.
  - unfold logout, login. rewrite lookup_delete_ne by done.
    now rewrite lookup_delete_eq.
Qed.

Lemma login_logout_restarts_counter_witness :
  recordUses [5; 6; 7]%Z
    (logout (login sample_session (<["usageCount"%string := js "14"]> ∅))) =
  (replicate 3 NoPrompt,
   <["usageCount"%string := Number_toString (Int (1 + Z.of_nat 2))]>
     (logout (login sample_session (<["usageCount"%string := js "14"]> ∅)))).
Proof.
  apply (login_logout_restarts_counter sample_session
           (<["usageCount"%string := js "14"]> ∅) 5 [6; 7]%Z).
  cbn. lia.
Defined.

Lemma showLoginPrompt_frame (now : Z) (ls : storage) (k : string) :
  k <> "lastLoginPromptTime"%string ->
  (showLoginPrompt now ls).2 !! k = ls !! k.
Proof.
  intros Hk. unfold showLoginPrompt.
  destruct (_ || _); cbn [snd]; [now rewrite lookup_insert_ne|reflexivity].
Qed.

Lemma incrementUsageCount_frame (now : Z) (ls : storage) (k : string) :
  k <> "usageCount"%string -> k <> "lastLoginPromptTime"%string ->
  (incrementUsageCount now ls).2 !! k = ls !! k.
Proof.
  intros H1 H2. unfold incrementUsageCount.
  destruct (isLoggedIn ls); [reflexivity|].
  destruct (number_ge _ 15); cbn [snd].
  - rewrite showLoginPrompt_frame by assumption. now rewrite lookup_insert_ne.
  - now rewrite lookup_insert_ne.
Qed.

Lemma incrementUsageCount_session (now : Z) (ls : storage) :
  isLoggedIn (incrementUsageCount now ls).2 = isLoggedIn ls.
Proof. unfold isLoggedIn at 1 2. now rewrite incrementUsageCount_frame. Qed.

(** X6: a gated action writes nothing but the counter and the time stamp of
    the prompt: it leaves the session record and every other key as they
    were, and for an anonymous visitor it always leaves a non-empty
    counter behind. *)
Theorem incrementUsageCount_touches_two_keys (now : Z) (ls : storage) :
  let after := (incrementUsageCount now ls).2 in
  isLoggedIn after = isLoggedIn ls /\
  (forall k : string,
     k <> "usageCount"%string -> k <> "lastLoginPromptTime"%string ->
     after !! k = ls !! k) /\
  (isLoggedIn ls = true -> after = ls) /\
  (isLoggedIn ls = false -> exists c s, after !! "usageCount"%string = Some (c :: s)).
Proof.
  cbn zeta. split; [apply incrementUsageCount_session|].
  split; [apply incrementUsageCount_frame|split].
  - intros H. now rewrite incrementUsageCount_logged_in.
  - intros H. unfold incrementUsageCount. rewrite H.
    set (count := increment _).
    destruct (Number_toString_nonempty count) as (c & s & E).
    exists c, s. destruct (number_ge count 15); cbn [snd].
    + rewrite showLoginPrompt_frame by discriminate.
      rewrite lookup_insert_eq. now rewrite E.
    + rewrite lookup_insert_eq. now rewrite E.
Qed.

Lemma prompt_shown_store (now : Z) (ls ls' : storage) :
  incrementUsageCount now ls = (ShowPrompt, ls') ->
  isLoggedIn ls = false /\
  exists n : Z, (15 <= n)%Z /\
    ls' = <["lastLoginPromptTime"%string := Number_toString (Int now)]>
            (<["usageCount"%string := Number_toString (Int n)]> ls).
Proof.
  unfold incrementUsageCount. destruct (isLoggedIn ls); [discriminate|].
  destruct (parseInt _) as [|z]; cbn [increment number_ge]; [discriminate|].
  destruct (Z.leb_spec 15 (z + 1)) as [Hge|]; [|discriminate].
  unfold showLoginPrompt. destruct (_ || _); [|discriminate]. intros [= <-].
  split; [reflexivity|]. now exists (z + 1)%Z.
Qed.



Lemma use_during_cooldown (t t0 : Z) (ls : storage) :
  ls !! "lastLoginPromptTime"%string = Some (Number_toString (Int t0)) ->
  (t - t0 <= 3600000)%Z ->
  (incrementUsageCount t ls).1 = NoPrompt /\
  (incrementUsageCount t ls).2 !! "lastLoginPromptTime"%string =
    Some (Number_toString (Int t0)).
Proof.
  intros Hl Ht. unfold incrementUsageCount.
  destruct (isLoggedIn ls); [auto|].
  destruct (number_ge _ 15).
  - rewrite (showLoginPrompt_closed t t0); [|now rewrite lookup_insert_ne|assumption].
    cbn [fst snd]. now rewrite lookup_insert_ne.
  - cbn [fst snd]. now rewrite lookup_insert_ne.
Qed.

(** X8: at most one prompt per window: once a use at [t0] has shown the
    prompt, no use whose time lies within 3600 seconds of [t0] shows it
    again, however many there are and whatever becomes of the counter. *)
Theorem one_prompt_per_window (t0 : Z) (ls ls' : storage) (times : list Z) :
  incrementUsageCount t0 ls = (ShowPrompt, ls') ->
  Forall (fun t => t - t0 <= 3600000)%Z times ->
  (recordUses times ls').1 = replicate (length times) NoPrompt.
Proof.
  intros Hshow Hall.
  apply prompt_shown_store in Hshow as (_ & n & _ & ->).
  assert (Hl : <["lastLoginPromptTime"%string := Number_toString (Int t0)]>
                 (<["usageCount"%string := Number_toString (Int n)]> ls)
                 !! "lastLoginPromptTime"%string = Some (Number_toString (Int t0)))
    by apply lookup_insert_eq.
  revert Hl.
  generalize (<["lastLoginPromptTime"%string := Number_toString (Int t0)]>
                (<["usageCount"%string := Number_toString (Int n)]> ls)).
  intros ls' Hl.
  revert ls' Hl. induction Hall as [|t times Ht Hall IH]; intros ls' Hl; [reflexivity|].
  cbn [recordUses length replicate].
  destruct (use_during_cooldown t t0 ls' Hl Ht) as [Hd Hl'].
  destruct (incrementUsageCount t ls') as [d l]. cbn [fst snd] in Hd, Hl'.
  specialize (IH l Hl'). destruct (recordUses times l) as [ds l'].
  cbn [fst] in *. now rewrite Hd, IH.
Qed.

Lemma one_prompt_per_window_witness :
  (recordUses [1500; 2000; 3601000]%Z
     (<["lastLoginPromptTime"%string := js "1000"]>
        (<["usageCount"%string := js "15"]> (∅ : storage)))).1 =
  replicate 3 NoPrompt.
Proof.
  apply (one_prompt_per_window 1000 (<["usageCount"%string := js "14"]> ∅)
           (<["lastLoginPromptTime"%string := js "1000"]>
              (<["usageCount"%string := js "15"]> ∅))
           [1500; 2000; 3601000]%Z).
  - reflexivity.
  - repeat constructor; lia.
Defined.

(** X9: loading twice is loading once: a second [getCurrentUser] returns
    what the first returned and changes nothing more; and a record that
    still counts as logged in after a load is one that deserialized to
    the value returned. *)
Theorem getCurrentUser_idempotent (ls : storage) :
  getCurrentUser (getCurrentUser ls).2 = getCurrentUser ls /\
  (isLoggedIn (getCurrentUser ls).2 = true ->
   exists s, ls !! "user"%string = Some s /\
             JSON_parse s = Some (getCurrentUser ls).1).
Proof.
  unfold getCurrentUser, isLoggedIn.
  destruct (ls !! "user"%string) as [[|c s]|] eqn:E;
    cbn [truthy_str negb or_str fst snd].
  - rewrite E. cbn [truthy_str negb]. split; [reflexivity|discriminate].
  - destruct (JSON_parse (c :: s)) as [v|] eqn:P; cbn [fst snd].
    + rewrite E. cbn [truthy_str negb or_str]. rewrite P. split; [reflexivity|].
      intros _. now exists (c :: s).
    + rewrite lookup_delete_eq. cbn [truthy_str negb]. split; [reflexivity|discriminate].
  - rewrite E. cbn [truthy_str negb]. split; [reflexivity|discriminate].
Qed.

(** * Further properties of the fallback and of the other ways in *)

Lemma load_after_login (u : UserData) (ls : storage) :
  session_shaped u ->
  getCurrentUser (login u ls) = (JObj (defined_members u), login u ls).
Proof.
  intros Hu. unfold getCurrentUser.
  assert (Hl : login u ls !! "user"%string = Some (JSON_stringify u)).
  { unfold login. rewrite lookup_delete_ne by done. apply lookup_insert_eq. }
  rewrite Hl. destruct (stored_session_text u) as [t Ht]. rewrite Ht.
  cbn [truthy_str negb or_str]. rewrite <- Ht. unfold JSON_stringify.
  now rewrite JSON_parse_stringify_object by now apply defined_members_plain.
Qed.

Lemma mock_userData_shaped (gid rnd : jsstring) (name mail pic : option jsstring)
    (now : Z) (u : UserData) :
  mock_userData gid name mail pic now rnd = Normal u -> session_shaped u.
Proof.
  unfold mock_userData. destruct (truthy_str pic).
  - intros [= <-]. repeat split.
  - destruct (generated_avatar _); [|discriminate]. intros [= <-]. repeat split.
Qed.

Lemma mockGoogleLogin_cases (host : jsstring) (gid name mail pic : option jsstring)
    (now : Z) (rnd : jsstring) (ls : storage) :
  mockGoogleLogin host gid name mail pic now rnd ls = (false, ls, Silent) \/
  (isAllowedDomain host = true /\ truthy_str gid = true /\
   exists u,
     mock_userData (or_str gid []) name mail pic now rnd = Normal u /\
     mockGoogleLogin host gid name mail pic now rnd ls =
       (true, login u ls, Welcome u)).
Proof.
  unfold mockGoogleLogin. destruct (isAllowedDomain host); [|now left].
  destruct (truthy_str gid); [|now left]. cbn [negb].
  destruct (mock_userData _ name mail pic now rnd) as [u|] eqn:E; [|now left].
  right. repeat split. now exists u.
Qed.

(** X10: [mockGoogleLogin] stores a whole session or nothing. When it
    returns [false] the storage is as it was and nothing is shown; when
    it returns [true] the host is a designated one, the storage is what
    [login] makes of it for the session built, and [getCurrentUser] reads
    that session back, field by field. *)
Theorem mockGoogleLogin_stores_or_leaves
    (host : jsstring) (gid name mail pic : option jsstring) (now : Z)
    (rnd : jsstring) (ls : storage) :
  let '(ok, ls', shown) := mockGoogleLogin host gid name mail pic now rnd ls in
  if ok then
    isAllowedDomain host = true /\
    exists u,
      mock_userData (or_str gid []) name mail pic now rnd = Normal u /\
      ls' = login u ls /\ shown = Welcome u /\
      isLoggedIn ls' = true /\
      getCurrentUser ls' = (JObj (defined_members u), ls')
  else ls' = ls /\ shown = Silent.
Proof.
  destruct (mockGoogleLogin_cases host gid name mail pic now rnd ls)
    as [->|(Hh & _ & u & Hu & ->)]; [now split|].
  split; [assumption|]. exists u. repeat split; try assumption.
  - apply isLoggedIn_login.
  - apply load_after_login. eapply mock_userData_shaped, Hu.
Qed.

Lemma after_exchange_store (host : jsstring) (i : Identity) (x : exchange)
    (now : Z) (rnd : jsstring) (ls : storage) :
  (after_exchange host i x now rnd ls).1 = ls \/
  exists u, (after_exchange host i x now rnd ls).1 = login u ls.
Proof.
  unfold after_exchange. destruct (exchange_chain i x) as [u|e]; [right; now exists u|].
  destruct (mockGoogleLogin_cases host (id_googleId i) (id_name i) (id_email i)
              (id_picture i) now rnd ls) as [->|(_ & _ & u & _ & ->)];
    [now left|right; now exists u].
Qed.

(** X11: [processGoogleLoginData] stores a whole session or nothing: in every
    case, whatever the address, the host and the answer of the network,
    the storage afterwards is the storage before, or what [login] makes
    of it for some session: then the visitor counts as logged in and no
    usage counter is left. *)
Theorem processGoogleLoginData_stores_or_leaves
    (loc : Location) (x : exchange) (now : Z) (rnd : jsstring) (ls : storage) :
  let after := (processGoogleLoginData loc x now rnd ls).1 in
  after = ls \/
  (exists u, after = login u ls) /\
  isLoggedIn after = true /\ after !! "usageCount"%string = None.
Proof.
  cbn zeta.
  assert (H : (processGoogleLoginData loc x now rnd ls).1 = ls \/
              exists u, (processGoogleLoginData loc x now rnd ls).1 = login u ls).
  { unfold processGoogleLoginData.
    destruct (extract_fields (href loc)) as [[i|]|]; try now left.
    destruct (truthy_str (id_googleId i)); [|now left].
    assert (Hm : forall r : bool * storage * notice,
               r = mockGoogleLogin (hostname loc) (id_googleId i) (id_name i)
                     (id_email i) (id_picture i) now rnd ls ->
               (let '(_, ls', shown) := r in (ls', shown)).1 = ls \/
               exists u, (let '(_, ls', shown) := r in (ls', shown)).1 = login u ls).
    { intros r ->.
      destruct (mockGoogleLogin_cases (hostname loc) (id_googleId i) (id_name i)
                  (id_email i) (id_picture i) now rnd ls)
        as [->|(_ & _ & u & _ & ->)]; [now left|right; now exists u]. }
    destruct (_ || _); [now apply Hm|].
    destruct (_ || _); [now apply Hm|]. apply after_exchange_store. }
  destruct H as [H|[u H]]; [now left|right]. rewrite H.
  split; [now exists u|]. split; [apply isLoggedIn_login|apply lookup_delete_eq].
Qed.

(** A page on a designated host, with the parameters in the fragment. *)
Lemma designated_host_makes_no_exchange_witness :
  processGoogleLoginData
    {| href := js "http://localhost/page#google_id=x"; hostname := js "localhost" |}
    NetworkError 5 (js "r") ∅ =
  processGoogleLoginData
    {| href := js "http://localhost/page#google_id=x"; hostname := js "localhost" |}
    (Response 200 (js "{}")) 5 (js "r") ∅.
Proof.
  apply (designated_host_makes_no_exchange
           {| href := js "http://localhost/page#google_id=x";
              hostname := js "localhost" |}
           (Response 200 (js "{}")) NetworkError 5 (js "r") ∅).
  reflexivity.
Defined.

Lemma designated_host_synthesizes_witness :
  exists u,
    processGoogleLoginData
      {| href := js "http://localhost/page#google_id=x&picture=p";
         hostname := js "localhost" |}
      NetworkError 5 (js "r") ∅ =
    (delete "usageCount"%string (<["user"%string := JSON_stringify u]> ∅),
     Welcome u).
Proof.
  eexists.
  apply (designated_host_synthesizes
           {| href := js "http://localhost/page#google_id=x&picture=p";
              hostname := js "localhost" |}
           {| id_googleId := Some (js "x"); id_name := None; id_email := None;
              id_picture := Some (js "p") |}
           _ NetworkError 5 (js "r") ∅).
  - reflexivity.
  - reflexivity.
  - reflexivity.
Defined.




(** X13: [emergencyLogin] asks for no host: whenever the avatar address can
    be generated for the name it shows, it logs the visitor in and
    clears the counter, and the session [getCurrentUser] then reads has
    that name, the avatar generated for that very name, and no e-mail
    address, even when one was given. It stores nothing only when it
    throws, which is when [encodeURIComponent] does. *)
Theorem emergencyLogin_round_trip
    (name mail : option jsstring) (now now' : Z) (rnd : jsstring) (ls : storage) :
  match emergencyLogin name mail now now' rnd ls with
  | Normal ls' =>
      isLoggedIn ls' = true /\ ls' !! "usageCount"%string = None /\
      (getCurrentUser ls').2 = ls' /\
      let loaded := (getCurrentUser ls').1 in
      get_prop k_username loaded = Some (JStr (emergency_name name mail)) /\
      (exists p, generated_avatar (emergency_name name mail) = Normal p /\
                 get_prop k_picture loaded = Some (JStr p)) /\
      get_prop k_email loaded = None
  | Throw => encodeURIComponent (emergency_name name mail) = None
  end.
Proof.
  assert (Hn : or_str name (or_str mail label_Emergency_User) =
               emergency_name name mail).
  { unfold emergency_name. now destruct name as [[|a s]|], mail as [[|b t]|]. }
  unfold emergencyLogin, emergency_userData. rewrite Hn.
  unfold generated_avatar at 1.
  destruct (encodeURIComponent (emergency_name name mail)) as [e|] eqn:He;
    [|reflexivity].
  set (u := Build_UserData _ _ _ _ _ _).
  assert (Hu : session_shaped u) by (repeat split).
  split; [apply isLoggedIn_login|]. split; [apply lookup_delete_eq|].
  rewrite (load_after_login u ls Hu). cbn [fst snd]. split; [reflexivity|].
  destruct (get_prop_defined_members u) as (_ & H2 & _ & _ & H5 & H6).
  rewrite H2, H5, H6. split; [reflexivity|]. split; [|reflexivity].
  eexists. split; [|reflexivity]. unfold generated_avatar. now rewrite He.
Qed.

(** X14: after a click on the login/logout link nobody is logged in: a
    visitor who counted as logged in is logged out, any other is sent to
    the login page; and but for the session record and the note of the
    redirect the storage is as it was. *)
Theorem navLoginClick_leaves_logged_out (page : Page) (iso : jsstring) (ls : storage) :
  match navLoginClick page iso ls with
  | Normal (target, ls') =>
      isLoggedIn ls' = false /\
      (target = None <-> isLoggedIn ls = true) /\
      (forall k : string,
         k <> "user"%string -> k <> "lastGoogleRedirect"%string ->
         ls' !! k = ls !! k)
  | Throw => isLoggedIn ls = false
  end.
Proof.
  unfold navLoginClick. destruct (isLoggedIn ls) eqn:Hin.
  - split; [|split].
    + unfold isLoggedIn, logout. now rewrite lookup_delete_eq.
    + tauto.
    + intros k Hk _. unfold logout. now rewrite lookup_delete_ne.
  - unfold handleGoogleLogin.
    destruct (encodeURIComponent _); [|reflexivity].
    split; [|split].
    + now rewrite isLoggedIn_insert.
    + split; discriminate.
    + intros k _ Hk. now rewrite lookup_insert_ne.
Qed.

Lemma includes_tail (c : N) (n s : jsstring) :
  includes (c :: n) s = true -> includes n s = true.
Proof.
  unfold includes, indexOf. generalize 0%nat at 1 as i. generalize 0%nat as j.
  induction s as [|a s IH]; intros j i.
  - cbn. discriminate.
  - rewrite (indexOf_from_eq (c :: n)), (indexOf_from_eq n).
    destruct (startsWith n (a :: s)); [reflexivity|].
    cbn [startsWith]. destruct (c =? a); cbn [andb]; [|apply IH].
    destruct (startsWith n s) eqn:E; [|apply IH].
    intros _. rewrite indexOf_from_eq, E. reflexivity.
Qed.

(** X15: [testLoginFromCurrentUrl] stores a whole session or nothing, and
    never throws. When it returns [false] the storage is as it was; it
    returns [true] only on a designated host and for an address holding
    the key, and then the storage is what [login] makes of it for a
    session that [getCurrentUser] reads back. *)
Theorem testLogin_stores_or_leaves
    (loc : Location) (now : Z) (rnd : jsstring) (ls : storage) :
  let '(ok, ls', shown) := testLoginFromCurrentUrl loc now rnd ls in
  if ok then
    isAllowedDomain (hostname loc) = true /\
    includes KEY (href loc) = true /\
    exists u,
      ls' = login u ls /\ shown = Welcome u /\
      isLoggedIn ls' = true /\
      getCurrentUser ls' = (JObj (defined_members u), ls')
  else ls' = ls /\ shown = Silent.
Proof.
  unfold testLoginFromCurrentUrl.
  destruct (includes KEY (href loc)); [|now split].
  destruct (testLogin_fields (href loc)) as [i|]; [|now split].
  destruct (truthy_str (id_googleId i)); [|now split].
  destruct (mockGoogleLogin_cases (hostname loc) (id_googleId i) (id_name i)
              (id_email i) (id_picture i) now rnd ls)
    as [->|(Hh & _ & u & Hu & ->)]; [now split|].
  split; [assumption|]. split; [reflexivity|]. exists u.
  repeat split.
  - apply isLoggedIn_login.
  - apply load_after_login. eapply mock_userData_shaped, Hu.
Qed.

(** X16: on a designated host, for an address with the key right after the
    question mark or the number sign, [testLoginFromCurrentUrl] leaves
    the storage as [processGoogleLoginData] does, and when it returns
    [true] it shows what [processGoogleLoginData] shows. *)
Theorem testLogin_agrees_with_processing
    (loc : Location) (x : exchange) (now : Z) (rnd : jsstring) (ls : storage) :
  isAllowedDomain (hostname loc) = true ->
  includes QUERY_KEY (href loc) = true \/ includes HASH_KEY (href loc) = true ->
  let '(ok, ls', shown) := testLoginFromCurrentUrl loc now rnd ls in
  ls' = (processGoogleLoginData loc x now rnd ls).1 /\
  (ok = true -> shown = (processGoogleLoginData loc x now rnd ls).2).
Proof.
  intros Hhost Hshape.
  assert (Hf : exists i, extract_fields (href loc) = Normal (Some i) /\
                         includes KEY (href loc) = true /\
                         testLogin_fields (href loc) = Normal i).
  { unfold extract_fields, testLogin_fields.
    destruct (includes KEY (href loc)) eqn:Hk.
    - destruct (includes QUERY_KEY (href loc)); [eauto|].
      destruct Hshape as [|Hh]; [discriminate|]. rewrite Hh.
      destruct (split [35] (href loc) !! 1%nat); eauto.
    - exfalso. destruct Hshape as [H|H].
      + apply (includes_tail 63 KEY) in H. congruence.
      + apply (includes_tail 35 KEY) in H. congruence. }
  destruct Hf as (i & He & Hk & Ht).
  unfold testLoginFromCurrentUrl, processGoogleLoginData. rewrite He, Hk, Ht.
  destruct (truthy_str (id_googleId i)); [|split; [reflexivity|discriminate]].
  destruct (mockGoogleLogin (hostname loc) (id_googleId i) (id_name i)
              (id_email i) (id_picture i) now rnd ls) as [[ok ls'] shown].
  unfold isAllowedDomain in Hhost.
  destruct (str_eqb (hostname loc) host_localhost || str_eqb (hostname loc) host_loopback)
    eqn:H1; [now split|].
  destruct (str_eqb (hostname loc) host_site || str_eqb (hostname loc) host_www_site)
    eqn:H2; [now split|].
  apply orb_false_iff in H2 as [E3 E4]. rewrite E3, E4 in Hhost. discriminate.
Qed.

Lemma testLogin_agrees_with_processing_witness :
  let '(ok, ls', shown) := testLoginFromCurrentUrl local_query_url 5 (js "r") ∅ in
  ls' = (processGoogleLoginData local_query_url NetworkError 5 (js "r") ∅).1 /\
  (ok = true ->
   shown = (processGoogleLoginData local_query_url NetworkError 5 (js "r") ∅).2).
Proof.
  apply (testLogin_agrees_with_processing local_query_url NetworkError 5 (js "r") ∅).
  - reflexivity.
  - left. reflexivity.
Defined.

(** * Further properties of the text functions *)

(** ** Paragraphs *)

Lemma line_breaks_no_line_feed (p : jsstring) :
  Forall (fun c => c <> 10) (line_breaks p).
Proof.
  induction p as [|c p IH]; [constructor|].
  unfold line_breaks. cbn [flat_map]. apply Forall_app. split; [|exact IH].
  destruct (N.eqb_spec c 10); [|now repeat constructor].
  repeat constructor; discriminate.
Qed.

Lemma line_breaks_plain (p : jsstring) :
  Forall (fun c => c <> 10) p -> line_breaks p = p.
Proof.
  induction 1 as [|c p Hc _ IH]; [reflexivity|].
  unfold line_breaks in *. cbn [flat_map].
  destruct (N.eqb_spec c 10); [contradiction|]. cbn [app]. now rewrite IH.
Qed.

Lemma split_blank_lines_nonempty (s : jsstring) : forall (m : bool) (cur : jsstring),
  exists p l, split_blank_lines m s cur = p :: l.
Proof.
  induction s as [|c s IH]; intros m cur; [cbn; eauto|].
  cbn [split_blank_lines]. destruct m.
  - destruct (c =? 10); apply IH.
  - destruct (c =? 10); [|apply IH].
    destruct s as [|d s']; [apply IH|]. destruct (d =? 10); [eauto|apply IH].
Qed.

Lemma split_blank_lines_plain (s : jsstring) : forall cur : jsstring,
  Forall (fun c => c <> 10) s ->
  split_blank_lines false s cur = [rev cur ++ s].
Proof.
  induction s as [|c s IH]; intros cur Hs.
  - cbn. now rewrite app_nil_r.
  - apply Forall_cons in Hs as [Hc Hs]. cbn [split_blank_lines].
    destruct (N.eqb_spec c 10); [contradiction|].
    rewrite IH by assumption. cbn [rev]. now rewrite <- app_assoc.
Qed.

Lemma paragraphs_bracketed (l : list jsstring) (p : jsstring) :
  exists body,
    concat (map (fun q => tag_p ++ line_breaks q ++ tag_p_end) (p :: l)) =
    tag_p ++ body ++ tag_p_end.
Proof.
  destruct l as [|q l _] using rev_ind.
  - exists (line_breaks p). cbn [map concat]. now rewrite app_nil_r.
  - exists (line_breaks p ++ tag_p_end ++
            concat (map (fun q => tag_p ++ line_breaks q ++ tag_p_end) l) ++
            tag_p ++ line_breaks q).
    cbn [map concat]. rewrite map_app, concat_app. cbn [map concat].
    rewrite app_nil_r. now rewrite <- ?app_assoc.
Qed.

(** X17: no line feed is left in the text [formatParagraphs] returns, which
    always opens with [<p>] and closes with [</p>], also for the empty
    text; a text without line feeds is one paragraph. *)
Theorem formatParagraphs_leaves_no_line_feed (text : jsstring) :
  Forall (fun c => c <> 10) (formatParagraphs text) /\
  (exists body, formatParagraphs text = tag_p ++ body ++ tag_p_end) /\
  (Forall (fun c => c <> 10) text ->
   formatParagraphs text = tag_p ++ text ++ tag_p_end).
Proof.
  unfold formatParagraphs. split; [|split].
  - induction (split_blank_lines false text []) as [|p l IH]; [constructor|].
    cbn [map concat]. rewrite !Forall_app. split; [|exact IH].
    split; [now repeat constructor|]. split; [apply line_breaks_no_line_feed|].
    now repeat constructor.
  - destruct (split_blank_lines_nonempty text false []) as (p & l & ->).
    apply paragraphs_bracketed.
  - intros Ht. rewrite split_blank_lines_plain by assumption.
    cbn [rev app map concat]. rewrite line_breaks_plain by assumption.
    now rewrite app_nil_r.
Qed.

Lemma split_blank_lines_skip (n : nat) (b cur : jsstring) :
  split_blank_lines true (replicate n 10 ++ b) cur = split_blank_lines true b cur.
Proof. induction n as [|n IH]; [reflexivity|]. cbn. exact IH. Qed.

Lemma split_blank_lines_resume (b cur : jsstring) :
  head b <> Some 10 ->
  split_blank_lines true b cur = split_blank_lines false b cur.
Proof.
  destruct b as [|c b]; [reflexivity|]. cbn [head split_blank_lines]. intros Hc.
  destruct (N.eqb_spec c 10); [congruence|reflexivity].
Qed.

Lemma last_not_line_feed (c : N) (a : jsstring) :
  last (c :: a) <> Some 10 ->
  last a <> Some 10 /\ (c = 10 -> a <> []).
Proof.
  destruct a as [|d a]; cbn [last].
  - intros H. split; [discriminate|]. intros ->. contradiction.
  - intros H. split; [exact H|discriminate].
Qed.

Lemma split_blank_lines_line_feed (d : N) (s cur : jsstring) :
  split_blank_lines false (10 :: d :: s) cur =
  if d =? 10 then rev cur :: split_blank_lines true (d :: s) []
  else split_blank_lines false (d :: s) (10 :: cur).
Proof. reflexivity. Qed.

Lemma split_blank_lines_gap (k : nat) (b : jsstring) (a : jsstring) :
  forall (m : bool) (cur : jsstring),
  last a <> Some 10 -> (m = true -> a <> []) -> head b <> Some 10 ->
  split_blank_lines m (a ++ replicate (2 + k) 10 ++ b) cur =
  split_blank_lines m a cur ++ split_blank_lines false b [].
Proof.
  induction a as [|c a IH]; intros m cur Hlast Hm Hb.
  - destruct m; [now exfalso; apply Hm|]. cbn.
    rewrite split_blank_lines_skip. now rewrite split_blank_lines_resume.
  - apply last_not_line_feed in Hlast as [Hlast Hc]. destruct m.
    + cbn [app split_blank_lines]. destruct (N.eqb_spec c 10) as [E|E].
      * apply IH; [assumption|intros _; now apply Hc|assumption].
      * apply IH; [assumption|discriminate|assumption].
    + destruct (N.eqb_spec c 10) as [E|E].
      * destruct a as [|d a]; [now exfalso; apply Hc|]. subst c.
        change ((10 :: d :: a) ++ replicate (2 + k) 10 ++ b)
          with (10 :: d :: (a ++ replicate (2 + k) 10 ++ b)).
        rewrite !split_blank_lines_line_feed.
        change (d :: (a ++ replicate (2 + k) 10 ++ b))
          with ((d :: a) ++ replicate (2 + k) 10 ++ b).
        destruct (d =? 10).
        -- rewrite IH by (assumption || discriminate). reflexivity.
        -- rewrite IH by (assumption || discriminate). reflexivity.
      * cbn [app split_blank_lines]. destruct (N.eqb_spec c 10); [contradiction|].
        apply IH; [assumption|discriminate|assumption].
Qed.

(** X18: a run of two or more line feeds separates paragraphs: the text
    before it and the text after it are formatted on their own, provided
    the run is whole, that is, the first does not end and the second does
    not begin with a line feed. *)
Theorem formatParagraphs_blank_lines (a b : jsstring) (k : nat) :
  last a <> Some 10 -> head b <> Some 10 ->
  formatParagraphs (a ++ replicate (2 + k) 10 ++ b) =
  formatParagraphs a ++ formatParagraphs b.
Proof.
  intros Ha Hb. unfold formatParagraphs.
  rewrite split_blank_lines_gap by (assumption || discriminate).
  now rewrite map_app, concat_app.
Qed.

Lemma formatParagraphs_blank_lines_witness :
  formatParagraphs (js "I fly" ++ replicate (2 + 1) 10 ++ js "I fall") =
  formatParagraphs (js "I fly") ++ formatParagraphs (js "I fall").
Proof.
  apply (formatParagraphs_blank_lines (js "I fly") (js "I fall") 1).
  - vm_compute. discriminate.
  - vm_compute. discriminate.
Defined.

(** ** Cutting at a unit *)

Lemma split_on_none (c : N) (s : jsstring) : forall cur : jsstring,
  Forall (fun x => x <> c) s -> split_on c s cur = [rev cur ++ s].
Proof.
  induction s as [|x s IH]; intros cur Hs.
  - cbn. now rewrite app_nil_r.
  - apply Forall_cons in Hs as [Hx Hs]. cbn [split_on].
    destruct (N.eqb_spec x c); [contradiction|].
    rewrite IH by assumption. cbn [rev]. now rewrite <- app_assoc.
Qed.

Lemma split_on_first (c : N) (b : jsstring) (a : jsstring) : forall cur : jsstring,
  Forall (fun x => x <> c) a ->
  split_on c (a ++ c :: b) cur = (rev cur ++ a) :: split_on c b [].
Proof.
  induction a as [|x a IH]; intros cur Ha.
  - cbn [app split_on]. rewrite N.eqb_refl. now rewrite app_nil_r.
  - apply Forall_cons in Ha as [Hx Ha]. cbn [app split_on].
    destruct (N.eqb_spec x c); [contradiction|].
    rewrite IH by assumption. cbn [rev]. now rewrite <- app_assoc.
Qed.

Lemma split_on_nonempty (c : N) (s : jsstring) : forall cur : jsstring,
  exists p l, split_on c s cur = p :: l.
Proof.
  induction s as [|x s IH]; intros cur; cbn [split_on]; [eauto|].
  destruct (x =? c); [eauto|apply IH].
Qed.

Lemma split_on_sub (P : N -> Prop) (c : N) (s : jsstring) : forall cur : jsstring,
  Forall P s -> Forall P cur -> Forall (Forall P) (split_on c s cur).
Proof.
  induction s as [|x s IH]; intros cur Hs Hcur; cbn [split_on].
  - repeat constructor. now apply Forall_rev.
  - apply Forall_cons in Hs as [Hx Hs]. destruct (x =? c).
    + constructor; [now apply Forall_rev|]. apply IH; [assumption|constructor].
    + apply IH; [assumption|now constructor].
Qed.

Lemma split_on_free (c : N) (s : jsstring) : forall cur : jsstring,
  Forall (fun x => x <> c) cur ->
  Forall (Forall (fun x => x <> c)) (split_on c s cur).
Proof.
  induction s as [|x s IH]; intros cur Hcur; cbn [split_on].
  - repeat constructor. now apply Forall_rev.
  - destruct (N.eqb_spec x c).
    + constructor; [now apply Forall_rev|]. apply IH. constructor.
    + apply IH. now constructor.
Qed.

Lemma first_unit (c : N) (s : jsstring) :
  Forall (fun x => x <> c) s \/
  exists a b, s = a ++ c :: b /\ Forall (fun x => x <> c) a.
Proof.
  induction s as [|x s IH]; [left; constructor|].
  destruct (N.eq_dec x c) as [->|Hx].
  - right. exists [], s. split; [reflexivity|constructor].
  - destruct IH as [IH|(a & b & -> & Ha)].
    + left. now constructor.
    + right. exists (x :: a), b. split; [reflexivity|now constructor].
Qed.

Lemma join_Forall (P : N -> Prop) (sep : N) (l : list jsstring) :
  P sep -> Forall (Forall P) l -> Forall P (join sep l).
Proof.
  intros Hsep. induction 1 as [|x l Hx Hl IH]; [constructor|].
  destruct l as [|y l]; [exact Hx|].
  change (join sep (x :: y :: l)) with (x ++ sep :: join sep (y :: l)).
  apply Forall_app. split; [exact Hx|]. now constructor.
Qed.

Lemma split_on_join (c : N) (l : list jsstring) :
  l <> [] -> Forall (Forall (fun x => x <> c)) l ->
  split_on c (join c l) [] = l.
Proof.
  intros Hne Hl. induction Hl as [|x l Hx Hl IH]; [contradiction|].
  destruct l as [|y l].
  - cbn [join]. now rewrite split_on_none.
  - change (join c (x :: y :: l)) with (x ++ c :: join c (y :: l)).
    rewrite split_on_first by assumption. cbn [rev app]. f_equal.
    now apply IH.
Qed.

Lemma indexOf_unit_first (c : N) (a b : jsstring) :
  Forall (fun x => x <> c) a -> indexOf [c] (a ++ c :: b) = Some (length a).
Proof.
  intros Ha. unfold indexOf.
  rewrite (indexOf_from_app_first [c] (c :: b) a 0%nat); [reflexivity| |].
  - now apply unit_not_before.
  - cbn. now rewrite N.eqb_refl.
Qed.

Lemma split_unit_none (c : N) (s : jsstring) :
  Forall (fun x => x <> c) s -> split [c] s = [s].
Proof.
  intros Hs. unfold split. destruct (length s); [reflexivity|].
  cbn [split_fuel]. unfold indexOf. now rewrite indexOf_from_absent_unit.
Qed.

Lemma split_unit_first (c : N) (a b : jsstring) :
  Forall (fun x => x <> c) a -> split [c] (a ++ c :: b) = a :: split [c] b.
Proof.
  intros Ha. unfold split. rewrite length_app. cbn [length].
  rewrite Nat.add_succ_r. cbn [split_fuel].
  rewrite indexOf_unit_first by assumption.
  rewrite take_app_length. f_equal.
  replace (length a + length [c])%nat with (length (a ++ [c])) by now rewrite length_app.
  replace (a ++ c :: b) with ((a ++ [c]) ++ b) by now rewrite <- app_assoc.
  rewrite drop_app_length.
  apply split_fuel_enough; [discriminate|lia|lia].
Qed.

Lemma split_unit (c : N) (s : jsstring) : split [c] s = split_on c s [].
Proof.
  remember (length s) as n eqn:Hn.
  assert (Hle : (length s <= n)%nat) by lia. clear Hn.
  revert s Hle. induction n as [|n IH]; intros s Hle.
  - destruct s; [reflexivity|cbn in Hle; lia].
  - destruct (first_unit c s) as [Hs|(a & b & -> & Ha)].
    + rewrite split_unit_none, split_on_none by assumption. reflexivity.
    + rewrite split_unit_first, split_on_first by assumption. cbn [rev app].
      f_equal. apply IH. rewrite length_app in Hle. cbn [length] in Hle. lia.
Qed.

(** ** The main domain *)

(** X19: what [extractMainDomain] returns holds no slash and at most one
    dot: it is one label, or two labels with a dot between them. *)
Theorem extractMainDomain_shape (url : jsstring) :
  let d := extractMainDomain url in
  Forall (fun c => c <> 47) d /\
  (Forall (fun c => c <> 46) d \/
   exists a b, d = a ++ 46 :: b /\
               Forall (fun c => c <> 46) a /\ Forall (fun c => c <> 46) b).
Proof.
  cbn zeta. unfold extractMainDomain. rewrite !split_unit.
  set (s := strip_scheme_www url).
  set (hostname := default [] (split_on 47 s [] !! 0%nat)).
  assert (Hh : Forall (fun c => c <> 47) hostname).
  { unfold hostname. pose proof (split_on_free 47 s [] ltac:(constructor)) as H.
    destruct (split_on 47 s []) as [|h t]; [constructor|].
    now apply Forall_cons in H as [H _]. }
  pose proof (split_on_free 46 hostname [] ltac:(constructor)) as F1.
  pose proof (split_on_sub _ 46 hostname [] Hh ltac:(constructor)) as F2.
  destruct (Nat.leb_spec 2 (length (split_on 46 hostname []))) as [Hlen|Hlen].
  - set (parts := split_on 46 hostname []) in *.
    apply (Forall_drop _ (length parts - 2)) in F1, F2.
    assert (Hd : length (drop (length parts - 2) parts) = 2%nat)
      by (rewrite length_drop; lia).
    destruct (drop (length parts - 2) parts) as [|x [|y [|z l]]]; try discriminate.
    cbn [join]. apply Forall_cons in F1 as [F1x F1]. apply Forall_cons in F1 as [F1y _].
    apply Forall_cons in F2 as [F2x F2]. apply Forall_cons in F2 as [F2y _].
    split.
    + apply Forall_app. split; [assumption|]. now constructor.
    + right. now exists x, y.
  - split; [assumption|]. left.
    destruct (first_unit 46 hostname) as [H|(a & b & E & Ha)]; [assumption|].
    exfalso. rewrite E, split_on_first in Hlen by assumption.
    destruct (split_on_nonempty 46 b []) as (p & l & Hp). rewrite Hp in Hlen.
    cbn [length] in Hlen. lia.
Qed.

Lemma https_not_http (rest : jsstring) :
  startsWith_nocase scheme_https (scheme_http ++ rest) = false.
Proof.
  unfold startsWith_nocase, str_eqb. apply bool_decide_eq_false.
  cbn. destruct rest; discriminate.
Qed.

Lemma strip_scheme_www_prefixed (secure www : bool) (rest : jsstring) :
  (www = false -> startsWith_nocase www_dot rest = false) ->
  strip_scheme_www
    ((if secure then scheme_https else scheme_http) ++
     (if www then www_dot else []) ++ rest) = rest.
Proof.
  intros Hw. destruct secure, www; cbn [app]; unfold strip_scheme_www;
    rewrite ?https_not_http.
  - reflexivity.
  - replace (if startsWith_nocase scheme_https (scheme_https ++ rest)
             then drop 8 (scheme_https ++ rest)
             else if startsWith_nocase scheme_http (scheme_https ++ rest)
                  then drop 7 (scheme_https ++ rest) else scheme_https ++ rest)
      with rest by reflexivity.
    now rewrite Hw.
  - reflexivity.
  - replace (if startsWith_nocase scheme_http (scheme_http ++ rest)
             then drop 7 (scheme_http ++ rest) else scheme_http ++ rest)
      with rest by reflexivity.
    now rewrite Hw.
Qed.

(** X20: for an address made of a scheme, an optional [www.], a host of
    labels joined by dots and, possibly, a path, [extractMainDomain]
    returns the last two labels with a dot between them (the label
    itself when there is one only), whatever the path. Without [www.] in
    front, the host itself must not begin with one. *)
Theorem extractMainDomain_last_two_labels
    (secure www : bool) (labels : list jsstring) (rest : jsstring) :
  labels <> [] ->
  Forall (Forall (fun c => c <> 46 /\ c <> 47)) labels ->
  rest = [] \/ (exists path, rest = 47 :: path) ->
  (www = false -> startsWith_nocase www_dot (join 46 labels ++ rest) = false) ->
  extractMainDomain
    ((if secure then scheme_https else scheme_http) ++
     (if www then www_dot else []) ++ join 46 labels ++ rest) =
  join 46 (drop (length labels - 2) labels).
Proof.
  intros Hne Hl Hrest Hw. unfold extractMainDomain.
  rewrite strip_scheme_www_prefixed by assumption.
  assert (Hdot : Forall (Forall (fun c => c <> 46)) labels).
  { eapply Forall_impl; [exact Hl|]. intros l Hx.
    eapply Forall_impl; [exact Hx|]. cbn. tauto. }
  assert (Hslash : Forall (fun c => c <> 47) (join 46 labels)).
  { apply join_Forall; [discriminate|].
    eapply Forall_impl; [exact Hl|]. intros l Hx.
    eapply Forall_impl; [exact Hx|]. cbn. tauto. }
  assert (Hhost : split [47] (join 46 labels ++ rest) !! 0%nat = Some (join 46 labels)).
  { destruct Hrest as [->|[path ->]].
    - rewrite app_nil_r. now rewrite split_unit_none.
    - now rewrite split_unit_first. }
  rewrite Hhost. cbn [default]. change (id (join 46 labels)) with (join 46 labels).
  rewrite split_unit, split_on_join by assumption.
  destruct (Nat.leb_spec 2 (length labels)) as [Hlen|Hlen]; [reflexivity|].
  destruct labels as [|l [|l' labels]]; [contradiction|reflexivity|].
  cbn [length] in Hlen. lia.
Qed.

Lemma extractMainDomain_last_two_labels_witness :
  extractMainDomain
    (scheme_https ++ [] ++ join 46 [js "api"; js "example"; js "com"] ++ js "/a/b") =
  join 46 (drop (length [js "api"; js "example"; js "com"] - 2)
             [js "api"; js "example"; js "com"]).
Proof.
  apply (extractMainDomain_last_two_labels true false
           [js "api"; js "example"; js "com"] (js "/a/b")).
  - discriminate.
  - repeat constructor; discriminate.
  - right. eexists. reflexivity.
  - intros _. reflexivity.
Defined.

(** * Further properties: addresses written and read *)

Lemma unreserved_ascii (c : N) : uri_unreserved c = true -> c < 128.
Proof.
  intros H. destruct (N.lt_ge_cases c 128) as [|Hge]; [assumption|exfalso].
  unfold uri_unreserved, is_word, is_digit, is_upper, is_lower in H.
  assert (E1 : (c <=? 57) = false) by (apply N.leb_gt; lia).
  assert (E2 : (c <=? 90) = false) by (apply N.leb_gt; lia).
  assert (E3 : (c <=? 122) = false) by (apply N.leb_gt; lia).
  assert (E : forall k, k < 128 -> (c =? k) = false)
    by (intros k Hk; apply N.eqb_neq; lia).
  rewrite E1, E2, E3, !E, !andb_false_r in H by lia. discriminate.
Qed.

Lemma unreserved_not (c k : N) :
  uri_unreserved c = true -> uri_unreserved k = false -> c <> k.
Proof. intros H1 H2 ->. congruence. Qed.

Lemma code_points_ascii (s : jsstring) :
  ascii_text s -> code_points s = map Some s.
Proof.
  induction 1 as [|c s Hc _ IH]; [reflexivity|]. cbn [code_points map].
  unfold is_high_surrogate, is_low_surrogate.
  destruct (N.leb_spec 55296 c); [lia|]. destruct (N.leb_spec 56320 c); [lia|].
  cbn [andb]. now rewrite IH.
Qed.

Lemma utf8_bytes_ascii (c : N) : c < 128 -> utf8_bytes c = [c].
Proof. intros H. unfold utf8_bytes. now destruct (N.ltb_spec c 128); [|lia]. Qed.

Lemma utf8_encode_ascii (s : jsstring) : ascii_text s -> utf8_encode s = s.
Proof.
  intros Hs. unfold utf8_encode. rewrite code_points_ascii by assumption.
  induction Hs as [|c s Hc _ IH]; [reflexivity|]. cbn [map flat_map default].
  change (id c) with c. rewrite utf8_bytes_ascii by assumption. cbn [app].
  now rewrite IH.
Qed.

Lemma utf8_decode_ascii (s : jsstring) : ascii_text s -> utf8_decode s = s.
Proof.
  unfold utf8_decode.
  induction 1 as [|c s Hc _ IH]; [reflexivity|].
  cbn [utf8_decode_from]. unfold utf8_step, utf8_lead. cbn [utf8_needed utf8_init].
  destruct (N.leb_spec c 127); [|lia]. cbn [app flat_map]. rewrite IH.
  unfold utf16_units. now destruct (N.ltb_spec c 65536); [|lia].
Qed.

Lemma encodeURIComponent_ascii (s : jsstring) :
  ascii_text s -> encodeURIComponent s = Some (flat_map escape_unit s).
Proof.
  intros Hs. unfold encodeURIComponent. rewrite code_points_ascii by assumption.
  induction Hs as [|c s Hc _ IH]; [reflexivity|].
  cbn [map encode_points flat_map]. rewrite IH. unfold escape_unit at 2.
  rewrite utf8_bytes_ascii by assumption. cbn [flat_map]. now rewrite app_nil_r.
Qed.

Lemma hex_value_upper (d : N) : d < 16 -> hex_value (hex_upper d) = Some d.
Proof.
  intros Hd. unfold hex_value, hex_upper, is_digit.
  destruct (N.ltb_spec d 10); cmp.
Qed.

Lemma hex_upper_range (d : N) :
  d < 16 -> 48 <= hex_upper d <= 70 /\ hex_upper d <> 61.
Proof. intros Hd. unfold hex_upper. destruct (N.ltb_spec d 10); lia. Qed.

Lemma percent_decode_escaped (s : jsstring) :
  ascii_text s -> percent_decode (flat_map escape_unit s) = s.
Proof.
  induction 1 as [|c s Hc _ IH]; [reflexivity|]. cbn [flat_map].
  unfold escape_unit at 1. destruct (uri_unreserved c) eqn:Hu.
  - cbn [app percent_decode].
    destruct (N.eqb_spec c 37) as [->|_]; [discriminate Hu|]. now rewrite IH.
  - unfold percent_byte. cbn [app percent_decode N.eqb Pos.eqb].
    assert (H16 : c / 16 < 16 /\ c mod 16 < 16).
    { split; [apply N.Div0.div_lt_upper_bound; lia|apply N.mod_lt; lia]. }
    rewrite !hex_value_upper by tauto. rewrite IH. f_equal.
    pose proof (N.div_mod c 16 ltac:(lia)). lia.
Qed.

Lemma escaped_units (s : jsstring) :
  ascii_text s ->
  Forall (fun c => c < 128 /\ c <> 35 /\ c <> 38 /\ c <> 43 /\ c <> 61)
    (flat_map escape_unit s).
Proof.
  induction 1 as [|c s Hc _ IH]; [constructor|]. cbn [flat_map].
  apply Forall_app. split; [|exact IH].
  unfold escape_unit. destruct (uri_unreserved c) eqn:Hu.
  - repeat constructor; [assumption|..];
      (apply (unreserved_not _ _ Hu); reflexivity).
  - unfold percent_byte.
    assert (H16 : c / 16 < 16 /\ c mod 16 < 16).
    { split; [apply N.Div0.div_lt_upper_bound; lia|apply N.mod_lt; lia]. }
    destruct H16 as [Ha Hb].
    pose proof (hex_upper_range _ Ha). pose proof (hex_upper_range _ Hb).
    repeat constructor; lia.
Qed.

Lemma map_plus_free (s : jsstring) :
  Forall (fun c => c <> 43) s -> map (fun b => if b =? 43 then 32 else b) s = s.
Proof.
  induction 1 as [|c s Hc _ IH]; [reflexivity|]. cbn [map].
  destruct (N.eqb_spec c 43); [contradiction|]. now rewrite IH.
Qed.

Lemma percent_decode_plain (s : jsstring) :
  Forall (fun c => c <> 37) s -> percent_decode s = s.
Proof.
  induction 1 as [|c s Hc _ IH]; [reflexivity|]. cbn [percent_decode].
  destruct (N.eqb_spec c 37); [contradiction|]. now rewrite IH.
Qed.

Lemma form_decode_escaped (s : jsstring) :
  ascii_text s -> form_decode (flat_map escape_unit s) = s.
Proof.
  intros Hs. unfold form_decode. rewrite map_plus_free.
  - rewrite percent_decode_escaped by assumption. now apply utf8_decode_ascii.
  - eapply Forall_impl; [apply escaped_units, Hs|]. cbn. tauto.
Qed.

Lemma form_decode_unreserved (s : jsstring) :
  unreserved_text s -> form_decode s = s.
Proof.
  intros Hs. unfold form_decode. rewrite map_plus_free.
  - rewrite percent_decode_plain.
    + apply utf8_decode_ascii. eapply Forall_impl; [exact Hs|].
      apply unreserved_ascii.
    + eapply Forall_impl; [exact Hs|]. intros c Hc.
      now apply (unreserved_not _ _ Hc).
  - eapply Forall_impl; [exact Hs|]. intros c Hc.
    now apply (unreserved_not _ _ Hc).
Qed.

Lemma cut_at_first (c : N) (b : jsstring) (a : jsstring) : forall cur : jsstring,
  Forall (fun x => x <> c) a -> cut_at c (a ++ c :: b) cur = (rev cur ++ a, b).
Proof.
  induction a as [|x a IH]; intros cur Ha.
  - cbn [app cut_at]. rewrite N.eqb_refl. now rewrite app_nil_r.
  - apply Forall_cons in Ha as [Hx Ha]. cbn [app cut_at].
    destruct (N.eqb_spec x c); [contradiction|].
    rewrite IH by assumption. cbn [rev]. now rewrite <- app_assoc.
Qed.

Lemma omap_cons_eq {A B : Type} (f : A -> option B) (x : A) (l : list A) :
  omap f (x :: l) =
  match f x with
  | Some y => y :: omap f l
  | None => omap f l
  end.
Proof. reflexivity. Qed.

Lemma parse_urlencoded_first (name value more : jsstring) :
  Forall (fun x => x <> 38 /\ x <> 61) name -> Forall (fun x => x <> 38) value ->
  parse_urlencoded (name ++ 61 :: value ++ 38 :: more) =
  (form_decode name, form_decode value) :: parse_urlencoded more.
Proof.
  intros Hn Hv. unfold parse_urlencoded.
  replace (name ++ 61 :: value ++ 38 :: more)
    with ((name ++ 61 :: value) ++ 38 :: more) by now rewrite <- app_assoc.
  rewrite split_on_first.
  2:{ apply Forall_app. split; [|constructor; [discriminate|assumption]].
      eapply Forall_impl; [exact Hn|]. cbn. tauto. }
  cbn [rev app]. rewrite omap_cons_eq.
  assert (Hc : cut_at 61 (name ++ 61 :: value) [] = (name, value)).
  { rewrite cut_at_first; [reflexivity|].
    eapply Forall_impl; [exact Hn|]. cbn. tauto. }
  destruct name; cbn [app] in *; now rewrite Hc.
Qed.

Lemma parse_urlencoded_last (name value : jsstring) :
  Forall (fun x => x <> 38 /\ x <> 61) name -> Forall (fun x => x <> 38) value ->
  parse_urlencoded (name ++ 61 :: value) = [(form_decode name, form_decode value)].
Proof.
  intros Hn Hv. unfold parse_urlencoded.
  rewrite split_on_none.
  2:{ apply Forall_app. split; [|constructor; [discriminate|assumption]].
      eapply Forall_impl; [exact Hn|]. cbn. tauto. }
  cbn [rev app]. rewrite omap_cons_eq.
  assert (Hc : cut_at 61 (name ++ 61 :: value) [] = (name, value)).
  { rewrite cut_at_first; [reflexivity|].
    eapply Forall_impl; [exact Hn|]. cbn. tauto. }
  destruct name; cbn [app] in *; now rewrite Hc.
Qed.

Lemma params_get_here (k v : jsstring) (l : list (jsstring * jsstring)) :
  params_get k ((k, v) :: l) = Some v.
Proof. unfold params_get. now rewrite filter_cons_True. Qed.

Lemma params_get_next (k k' v : jsstring) (l : list (jsstring * jsstring)) :
  k' <> k -> params_get k ((k', v) :: l) = params_get k l.
Proof. intros H. unfold params_get. now rewrite filter_cons_False. Qed.

Lemma location_search_query (pre tail : jsstring) :
  Forall (fun c => c <> 63 /\ c <> 35) pre -> Forall (fun c => c <> 35) tail ->
  tail <> [] ->
  location_search (pre ++ 63 :: tail) = 63 :: tail.
Proof.
  intros Hpre Htail Hne. unfold location_search.
  assert (H35 : indexOf [35] (pre ++ 63 :: tail) = None).
  { unfold indexOf. apply indexOf_from_absent_unit, Forall_app. split.
    - eapply Forall_impl; [exact Hpre|]. cbn. tauto.
    - constructor; [discriminate|assumption]. }
  rewrite H35, indexOf_unit_first.
  2:{ eapply Forall_impl; [exact Hpre|]. cbn. tauto. }
  rewrite drop_app_length. now destruct tail.
Qed.

Ltac literal_units :=
  repeat match goal with
         | |- Forall _ [] => constructor
         | |- Forall _ (_ :: _) => constructor
         | |- Forall _ ?l => progress (unfold l)
         | |- ascii_text _ => unfold ascii_text
         | |- unreserved_text _ => unfold unreserved_text
         | |- _ /\ _ => split
         | |- _ < _ => reflexivity
         | |- _ <> _ => discriminate
         | |- _ -> False => discriminate
         | |- _ = _ => reflexivity
         end.

Lemma redirectDomain_unreserved (page : Page) :
  unreserved_text (page_hostname page) -> unreserved_text (redirectDomain page).
Proof.
  intros H. unfold redirectDomain. destruct (_ || _); [|assumption].
  unfold unreserved_text. literal_units.
Qed.

Lemma unreserved_units (s : jsstring) :
  unreserved_text s ->
  Forall (fun c => c < 128 /\ c <> 35 /\ c <> 38 /\ c <> 43 /\ c <> 61) s.
Proof.
  intros Hs. eapply Forall_impl; [exact Hs|]. intros c Hc.
  split; [now apply unreserved_ascii|].
  repeat split; now apply (unreserved_not _ _ Hc).
Qed.

(** X21: the address [handleGoogleLogin] sends the browser to carries the
    way back: on a page whose origin and path are ASCII and whose host
    name is made of letters, digits and the like, the function does not
    throw, and whoever reads the query of that address finds the
    redirect domain under [url] and, under [redirect_uri], the address
    of the page, units outside the unreserved ones having been escaped
    and read back. The note kept under [lastGoogleRedirect] reads back
    as written, and nothing else is stored. *)
Theorem redirect_carries_return_address (page : Page) (iso : jsstring) (ls : storage) :
  ascii_text (page_origin page ++ page_pathname page) ->
  unreserved_text (page_hostname page) ->
  match handleGoogleLogin page iso ls with
  | Normal (redirectUrl, ls') =>
      (let params := URLSearchParams (location_search redirectUrl) in
       params_get k_url params = Some (redirectDomain page) /\
       params_get k_redirect_uri params =
         Some (page_origin page ++ page_pathname page)) /\
      (exists s, ls' !! "lastGoogleRedirect"%string = Some s /\
                 JSON_parse s = Some (redirect_note page iso redirectUrl)) /\
      (forall k : string, k <> "lastGoogleRedirect"%string -> ls' !! k = ls !! k)
  | Throw => False
  end.
Proof.
  intros Hfull Hhost. unfold handleGoogleLogin.
  rewrite encodeURIComponent_ascii by assumption.
  set (full := page_origin page ++ page_pathname page) in *.
  set (d := redirectDomain page).
  set (enc := flat_map escape_unit full).
  pose proof (unreserved_units d (redirectDomain_unreserved page Hhost)) as Hd.
  pose proof (escaped_units full Hfull) as Henc.
  split; [|split].
  - set (tail := k_url ++ 61 :: d ++ 38 :: k_redirect_uri ++ 61 :: enc).
    change (login_page ++ d ++ redirect_uri_param ++ enc)
      with (login_page_path ++ 63 :: tail).
    assert (Htail : Forall (fun c => c < 128 /\ c <> 35) tail).
    { unfold tail. apply Forall_app. split; [literal_units|].
      constructor; [literal_units|]. apply Forall_app. split.
      { eapply Forall_impl; [exact Hd|]. cbn. tauto. }
      constructor; [literal_units|]. apply Forall_app. split; [literal_units|].
      constructor; [literal_units|].
      eapply Forall_impl; [exact Henc|]. cbn. tauto. }
    rewrite location_search_query.
    + unfold URLSearchParams. rewrite utf8_encode_ascii.
      2:{ eapply Forall_impl; [exact Htail|]. cbn. tauto. }
      unfold tail. rewrite parse_urlencoded_first, parse_urlencoded_last.
      * rewrite (form_decode_unreserved d) by now apply redirectDomain_unreserved.
        unfold enc. rewrite form_decode_escaped by assumption.
        change (form_decode k_url) with k_url.
        change (form_decode k_redirect_uri) with k_redirect_uri.
        cbn zeta. split; [apply params_get_here|].
        rewrite params_get_next by discriminate. apply params_get_here.
      * literal_units.
      * eapply Forall_impl; [exact Henc|]. cbn. tauto.
      * literal_units.
      * eapply Forall_impl; [exact Hd|]. cbn. tauto.
    + literal_units.
    + eapply Forall_impl; [exact Htail|]. cbn. tauto.
    + discriminate.
  - eexists. split; [apply lookup_insert_eq|].
    apply JSON_parse_stringify_object. repeat constructor.
  - intros k Hk. now rewrite lookup_insert_ne.
Qed.

Lemma redirect_carries_return_address_witness :
  match handleGoogleLogin local_page (js "2024-05-01T10:00:00.000Z") ∅ with
  | Normal (redirectUrl, ls') =>
      (let params := URLSearchParams (location_search redirectUrl) in
       params_get k_url params = Some (redirectDomain local_page) /\
       params_get k_redirect_uri params =
         Some (page_origin local_page ++ page_pathname local_page)) /\
      (exists s, ls' !! "lastGoogleRedirect"%string = Some s /\
                 JSON_parse s =
                   Some (redirect_note local_page (js "2024-05-01T10:00:00.000Z")
                           redirectUrl)) /\
      (forall k : string,
         k <> "lastGoogleRedirect"%string -> ls' !! k = (∅ : storage) !! k)
  | Throw => False
  end.
Proof.
  apply (redirect_carries_return_address local_page
           (js "2024-05-01T10:00:00.000Z") ∅).
  - unfold ascii_text. vm_compute. literal_units.
  - unfold unreserved_text. vm_compute. literal_units.
Defined.

(** X22: an [error] parameter at the head of the query is shown: for an
    address that ends in [?error=] and a value of unreserved units,
    alone or followed by further parameters, the login message is
    ["Google login failed: "] followed by the value, and the address of
    the page becomes its origin and path. *)
Theorem auth_error_is_shown (page : Page) (pre v rest : jsstring) :
  Forall (fun c => c <> 63 /\ c <> 35) pre ->
  unreserved_text v ->
  rest = [] \/
    (exists more, rest = 38 :: more /\ Forall (fun c => c < 128 /\ c <> 35) more) ->
  authErrorCheck page (pre ++ ERROR_QUERY ++ v ++ rest) =
  (Some (failed_prefix ++ v), page_origin page ++ page_pathname page).
Proof.
  intros Hpre Hv Hrest. unfold authErrorCheck.
  assert (Hin : includes ERROR_KEY (pre ++ ERROR_QUERY ++ v ++ rest) = true).
  { replace (pre ++ ERROR_QUERY ++ v ++ rest)
      with ((pre ++ [63]) ++ ERROR_KEY ++ v ++ rest) by now rewrite <- app_assoc.
    apply includes_app. }
  rewrite Hin.
  pose proof (unreserved_units v Hv) as Hv'.
  set (tail := k_error ++ 61 :: v ++ rest).
  change (pre ++ ERROR_QUERY ++ v ++ rest) with (pre ++ 63 :: tail).
  assert (Htail : Forall (fun c => c < 128 /\ c <> 35) tail).
  { unfold tail. apply Forall_app. split; [literal_units|].
    constructor; [literal_units|]. apply Forall_app. split.
    { eapply Forall_impl; [exact Hv'|]. cbn. tauto. }
    destruct Hrest as [->|(more & -> & Hmore)]; [constructor|].
    constructor; [literal_units|assumption]. }
  rewrite location_search_query; [|assumption| |discriminate].
  2:{ eapply Forall_impl; [exact Htail|]. cbn. tauto. }
  unfold URLSearchParams. rewrite utf8_encode_ascii.
  2:{ eapply Forall_impl; [exact Htail|]. cbn. tauto. }
  assert (Hget : params_get k_error (parse_urlencoded tail) = Some v).
  { unfold tail. destruct Hrest as [->|(more & -> & _)].
    - rewrite app_nil_r, parse_urlencoded_last; [|literal_units|].
      2:{ eapply Forall_impl; [exact Hv'|]. cbn. tauto. }
      rewrite (form_decode_unreserved v) by assumption.
      change (form_decode k_error) with k_error. apply params_get_here.
    - rewrite parse_urlencoded_first; [|literal_units|].
      2:{ eapply Forall_impl; [exact Hv'|]. cbn. tauto. }
      rewrite (form_decode_unreserved v) by assumption.
      change (form_decode k_error) with k_error. apply params_get_here. }
  now rewrite Hget.
Qed.

Lemma auth_error_is_shown_witness :
  authErrorCheck site_page
    (js "https://example.com/page" ++ ERROR_QUERY ++ js "access_denied" ++
     js "&state=1") =
  (Some (failed_prefix ++ js "access_denied"),
   page_origin site_page ++ page_pathname site_page).
Proof.
  apply (auth_error_is_shown site_page (js "https://example.com/page")
           (js "access_denied") (js "&state=1")).
  - vm_compute. literal_units.
  - unfold unreserved_text. vm_compute. literal_units.
  - right. eexists. split; [reflexivity|]. vm_compute. literal_units.
Defined.

(** X23: an address that holds [error=] is cleaned before the login
    parameters are looked for: unless the path of the page itself holds
    the key, [processGoogleLoginData], which runs next and reads the
    address anew, finds nothing, stores nothing and shows nothing, even
    when the redirect carried a [google_id]. *)
Theorem auth_error_drops_parameters
    (page : Page) (url : jsstring) (x : exchange) (now : Z) (rnd : jsstring)
    (ls : storage) :
  includes ERROR_KEY url = true ->
  includes KEY (page_origin page ++ page_pathname page) = false ->
  processGoogleLoginData
    {| href := (authErrorCheck page url).2; hostname := page_hostname page |}
    x now rnd ls = (ls, Silent).
Proof.
  intros He Hk. unfold authErrorCheck. rewrite He. cbn [snd].
  unfold processGoogleLoginData, extract_fields. cbn [href]. now rewrite Hk.
Qed.

Lemma auth_error_drops_parameters_witness :
  processGoogleLoginData
    {| href :=
         (authErrorCheck site_page
            (js "https://example.com/page?google_id=abc&error=late")).2;
       hostname := page_hostname site_page |}
    (Response 200 (js "{}")) 5 (js "r") ∅ = (∅, Silent).
Proof.
  apply (auth_error_drops_parameters site_page
           (js "https://example.com/page?google_id=abc&error=late")
           (Response 200 (js "{}")) 5 (js "r") ∅).
  - reflexivity.
  - reflexivity.
Defined.

(** * Further properties of the prompt and of the orchestration *)



(** X25: an address that holds the key but from which no [google_id], or an
    empty one, is read gets the message about missing information: on
    every host, whatever the network would answer, nothing is stored and
    no session is synthesized. *)
Theorem missing_id_is_reported
    (loc : Location) (x : exchange) (now : Z) (rnd : jsstring) (ls : storage) :
  includes KEY (href loc) = true ->
  extract (href loc) = None ->
  processGoogleLoginData loc x now rnd ls = (ls, MissingInformation).
Proof.
  intros Hk He. unfold processGoogleLoginData. unfold extract in He.
  destruct (extract_fields_normal (href loc)) as [r Hr]. rewrite Hr in *.
  destruct r as [i|].
  - destruct (truthy_str (id_googleId i)); [discriminate|reflexivity].
  - exfalso. unfold extract_fields in Hr. rewrite Hk in Hr.
    destruct (includes QUERY_KEY (href loc)); [discriminate|].
    destruct (includes HASH_KEY (href loc)).
    { destruct (split [35] (href loc) !! 1%nat); discriminate. }
    destruct (includes SLASH_KEY (href loc)).
    { destruct (split SLASH_KEY (href loc) !! 1%nat); discriminate. }
    discriminate.
Qed.

Lemma missing_id_is_reported_witness :
  processGoogleLoginData missing_id_url NetworkError 5 (js "r") ∅ =
  (∅, MissingInformation).
Proof.
  apply (missing_id_is_reported missing_id_url NetworkError 5 (js "r") ∅).
  - reflexivity.
  - reflexivity.
Defined.

(** X26: on a designated host the fallback cannot fail for want of an
    avatar: given a [google_id] that is not empty and a picture, or else
    a name of ASCII (or no name), [mockGoogleLogin] returns [true] and
    stores a session. *)
Theorem fallback_succeeds_on_ascii_names
    (host : jsstring) (gid name mail pic : option jsstring) (now : Z)
    (rnd : jsstring) (ls : storage) :
  isAllowedDomain host = true ->
  truthy_str gid = true ->
  truthy_str pic = true \/ ascii_text (or_str name []) ->
  exists u,
    mockGoogleLogin host gid name mail pic now rnd ls =
      (true, login u ls, Welcome u).
Proof.
  intros Hhost Hgid Hpic.
  destruct (mockGoogleLogin_cases host gid name mail pic now rnd ls)
    as [E|(_ & _ & u & _ & E)]; [exfalso|now exists u].
  unfold mockGoogleLogin in E. rewrite Hhost, Hgid in E. cbn [negb] in E.
  unfold mock_userData in E.
  destruct (truthy_str pic) eqn:Hp; [discriminate|].
  destruct Hpic as [|Hname]; [discriminate|].
  assert (Ha : ascii_text (or_str name label_User)).
  { destruct name as [[|c s]|]; cbn [or_str] in *;
      [unfold label_User; literal_units|assumption|unfold label_User; literal_units]. }
  unfold generated_avatar in E. rewrite encodeURIComponent_ascii in E by assumption.
  discriminate.
Qed.

Lemma fallback_succeeds_on_ascii_names_witness :
  exists u,
    mockGoogleLogin (js "localhost") (Some (js "abc")) (Some (js "Bo Li")) None None
      5 (js "r") ∅ = (true, login u ∅, Welcome u).
Proof.
  apply (fallback_succeeds_on_ascii_names (js "localhost") (Some (js "abc"))
           (Some (js "Bo Li")) None None 5 (js "r") ∅).
  - reflexivity.
  - reflexivity.
  - right. vm_compute. literal_units.
Defined.

(** ** The scan for the end of the parameters *)

Lemma indexOf_from_unit (c : N) (s : jsstring) (i : nat) :
  (Forall (fun x => x <> c) s /\ indexOf_from [c] s i = None) \/
  (exists a b, s = a ++ c :: b /\ Forall (fun x => x <> c) a /\
               indexOf_from [c] s i = Some (i + length a)%nat).
Proof.
  destruct (first_unit c s) as [Hs|(a & b & -> & Ha)].
  - left. split; [assumption|]. now apply indexOf_from_absent_unit.
  - right. exists a, b. split; [reflexivity|]. split; [assumption|].
    apply indexOf_from_app_first; [now apply unit_not_before|].
    cbn. now rewrite N.eqb_refl.
Qed.

Lemma Forall_take_le (P : N -> Prop) (s : jsstring) (k k' : nat) :
  (k' <= k)%nat -> Forall P (take k s) -> Forall P (take k' s).
Proof.
  intros Hle H. replace (take k' s) with (take k' (take k s)).
  - now apply Forall_take.
  - rewrite take_take. f_equal. lia.
Qed.

Lemma scan_step (url : jsstring) (start e0 : nat) (ch : N) :
  (start <= length url)%nat -> (start <= e0)%nat ->
  let e1 := match indexOf_at [ch] url start with
            | Some charIndex => if (charIndex <? e0)%nat then charIndex else e0
            | None => e0
            end in
  (start <= e1 <= e0)%nat /\
  Forall (fun x => x <> ch) (take (e1 - start) (drop start url)) /\
  ((e1 < e0)%nat -> url !! e1 = Some ch).
Proof.
  intros Hlen Hle. cbn zeta. unfold indexOf_at.
  destruct (decide (start <= length url)%nat) as [_|]; [|lia].
  destruct (indexOf_from_unit ch (drop start url) start)
    as [[Hs ->]|(a & b & E & Ha & ->)].
  - split; [lia|]. split; [now apply Forall_take|lia].
  - assert (Ht : Forall (fun x => x <> ch) (take (length a) (drop start url))).
    { rewrite E. now rewrite take_app_length. }
    destruct (Nat.ltb_spec (start + length a) e0) as [Hlt|Hge].
    + split; [lia|]. split.
      * now replace (start + length a - start)%nat with (length a) by lia.
      * intros _. rewrite <- lookup_drop, E.
        rewrite lookup_app_r by lia. now rewrite Nat.sub_diag.
    + split; [lia|]. split; [|lia].
      apply (Forall_take_le _ _ (length a)); [lia|assumption].
Qed.

Lemma scan_fold (url : jsstring) (start : nat) (chars : list N) :
  forall e0 : nat,
  (start <= length url)%nat -> (start <= e0)%nat ->
  let e := fold_left
             (fun endIndex char =>
                match indexOf_at [char] url start with
                | Some charIndex =>
                    if (charIndex <? endIndex)%nat then charIndex else endIndex
                | None => endIndex
                end) chars e0 in
  (start <= e <= e0)%nat /\
  (forall ch, In ch chars ->
     Forall (fun x => x <> ch) (take (e - start) (drop start url))) /\
  ((e < e0)%nat -> exists ch, In ch chars /\ url !! e = Some ch).
Proof.
  induction chars as [|ch chars IH]; intros e0 Hlen Hle; cbn zeta.
  - cbn [fold_left]. split; [lia|]. split; [intros ch []|lia].
  - cbn [fold_left].
    destruct (scan_step url start e0 ch Hlen Hle) as (H1 & H2 & H3).
    cbn zeta in H1, H2, H3.
    set (e1 := match indexOf_at [ch] url start with
               | Some charIndex => if (charIndex <? e0)%nat then charIndex else e0
               | None => e0
               end) in *.
    destruct (IH e1 Hlen ltac:(lia)) as (G1 & G2 & G3). cbn zeta in G1, G2, G3.
    set (e := fold_left _ chars e1) in *.
    split; [lia|]. split.
    + intros c [<-|Hin]; [|now apply G2].
      apply (Forall_take_le _ _ (e1 - start)); [lia|assumption].
    + intros Hlt. destruct (Nat.lt_ge_cases e e1) as [He|He].
      * destruct (G3 He) as (c & Hin & Hc). exists c. split; [now right|assumption].
      * exists ch. split; [now left|]. replace e with e1 by lia. apply H3. lia.
Qed.

(** X27: the scan for the end of the parameters takes the longest stretch
    free of illegal characters: the text cut out from the start index
    holds none of them, and it ends at the end of the address or right
    before an illegal character. *)
Theorem key_scan_stops_at_illegal (url : jsstring) (startIndex : nat) :
  (startIndex <= length url)%nat ->
  let endIndex := scan_end url startIndex in
  (startIndex <= endIndex <= length url)%nat /\
  Forall (fun c => ~ In c illegalChars) (substring startIndex endIndex url) /\
  ((endIndex < length url)%nat ->
   exists c, In c illegalChars /\ url !! endIndex = Some c).
Proof.
  intros Hlen. cbn zeta. unfold scan_end, substring.
  destruct (scan_fold url startIndex illegalChars (length url) Hlen Hlen)
    as (H1 & H2 & H3).
  cbn zeta in H1, H2, H3. split; [assumption|]. split; [|assumption].
  apply Forall_forall. intros x Hx Hin.
  specialize (H2 x Hin). rewrite Forall_forall in H2. now apply (H2 x Hx).
Qed.

Lemma key_scan_stops_at_illegal_witness :
  let url := js "https://h/p&google_id=abc&name=Bo Li" in
  let endIndex := scan_end url 12 in
  (12 <= endIndex <= length url)%nat /\
  Forall (fun c => ~ In c illegalChars) (substring 12 endIndex url) /\
  ((endIndex < length url)%nat ->
   exists c, In c illegalChars /\ url !! endIndex = Some c).
Proof.
  apply (key_scan_stops_at_illegal (js "https://h/p&google_id=abc&name=Bo Li") 12).
  cbn. lia.
Defined.

(** The text functions and the decoder on some inputs. *)
Example text_examples :
  formatParagraphs [97; 10; 98; 10; 10; 99; 10; 10; 10; 100; 10] =
    js "<p>a<br>b</p><p>c</p><p>d<br></p>" /\
  formatParagraphs [] = js "<p></p>" /\
  split_blank_lines false [10; 10; 97; 10; 10] [] = [[]; js "a"; []] /\
  extractMainDomain (js "HTTPS://WWW.a.b.example.com/x/y") = js "example.com" /\
  extractMainDomain (js "localhost:8000/x") = js "localhost:8000" /\
  extractMainDomain (js "www.com") = js "com" /\
  decodeURIComponent (js "a%20b%E4%B8%89%F0%9F%98%80") =
    Normal [97; 32; 98; 19977; 55357; 56832] /\
  decodeURIComponent (js "a+b") = Normal (js "a+b") /\
  decodeURIComponent (js "%E4%B8") = Throw /\
  decodeURIComponent (js "%C0%80") = Throw /\
  decodeURIComponent (js "%ED%A0%80") = Throw /\
  decodeURIComponent (js "100%") = Throw /\
  match_param NAME_KEY (js "http://h/p/username=&name=Bo%20Li&x=1") =
    Some (js "Bo%20Li") /\
  match_param KEY (js "http://h/p&google_id=") = None.
Proof. vm_compute. repeat split. Qed.
